(** * job-dashboard: the e-mail classification, extraction and staging pipeline

    A shallow embedding of
      - scripts/lib/classification-rules.js   (rule engine)
      - scripts/lib/extraction-rules.js       (extraction engine, merge)
      - scripts/jobsync-local-sync.js         (local producer)
      - scripts/jobsync-scan-corrections.js   (correction scanner)
      - src/lib/email/classifier.ts           (server-side LLM classifier)
      - src/app/api/email-sync/route.ts       (ingestion endpoint)
      - src/lib/email/parser.ts               (server-side mail parser)
      - scripts/jobsync-backfill-metadata.js  (metadata backfill: its update
                                                request)
      - the concurrent revision of the local sync (worker pool, few-shot
        examples, metadata extraction, one message)
    followed by the properties proved about them.

    Conventions.  A JavaScript string is a Rocq [string] whose characters are
    its UTF-16 code units; the embedding covers code units below 256.  A value
    that may be [undefined] or [null] is an [option].  A JavaScript number is
    the rational it denotes ([Q]).  The outcome of every call to an external
    collaborator (mail store, language model, HTTP, clock, random source) is
    an explicit input of the function that makes the call. *)

From Stdlib Require Import ZArith NArith QArith Strings.String Strings.Ascii.
From Stdlib Require Import List Lia DecimalString DecimalN.
From stdpp Require Import gmap strings list fin_maps relations.

Open Scope string_scope.

(* ===================================================================== *)
(** * JavaScript strings                                                  *)
(* ===================================================================== *)

Definition cu (a : ascii) : N := N_of_ascii a.

(** `a || b` on strings-or-undefined: the empty string is falsy. *)
Definition truthy_str (o : option string) : bool :=
  match o with
  | Some s => negb (String.eqb s "")
  | None => false
  end.

Definition or_str (o : option string) (d : string) : string :=
  if truthy_str o then default d o else d.

Definition or_opt (o1 o2 : option string) : option string :=
  if truthy_str o1 then o1 else o2.

(** ToString applied to a string-or-undefined value. *)
Definition ToString (o : option string) : string := default "undefined" o.

Definition lower_cu (n : N) : N :=
  if ((65 <=? n) && (n <=? 90)
      || (192 <=? n) && (n <=? 222) && negb (n =? 215))%N
  then (n + 32)%N else n.

Fixpoint toLowerCase (s : string) : string :=
  match s with
  | EmptyString => EmptyString
  | String a s' => String (ascii_of_N (lower_cu (cu a))) (toLowerCase s')
  end.

Fixpoint startsWith (s p : string) : bool :=
  match p, s with
  | EmptyString, _ => true
  | String b p', String a s' => Ascii.eqb a b && startsWith s' p'
  | String _ _, EmptyString => false
  end.

Fixpoint includes (s p : string) : bool :=
  startsWith s p ||
  match s with
  | EmptyString => false
  | String _ s' => includes s' p
  end.

Fixpoint take_str (n : nat) (s : string) : string :=
  match n, s with
  | S n', String a s' => String a (take_str n' s')
  | _, _ => EmptyString
  end.

Fixpoint drop_str (n : nat) (s : string) : string :=
  match n, s with
  | S n', String _ s' => drop_str n' s'
  | _, _ => s
  end.

(** `s.substring(0, n)` *)
Definition substring0 (n : N) (s : string) : string := take_str (N.to_nat n) s.

Definition is_space (n : N) : bool :=
  ((9 <=? n) && (n <=? 13) || (n =? 32) || (n =? 160))%N.

Definition is_line_terminator (n : N) : bool := ((n =? 10) || (n =? 13))%N.

Fixpoint trimStart (s : string) : string :=
  match s with
  | String a s' => if is_space (cu a) then trimStart s' else s
  | EmptyString => EmptyString
  end.

Fixpoint trimEnd (s : string) : string :=
  match s with
  | EmptyString => EmptyString
  | String a s' =>
      match trimEnd s' with
      | EmptyString => if is_space (cu a) then EmptyString else String a EmptyString
      | t => String a t
      end
  end.

Definition trim (s : string) : string := trimEnd (trimStart s).

(** `s.split(sep)` for a one-character separator. *)
Fixpoint split_on (sep : ascii) (s : string) : list string :=
  match s with
  | EmptyString => [EmptyString]
  | String a s' =>
      if Ascii.eqb a sep then EmptyString :: split_on sep s'
      else match split_on sep s' with
           | h :: t => String a h :: t
           | [] => [String a EmptyString]
           end
  end.

(** `xs.join(sep)` *)
Fixpoint join (sep : string) (xs : list string) : string :=
  match xs with
  | [] => EmptyString
  | [x] => x
  | x :: rest => x +:+ sep +:+ join sep rest
  end.

(** Decimal rendering of a non-negative integer, as in a template literal. *)
Definition string_of_N (n : N) : string := NilEmpty.string_of_uint (N.to_uint n).

(* ===================================================================== *)
(** * Regular expressions: the RegExp features the rule tables use        *)
(* ===================================================================== *)

Module RegExp.

Inductive class_item :=
  | CRange (lo hi : N)
  | CSpace | CNotSpace
  | CWord
  | CDigit.

Inductive quant := QStar | QPlus | QOpt.

Inductive regex :=
  | REmpty
  | RChar (c : N)
  | RAny
  | RClass (neg : bool) (items : list class_item)
  | RSeq (r1 r2 : regex)
  | RAlt (r1 r2 : regex)
  | RRep (q : quant) (greedy : bool) (r : regex)
  | RGroup (i : nat) (r : regex)
  | RNegLook (r : regex)
  | RBol
  | REol.

Record flags := { ignoreCase : bool; multiline : bool; global : bool }.

(** Canonicalize of the specification (case folding through toUpperCase),
    on the code units below 256 and on those the patterns mention. *)
Definition canon (n : N) : N :=
  if ((97 <=? n) && (n <=? 122)
      || (224 <=? n) && (n <=? 254) && negb (n =? 247))%N then (n - 32)%N
  else if (n =? 255)%N then 376%N
  else if ((n =? 181) || (n =? 956))%N then 924%N
  else n.

(** The code units with the same canonical form as [n]. *)
Definition variants (n : N) : list N :=
  let c := canon n in
  n :: c ::
  (if ((65 <=? c) && (c <=? 90)
       || (192 <=? c) && (c <=? 222) && negb (c =? 215))%N then [(c + 32)%N]
   else if (c =? 376)%N then [255%N]
   else if (c =? 924)%N then [181%N; 956%N]
   else []).

Definition is_word (n : N) : bool :=
  ((48 <=? n) && (n <=? 57) || (65 <=? n) && (n <=? 90)
   || (97 <=? n) && (n <=? 122) || (n =? 95))%N.

Definition item_in (it : class_item) (n : N) : bool :=
  match it with
  | CRange lo hi => ((lo <=? n) && (n <=? hi))%N
  | CSpace => is_space n
  | CNotSpace => negb (is_space n)
  | CWord => is_word n
  | CDigit => ((48 <=? n) && (n <=? 57))%N
  end.

Definition item_matches (fl : flags) (it : class_item) (n : N) : bool :=
  if ignoreCase fl then existsb (item_in it) (variants n) else item_in it n.

Definition char_matches (fl : flags) (c n : N) : bool :=
  if ignoreCase fl then (canon c =? canon n)%N else (c =? n)%N.

(** Matcher state: the character before the current position, the input
    still to read, the current index and the captures made so far. *)
Record mstate := {
  ms_prev : option ascii;
  ms_rest : string;
  ms_pos : nat;
  ms_caps : list (nat * string)
}.

Definition advance (a : ascii) (rest : string) (s : mstate) : mstate :=
  {| ms_prev := Some a; ms_rest := rest; ms_pos := S (ms_pos s);
     ms_caps := ms_caps s |}.

Fixpoint groups (r : regex) : list nat :=
  match r with
  | RSeq r1 r2 | RAlt r1 r2 => groups r1 ++ groups r2
  | RRep _ _ r' | RNegLook r' => groups r'
  | RGroup i r' => i :: groups r'
  | _ => []
  end.

Definition clear_caps (gs : list nat) (s : mstate) : mstate :=
  {| ms_prev := ms_prev s; ms_rest := ms_rest s; ms_pos := ms_pos s;
     ms_caps := List.filter (fun p => negb (existsb (Nat.eqb (fst p)) gs)) (ms_caps s) |}.

Definition set_cap (i : nat) (from to : mstate) : mstate :=
  {| ms_prev := ms_prev to; ms_rest := ms_rest to; ms_pos := ms_pos to;
     ms_caps := (i, take_str (ms_pos to - ms_pos from) (ms_rest from)) :: ms_caps to |}.

Definition at_bol (fl : flags) (s : mstate) : bool :=
  match ms_prev s with
  | None => true
  | Some a => multiline fl && is_line_terminator (cu a)
  end.

Definition at_eol (fl : flags) (s : mstate) : bool :=
  match ms_rest s with
  | EmptyString => true
  | String a _ => multiline fl && is_line_terminator (cu a)
  end.

Definition orelse {A} (x : option A) (y : option A) : option A :=
  match x with Some _ => x | None => y end.

(** The backtracking matcher, in continuation-passing style as in the
    language specification.  An iteration of a quantifier with minimum 0
    that consumes nothing fails, so the iteration count is bounded by the
    length of the remaining input. *)
Fixpoint mt (fl : flags) (r : regex) (s : mstate)
    (k : mstate -> option mstate) {struct r} : option mstate :=
  match r with
  | REmpty => k s
  | RChar c =>
      match ms_rest s with
      | String a rest => if char_matches fl c (cu a) then k (advance a rest s) else None
      | EmptyString => None
      end
  | RAny =>
      match ms_rest s with
      | String a rest => if is_line_terminator (cu a) then None else k (advance a rest s)
      | EmptyString => None
      end
  | RClass neg items =>
      match ms_rest s with
      | String a rest =>
          if xorb neg (existsb (fun it => item_matches fl it (cu a)) items)
          then k (advance a rest s) else None
      | EmptyString => None
      end
  | RSeq r1 r2 => mt fl r1 s (fun s' => mt fl r2 s' k)
  | RAlt r1 r2 => orelse (mt fl r1 s k) (mt fl r2 s k)
  | RGroup i r' => mt fl r' s (fun s' => k (set_cap i s s'))
  | RNegLook r' =>
      match mt fl r' s Some with
      | Some _ => None
      | None => k s
      end
  | RBol => if at_bol fl s then k s else None
  | REol => if at_eol fl s then k s else None
  | RRep q greedy r' =>
      let gs := groups r' in
      let loop :=
        fix loop (fuel : nat) (st : mstate) {struct fuel} : option mstate :=
          match fuel with
          | O => None
          | S fuel' =>
              let more :=
                mt fl r' (clear_caps gs st)
                   (fun st' => if Nat.eqb (ms_pos st') (ms_pos st) then None
                               else loop fuel' st') in
              if greedy then orelse more (k st) else orelse (k st) more
          end in
      match q with
      | QStar => loop (S (String.length (ms_rest s))) s
      | QPlus =>
          mt fl r' (clear_caps gs s)
             (fun st' => loop (S (String.length (ms_rest st'))) st')
      | QOpt =>
          let once :=
            mt fl r' (clear_caps gs s)
               (fun st' => if Nat.eqb (ms_pos st') (ms_pos s) then None else k st') in
          if greedy then orelse once (k s) else orelse (k s) once
      end
  end.

(** A successful match: start index, end index, captures. *)
Record match_result := {
  m_start : nat;
  m_end : nat;
  m_caps : list (nat * string)
}.

Definition match_here (fl : flags) (r : regex) (prev : option ascii)
    (s : string) (pos : nat) : option match_result :=
  match mt fl r {| ms_prev := prev; ms_rest := s; ms_pos := pos; ms_caps := [] |} Some with
  | Some st => Some {| m_start := pos; m_end := ms_pos st; m_caps := ms_caps st |}
  | None => None
  end.

(** Leftmost match at or after the current position. *)
Fixpoint search (fl : flags) (r : regex) (prev : option ascii)
    (s : string) (pos : nat) : option match_result :=
  match match_here fl r prev s pos with
  | Some m => Some m
  | None =>
      match s with
      | EmptyString => None
      | String a s' => search fl r (Some a) s' (S pos)
      end
  end.

Definition capture (i : nat) (m : match_result) : option string :=
  snd <$> List.find (fun p => Nat.eqb (fst p) i) (m_caps m).

(** ** Reading a pattern from its source text *)

Definition hex_digit (a : ascii) : option N :=
  let n := cu a in
  if ((48 <=? n) && (n <=? 57))%N then Some (n - 48)%N
  else if ((97 <=? n) && (n <=? 102))%N then Some (n - 87)%N
  else if ((65 <=? n) && (n <=? 70))%N then Some (n - 55)%N
  else None.

Inductive esc := EItem (it : class_item) | ECode (n : N).

(** The text after a backslash.  Escapes the tables do not use are refused. *)
Definition parse_esc (s : string) : option (esc * string) :=
  match s with
  | String "s" r => Some (EItem CSpace, r)
  | String "S" r => Some (EItem CNotSpace, r)
  | String "w" r => Some (EItem CWord, r)
  | String "d" r => Some (EItem CDigit, r)
  | String "n" r => Some (ECode 10%N, r)
  | String "r" r => Some (ECode 13%N, r)
  | String "t" r => Some (ECode 9%N, r)
  | String "u" (String h1 (String h2 (String h3 (String h4 r)))) =>
      match hex_digit h1, hex_digit h2, hex_digit h3, hex_digit h4 with
      | Some a, Some b, Some c, Some d =>
          Some (ECode (((a * 16 + b) * 16 + c) * 16 + d)%N, r)
      | _, _, _, _ => None
      end
  | String a r => if is_word (cu a) then None else Some (ECode (cu a), r)
  | EmptyString => None
  end.

Definition class_atom (s : string) : option (esc * string) :=
  match s with
  | String "\" r => parse_esc r
  | String a r => Some (ECode (cu a), r)
  | EmptyString => None
  end.

Fixpoint parse_class_items (f : nat) (s : string) : option (list class_item * string) :=
  match f with
  | O => None
  | S f' =>
      match s with
      | String "]" r => Some ([], r)
      | _ =>
          match class_atom s with
          | Some (EItem it, r) =>
              match parse_class_items f' r with
              | Some (its, r') => Some (it :: its, r')
              | None => None
              end
          | Some (ECode lo, String "-" (String "]" r)) =>
              Some ([CRange lo lo; CRange 45%N 45%N], r)
          | Some (ECode lo, String "-" r) =>
              match class_atom r with
              | Some (ECode hi, r') =>
                  match parse_class_items f' r' with
                  | Some (its, r'') => Some (CRange lo hi :: its, r'')
                  | None => None
                  end
              | _ => None
              end
          | Some (ECode c, r) =>
              match parse_class_items f' r with
              | Some (its, r') => Some (CRange c c :: its, r')
              | None => None
              end
          | None => None
          end
      end
  end.

Definition parse_class (s : string) : option (regex * string) :=
  let '(neg, s') :=
    match s with
    | String "^" r => (true, r)
    | _ => (false, s)
    end in
  match parse_class_items (S (String.length s')) s' with
  | Some (its, r) => Some (RClass neg its, r)
  | None => None
  end.

(** A quantifier suffix, if any, applied to the atom just read. *)
Definition parse_quant (atom : regex) (s : string) : regex * string :=
  let '(q, s1) :=
    match s with
    | String "*" r => (Some QStar, r)
    | String "+" r => (Some QPlus, r)
    | String "?" r => (Some QOpt, r)
    | _ => (None, s)
    end in
  match q with
  | None => (atom, s)
  | Some q =>
      match s1 with
      | String "?" r => (RRep q false atom, r)
      | _ => (RRep q true atom, s1)
      end
  end.

Definition quantified (res : option (regex * string * nat)) : option (regex * string * nat) :=
  match res with
  | Some (a, s, g) => let '(r, s') := parse_quant a s in Some (r, s', g)
  | None => None
  end.

(** Disjunction, alternative and term of the pattern grammar; [g] counts the
    capturing groups opened so far. *)
Fixpoint parse_disj (f : nat) (s : string) (g : nat) : option (regex * string * nat) :=
  match f with
  | O => None
  | S f' =>
      match parse_alt f' s g with
      | Some (r1, String "|" s', g') =>
          match parse_disj f' s' g' with
          | Some (r2, s'', g'') => Some (RAlt r1 r2, s'', g'')
          | None => None
          end
      | other => other
      end
  end
with parse_alt (f : nat) (s : string) (g : nat) : option (regex * string * nat) :=
  match f with
  | O => None
  | S f' =>
      match s with
      | EmptyString | String "|" _ | String ")" _ => Some (REmpty, s, g)
      | _ =>
          match parse_term f' s g with
          | Some (t, s', g') =>
              match parse_alt f' s' g' with
              | Some (r, s'', g'') => Some (RSeq t r, s'', g'')
              | None => None
              end
          | None => None
          end
      end
  end
with parse_term (f : nat) (s : string) (g : nat) : option (regex * string * nat) :=
  match f with
  | O => None
  | S f' =>
      match s with
      | EmptyString => None
      | String "^" s' => Some (RBol, s', g)
      | String "$" s' => Some (REol, s', g)
      | String "(" (String "?" (String "!" s')) =>
          match parse_disj f' s' g with
          | Some (r, String ")" s'', g') => Some (RNegLook r, s'', g')
          | _ => None
          end
      | String "(" (String "?" (String ":" s')) =>
          match parse_disj f' s' g with
          | Some (r, String ")" s'', g') => quantified (Some (r, s'', g'))
          | _ => None
          end
      | String "(" (String "?" _) => None
      | String "(" s' =>
          match parse_disj f' s' (S g) with
          | Some (r, String ")" s'', g') => quantified (Some (RGroup (S g) r, s'', g'))
          | _ => None
          end
      | String "[" s' =>
          match parse_class s' with
          | Some (r, s'') => quantified (Some (r, s'', g))
          | None => None
          end
      | String "." s' => quantified (Some (RAny, s', g))
      | String "\" s' =>
          match parse_esc s' with
          | Some (EItem it, s'') => quantified (Some (RClass false [it], s'', g))
          | Some (ECode c, s'') => quantified (Some (RChar c, s'', g))
          | None => None
          end
      | String "*" _ | String "+" _ | String "?" _
      | String "{" _ | String "}" _ | String "]" _ => None
      | String a s' => quantified (Some (RChar (cu a), s', g))
      end
  end.

Definition parse (src : string) : option regex :=
  match parse_disj (4 * String.length src + 8) src 0 with
  | Some (r, EmptyString, _) => Some r
  | _ => None
  end.

(** ** The RegExp object and the String methods that take one *)

(** A regular-expression literal: the text between the slashes and the
    flag letters after them. *)
Record t := { source : string; flagText : string }.

Definition flags_of (re : t) : flags :=
  {| ignoreCase := includes (flagText re) "i";
     multiline := includes (flagText re) "m";
     global := includes (flagText re) "g" |}.

Definition never : regex := RClass false [].

Definition compile (re : t) : regex := default never (parse (source re)).

Definition well_formed (re : t) : bool :=
  match parse (source re) with Some _ => true | None => false end.

(** `re.exec(s)` of a non-global expression (lastIndex 0). *)
Definition exec (re : t) (s : string) : option match_result :=
  search (flags_of re) (compile re) None s 0.

(** `re.test(s)` *)
Definition test (re : t) (s : string) : bool :=
  match exec re s with Some _ => true | None => false end.

(** `m[0]` and `m[i]` of the array `s.match(re)` returns. *)
Definition matched (s : string) (m : match_result) : string :=
  take_str (m_end m - m_start m) (drop_str (m_start m) s).

(** The character before index [n] of [s]. *)
Fixpoint char_before (n : nat) (prev : option ascii) (s : string) : option ascii :=
  match n, s with
  | S n', String a s' => char_before n' (Some a) s'
  | _, _ => prev
  end.

(** `s.replace(re, repl)` for a replacement text without `$` patterns: the
    first match, or with the `g` flag every match from left to right (after
    an empty match the search resumes one code unit further). *)
Fixpoint replace_from (fuel : nat) (fl : flags) (r : regex) (repl : string)
    (prev : option ascii) (s : string) : string :=
  match fuel with
  | O => s
  | S fuel' =>
      match search fl r prev s 0 with
      | None => s
      | Some m =>
          let before := take_str (m_start m) s in
          let after := drop_str (m_end m) s in
          let prev' := char_before (m_end m) prev s in
          if negb (global fl) then before +:+ repl +:+ after
          else if Nat.eqb (m_end m) (m_start m) then
            match after with
            | EmptyString => before +:+ repl
            | String a after' =>
                before +:+ repl +:+ String a (replace_from fuel' fl r repl (Some a) after')
            end
          else before +:+ repl +:+ replace_from fuel' fl r repl prev' after
      end
  end.

Definition replace (re : t) (repl : string) (s : string) : string :=
  replace_from (S (String.length s)) (flags_of re) (compile re) repl None s.

End RegExp.

(** The literal `/source/flags`. *)
Definition rx (source flagText : string) : RegExp.t :=
  {| RegExp.source := source; RegExp.flagText := flagText |}.

(* ===================================================================== *)
(** * Messages and classification results                                 *)
(* ===================================================================== *)

(** The seven labels of CLASSIFICATION_TYPES. *)
Inductive ctype :=
  | job_application | job_response | interview | rejection
  | offer | follow_up | other.

Global Instance ctype_eq_dec : EqDecision ctype.
Proof. solve_decision. Defined.

Definition CLASSIFICATION_TYPES : list ctype :=
  [job_application; job_response; interview; rejection; offer; follow_up; other].

Definition type_name (t : ctype) : string :=
  match t with
  | job_application => "job_application"
  | job_response => "job_response"
  | interview => "interview"
  | rejection => "rejection"
  | offer => "offer"
  | follow_up => "follow_up"
  | other => "other"
  end.

(** The numbers the pipeline writes as literals, as the doubles they are. *)
Definition num_0_95 : Q := 4278419646001971 # 4503599627370496.
Definition num_0_6 : Q := 5404319552844595 # 9007199254740992.
Definition num_0_59 : Q := 5314247560297185 # 9007199254740992.
Definition num_0_5 : Q := 1 # 2.
Definition num_1_0 : Q := 1.

(** The message object the parsers build and the engines read.  The
    extraction engine also accepts a stored record, which names the sender
    and the body [fromEmail] and [bodyText]. *)
Record Email := {
  messageId : option string;
  subject : option string;
  from : option string;
  fromName : option string;
  to : option string;
  date : Z;
  textBody : option string;
  htmlBody : option string;
  isOutbound : bool;
  fromEmail : option string;
  bodyText : option string
}.

(** The object [classifyByRules] returns when a rule matches. *)
Record RuleResult := {
  rr_type : ctype;
  rr_confidence : Q;
  rr_reason : string;
  rr_ruleMatched : bool
}.

(* ===================================================================== *)
(** * scripts/lib/classification-rules.js                                 *)
(* ===================================================================== *)

Record Rule := {
  field : string;
  pattern : RegExp.t;
  condition : option (Email -> bool);
  reason : string
}.

Definition RULES_other : list Rule := [
  {| field := "from"; pattern := rx "jobnotification@" "i"; condition := None;
     reason := "job-alert-sender" |};
  {| field := "from"; pattern := rx "jobs2web\.com" "i"; condition := None;
     reason := "job-alert-sender" |};
  {| field := "from"; pattern := rx "job-alerts@linkedin\.com" "i"; condition := None;
     reason := "linkedin-job-alert" |};
  {| field := "subject"; pattern := rx "^(your )?(job alert|new jobs? posted)" "i"; condition := None;
     reason := "job-alert-subject" |};
  {| field := "subject"; pattern := rx "jobs? (from|at|posted)" "i"; condition := None;
     reason := "job-alert-subject" |};
  {| field := "senderName"; pattern := rx "job alerts?" "i"; condition := None;
     reason := "job-alert-sender-name" |};
  {| field := "subject"; pattern := rx "top jobs from" "i"; condition := None;
     reason := "job-alert-subject" |};
  {| field := "from"; pattern := rx "seek.*grad|gradconnection" "i"; condition := None;
     reason := "job-alert" |};
  {| field := "from"; pattern := rx "@linkedin\.com$" "i";
     condition := Some (fun e => RegExp.test (rx "job alerts?" "i") (or_str (fromName e) ""));
     reason := "linkedin-alert" |};
  {| field := "from"; pattern := rx "@github\.com$" "i"; condition := None;
     reason := "github" |};
  {| field := "from"; pattern := rx "noreply@github\.com" "i"; condition := None;
     reason := "github" |};
  {| field := "subject"; pattern := rx "\[.*\/.*\] (pull request|issue|push|comment)" "i"; condition := None;
     reason := "github-notification" |};
  {| field := "from"; pattern := rx "noreply-dmarc-support@google\.com" "i"; condition := None;
     reason := "dmarc" |};
  {| field := "subject"; pattern := rx "^(security alert|dmarc.*report)" "i"; condition := None;
     reason := "security-alert" |};
  {| field := "subject"; pattern := rx "report domain:.*submitter:" "i"; condition := None;
     reason := "dmarc" |};
  {| field := "from"; pattern := rx "dmarc.*report|dmarc-support" "i"; condition := None;
     reason := "dmarc" |};
  {| field := "from"; pattern := rx "@amazon\.(com|co|com\.au)" "i"; condition := None;
     reason := "ecommerce" |};
  {| field := "from"; pattern := rx "@costco" "i"; condition := None;
     reason := "retail" |};
  {| field := "from"; pattern := rx "@garmin\." "i"; condition := None;
     reason := "service" |};
  {| field := "from"; pattern := rx "@vultr\." "i"; condition := None;
     reason := "hosting" |};
  {| field := "from"; pattern := rx "@kickstarter\." "i"; condition := None;
     reason := "crowdfunding" |};
  {| field := "from"; pattern := rx "@ebay\." "i"; condition := None;
     reason := "ecommerce" |};
  {| field := "from"; pattern := rx "@paypal\." "i"; condition := None;
     reason := "payments" |};
  {| field := "from"; pattern := rx "@netflix\." "i"; condition := None;
     reason := "streaming" |};
  {| field := "from"; pattern := rx "@spotify\." "i"; condition := None;
     reason := "streaming" |};
  {| field := "from"; pattern := rx "mailchimp|mcsv\.net" "i"; condition := None;
     reason := "marketing" |};
  {| field := "from"; pattern := rx "@sendgrid\." "i"; condition := None;
     reason := "marketing" |};
  {| field := "subject"; pattern := rx "^(don't miss|final hours|last chance)" "i"; condition := None;
     reason := "marketing" |};
  {| field := "subject"; pattern := rx "unsubscribe|newsletter" "i"; condition := None;
     reason := "marketing" |};
  {| field := "from"; pattern := rx "huggingface|hugging.*face" "i";
     condition := Some (fun e => negb (RegExp.test (rx "job|career|apply" "i") (ToString (subject e))));
     reason := "tech-newsletter" |};
  {| field := "from"; pattern := rx "@slack\.com$" "i";
     condition := Some (fun e => negb (RegExp.test (rx "onboard|welcome.*team" "i") (ToString (subject e))));
     reason := "slack-general" |};
  {| field := "from"; pattern := rx "@microsoft\.com$" "i";
     condition := Some (fun e => RegExp.test (rx "learning goals|microsoft learn" "i") (ToString (subject e)));
     reason := "newsletter" |};
  {| field := "from"; pattern := rx "ibm.*avature" "i";
     condition := Some (fun e => RegExp.test (rx "tips|webinar|event|join.*day" "i") (ToString (subject e)));
     reason := "ibm-marketing" |};
  {| field := "from"; pattern := rx "workforce.*australia|dewr\.gov" "i"; condition := None;
     reason := "govt-reporting" |};
  {| field := "subject"; pattern := rx "^(fwd:|re:)?\s*(yo|hey|sup|running late|pdf|\.pdf$)" "i"; condition := None;
     reason := "personal" |};
  {| field := "subject"; pattern := rx "^(fwd:|re:)?\s*\w+\s+(video|song|music|watch this)" "i"; condition := None;
     reason := "personal-share" |};
  {| field := "from"; pattern := rx "vet|veterinary|petbarn|pet.*hospital" "i"; condition := None;
     reason := "pet-services" |};
  {| field := "from"; pattern := rx "outlier.*ai|@privateemail\.com" "i";
     condition := Some (fun e => RegExp.test (rx "action required|invitation|matches.*job" "i") (ToString (subject e)));
     reason := "recruitment-spam" |};
  {| field := "subject"; pattern := rx "\u00f0\u0178\u2022\u0160\u00ef\u00b8.*action required.*invitation" "i"; condition := None;
     reason := "recruitment-spam" |};
  {| field := "subject"; pattern := rx "webinar|event.*registration|join.*session" "i";
     condition := Some (fun e => negb (RegExp.test (rx "interview|screen|assessment" "i") (ToString (subject e))));
     reason := "event-invite" |};
  {| field := "subject"; pattern := rx "go beyond human limits|days? to go:" "i"; condition := None;
     reason := "event-promo" |}
].

Definition RULES_job_response : list Rule := [
  {| field := "subject"; pattern := rx "thank(s| ?you|you) for (your )?(apply|application|interest)" "i"; condition := None;
     reason := "thank-you-applying" |};
  {| field := "subject"; pattern := rx "we('ve| have) received your application" "i"; condition := None;
     reason := "received-application" |};
  {| field := "subject"; pattern := rx "application (received|submitted|complete|acknowledged)" "i"; condition := None;
     reason := "application-received" |};
  {| field := "subject"; pattern := rx "your application (for|to|at|with)" "i"; condition := None;
     reason := "your-application" |};
  {| field := "subject"; pattern := rx "thanks for applying" "i"; condition := None;
     reason := "thanks-applying" |};
  {| field := "subject"; pattern := rx "thank you for your interest in" "i"; condition := None;
     reason := "thank-interest" |};
  {| field := "from"; pattern := rx "@.*workday" "i";
     condition := Some (fun e => RegExp.test (rx "thank|received|application" "i") (ToString (subject e)));
     reason := "workday-confirmation" |};
  {| field := "from"; pattern := rx "recruitment@|careers@|talent@|hiring@" "i";
     condition := Some (fun e => RegExp.test (rx "thank|received|confirm" "i") (ToString (subject e)));
     reason := "recruitment-confirmation" |};
  {| field := "from"; pattern := rx "greenhouse|lever|icims|jobvite|smartrecruiters" "i";
     condition := Some (fun e => RegExp.test (rx "thank|received|apply" "i") (ToString (subject e)));
     reason := "ats-confirmation" |};
  {| field := "subject"; pattern := rx "we got it.*in the mix" "i"; condition := None;
     reason := "canva-confirmation" |};
  {| field := "subject"; pattern := rx "application viewed" "i"; condition := None;
     reason := "application-viewed" |};
  {| field := "subject"; pattern := rx "verify your candidate (account|profile)" "i"; condition := None;
     reason := "account-verify" |};
  {| field := "subject"; pattern := rx "good move|you('re| are) in the mix" "i"; condition := None;
     reason := "confirmation-positive" |};
  {| field := "subject"; pattern := rx "your.*journey begins" "i"; condition := None;
     reason := "journey-begins" |};
  {| field := "subject"; pattern := rx "job application acknowledgment" "i"; condition := None;
     reason := "acknowledgment" |};
  {| field := "subject"; pattern := rx "registration confirmation" "i";
     condition := Some (fun e => RegExp.test (rx "recruit|career|talent" "i") (ToString (from e)));
     reason := "recruitment-registration" |};
  {| field := "subject"; pattern := rx "welcome to.*careers" "i"; condition := None;
     reason := "careers-welcome" |};
  {| field := "from"; pattern := rx "springboard\.com\.au" "i";
     condition := Some (fun e => RegExp.test (rx "application|reference" "i") (ToString (subject e)));
     reason := "springboard-confirmation" |};
  {| field := "subject"; pattern := rx "received your job application" "i"; condition := None;
     reason := "received-job-app" |}
].

Definition RULES_interview : list Rule := [
  {| field := "subject"; pattern := rx "interview (invite|invitation|confirm|schedule)" "i"; condition := None;
     reason := "interview-invite" |};
  {| field := "subject"; pattern := rx "phone screen" "i"; condition := None;
     reason := "phone-screen" |};
  {| field := "subject"; pattern := rx "you('re| are) invited.*(interview|screen|call|assessment)" "i"; condition := None;
     reason := "invited-interview" |};
  {| field := "subject"; pattern := rx "schedule.*(interview|call|meeting)" "i"; condition := None;
     reason := "schedule-interview" |};
  {| field := "subject"; pattern := rx "invitation:.*interview" "i"; condition := None;
     reason := "calendar-interview" |};
  {| field := "subject"; pattern := rx "(technical|coding) (assessment|challenge|test)" "i"; condition := None;
     reason := "assessment" |};
  {| field := "subject"; pattern := rx "skills.*assessment" "i"; condition := None;
     reason := "skills-assessment" |};
  {| field := "subject"; pattern := rx "role alignment discussion" "i"; condition := None;
     reason := "alignment-call" |};
  {| field := "subject"; pattern := rx "talent introduction session" "i"; condition := None;
     reason := "intro-session" |};
  {| field := "subject"; pattern := rx "in-person.*(assessment|interview|meeting)" "i"; condition := None;
     reason := "in-person-interview" |};
  {| field := "subject"; pattern := rx "online.*(assessment|interview|discussion)" "i"; condition := None;
     reason := "online-interview" |};
  {| field := "subject"; pattern := rx "video (interview|call|screen)" "i"; condition := None;
     reason := "video-interview" |};
  {| field := "subject"; pattern := rx "next.*round|round.*interview" "i"; condition := None;
     reason := "next-round" |};
  {| field := "subject"; pattern := rx "meet.*team|team.*meet" "i";
     condition := Some (fun e => RegExp.test (rx "interview|hire|recruit" "i") (ToString (from e)));
     reason := "team-meet" |};
  {| field := "subject"; pattern := rx "^invitation:" "i";
     condition := Some (fun e => RegExp.test (rx "interview|screen|assessment|call" "i") (ToString (subject e)));
     reason := "calendar-invite" |}
].

Definition RULES_rejection : list Rule := [
  {| field := "subject"; pattern := rx "application outcome" "i";
     condition := Some (fun e => negb (RegExp.test (rx "thank|received" "i") (ToString (subject e))));
     reason := "outcome-likely-rejection" |};
  {| field := "subject"; pattern := rx "outcome of your application" "i"; condition := None;
     reason := "outcome" |};
  {| field := "subject"; pattern := rx "unsuccessful.*application" "i"; condition := None;
     reason := "unsuccessful" |};
  {| field := "subject"; pattern := rx "update.*application" "i";
     condition := Some (fun e => RegExp.test (rx "regret|unfortunately|unable|ineligible|not.*proceed|not.*successful" "i") (or_str (substring0 500 <$> textBody e) ""));
     reason := "rejection-update" |};
  {| field := "subject"; pattern := rx "we('ve| have) reviewed your application" "i"; condition := None;
     reason := "reviewed-likely-rejection" |};
  {| field := "subject"; pattern := rx "not (be )?(moving|proceed|progress)ing forward" "i"; condition := None;
     reason := "not-proceeding" |};
  {| field := "subject"; pattern := rx "regret to inform" "i"; condition := None;
     reason := "regret" |};
  {| field := "subject"; pattern := rx "role update|position.*update" "i";
     condition := Some (fun e => negb (RegExp.test (rx "interview|schedule" "i") (ToString (subject e))));
     reason := "role-update-rejection" |};
  {| field := "subject"; pattern := rx "application.*status|status.*application" "i";
     condition := Some (fun e => RegExp.test (rx "close|filled|not.*selected" "i") (or_str (substring0 500 <$> textBody e) ""));
     reason := "status-rejection" |};
  {| field := "subject"; pattern := rx "thank you for.*interest" "i";
     condition := Some (fun e => RegExp.test (rx "unfortunately|regret|unable|ineligible|not.*time|other candidates" "i") (or_str (substring0 500 <$> textBody e) ""));
     reason := "polite-rejection" |}
].

Definition RULES_follow_up : list Rule := [
  {| field := "subject"; pattern := rx "reminder:.*application" "i"; condition := None;
     reason := "application-reminder" |};
  {| field := "subject"; pattern := rx "next steps" "i";
     condition := Some (fun e => negb (RegExp.test (rx "(thank|received)" "i") (ToString (subject e))));
     reason := "next-steps" |};
  {| field := "subject"; pattern := rx "finish your application" "i"; condition := None;
     reason := "finish-application" |};
  {| field := "subject"; pattern := rx "complete your (application|profile|assessment)" "i"; condition := None;
     reason := "complete-application" |};
  {| field := "subject"; pattern := rx "waiting for your" "i"; condition := None;
     reason := "waiting" |};
  {| field := "from"; pattern := rx "codesignal|hackerrank|codility" "i";
     condition := Some (fun e => RegExp.test (rx "reminder|waiting|complete" "i") (ToString (subject e)));
     reason := "assessment-reminder" |};
  {| field := "subject"; pattern := rx "assessment (completed|submitted)" "i"; condition := None;
     reason := "assessment-completed" |};
  {| field := "subject"; pattern := rx "recruiters.*looking|profile.*view" "i"; condition := None;
     reason := "profile-activity" |};
  {| field := "subject"; pattern := rx "what('s| is) next" "i"; condition := None;
     reason := "whats-next" |};
  {| field := "subject"; pattern := rx "you('ve| have) applied.*what next" "i"; condition := None;
     reason := "applied-next" |};
  {| field := "subject"; pattern := rx "keep receiving.*email" "i"; condition := None;
     reason := "email-preferences" |};
  {| field := "subject"; pattern := rx "update on.*recruitment" "i"; condition := None;
     reason := "recruitment-update" |};
  {| field := "subject"; pattern := rx "take.*step|final.*step" "i";
     condition := Some (fun e => negb (RegExp.test (rx "interview" "i") (ToString (subject e))));
     reason := "take-step" |};
  {| field := "from"; pattern := rx "testgorilla" "i";
     condition := Some (fun e => RegExp.test (rx "submitted|next|result" "i") (ToString (subject e)));
     reason := "testgorilla-followup" |}
].

(** The object CLASSIFICATION_RULES: a key per label that has rules. *)
Definition CLASSIFICATION_RULES (t : ctype) : option (list Rule) :=
  match t with
  | other => Some RULES_other
  | job_response => Some RULES_job_response
  | interview => Some RULES_interview
  | rejection => Some RULES_rejection
  | follow_up => Some RULES_follow_up
  | job_application | offer => None
  end.

(** The local object [fields] of [classifyByRules]. *)
Definition fields (email : Email) (name : string) : option string :=
  if String.eqb name "from" then Some (or_str (toLowerCase <$> from email) "")
  else if String.eqb name "subject" then Some (or_str (toLowerCase <$> subject email) "")
  else if String.eqb name "senderName" then Some (or_str (toLowerCase <$> fromName email) "")
  else if String.eqb name "textBody" then Some (or_str (textBody email) "")
  else None.

Definition checkOrder : list ctype :=
  [other; interview; rejection; job_response; follow_up].

(** The inner loop: the rules of one label, in declared order.  A rule whose
    pattern matches but whose condition fails is passed over (`continue`). *)
Fixpoint check_rules (email : Email) (type : ctype) (rules : list Rule) : option RuleResult :=
  match rules with
  | [] => None
  | rule :: rest =>
      let fieldValue := or_str (fields email (field rule)) "" in
      if RegExp.test (pattern rule) fieldValue then
        match condition rule with
        | Some cond =>
            if negb (cond email) then check_rules email type rest
            else Some {| rr_type := type; rr_confidence := num_0_95;
                         rr_reason := reason rule; rr_ruleMatched := true |}
        | None =>
            Some {| rr_type := type; rr_confidence := num_0_95;
                    rr_reason := reason rule; rr_ruleMatched := true |}
        end
      else check_rules email type rest
  end.

(** The outer loop over the labels of [checkOrder]. *)
Fixpoint check_types (email : Email) (order : list ctype) : option RuleResult :=
  match order with
  | [] => None
  | type :: rest =>
      let rules := default [] (CLASSIFICATION_RULES type) in
      match check_rules email type rules with
      | Some res => Some res
      | None => check_types email rest
      end
  end.

Definition classifyByRules (email : Email) : option RuleResult :=
  check_types email checkOrder.

Definition isHighVarianceCorrection (email : Email) (originalType correctedType : string) : bool :=
  match classifyByRules email with
  | Some _ => false
  | None => true
  end.

(* ===================================================================== *)
(** * scripts/lib/extraction-rules.js                                     *)
(* ===================================================================== *)

(** A JavaScript object whose properties hold a string or [null]; a key
    that is not in the map reads as [undefined]. *)
Abbreviation Obj := (gmap string (option string)).

(** Truthiness of a property read: [undefined], [null] and the empty string
    are falsy. *)
Definition truthy (v : option (option string)) : bool :=
  match v with
  | Some (Some s) => negb (String.eqb s "")
  | _ => false
  end.

Definition AUSTRALIAN_CITIES : list string := [
  "Sydney"; "Melbourne"; "Brisbane"; "Perth"; "Adelaide"; "Canberra";
  "Gold Coast"; "Newcastle"; "Hobart"; "Darwin"; "Wollongong"; "Geelong";
  "Townsville"; "Cairns"; "Toowoomba"; "Ballarat"; "Bendigo"; "Albury";
  "Launceston"; "Mackay"; "Rockhampton"; "Bunbury"; "Bundaberg";
  "Parramatta"; "North Sydney"; "Chatswood"; "Macquarie Park";
  "Olympic Park"; "CBD"; "Inner West"; "Eastern Suburbs";
  "Northern Beaches"; "South Melbourne"; "Richmond"; "Docklands";
  "St Kilda"; "Fitzroy"; "Fortitude Valley"; "South Bank"; "West End"
].

Definition AUSTRALIAN_STATES : list string := [
  "NSW"; "VIC"; "QLD"; "WA"; "SA"; "TAS"; "ACT"; "NT"; "New South Wales";
  "Victoria"; "Queensland"; "Western Australia"; "South Australia";
  "Tasmania"; "Australian Capital Territory"; "Northern Territory"
].

Definition JOB_TYPES : list (string * list string) := [
  ("full-time", ["full-time"; "full time"; "fulltime"; "ft"; "permanent full"]);
  ("part-time", ["part-time"; "part time"; "parttime"; "pt"]);
  ("contract", ["contract"; "contractor"; "fixed term"; "fixed-term"]);
  ("casual", ["casual"]);
  ("temporary", ["temporary"; "temp"]);
  ("internship", ["internship"; "intern"]);
  ("graduate", ["graduate"; "grad program"; "graduate program"; "new grad"]);
  ("apprenticeship", ["apprenticeship"; "apprentice"; "traineeship"; "trainee"])
].

Definition JOB_SOURCES : list (string * list string) := [
  ("SEEK", ["seek.com.au"; "seek.com"; "@seek"]);
  ("LinkedIn", ["linkedin.com"; "@linkedin"]);
  ("Indeed", ["indeed.com"; "@indeed"; "indeedassessments"]);
  ("Greenhouse", ["greenhouse.io"; "@greenhouse"]);
  ("Workday", ["workday.com"; "myworkday.com"; "@myworkday"]);
  ("Lever", ["lever.co"; "@lever"]);
  ("SmartRecruiters", ["smartrecruiters.com"; "@smartrecruiters"]);
  ("iCIMS", ["icims.com"; "@icims"]);
  ("Jobvite", ["jobvite.com"; "@jobvite"]);
  ("Taleo", ["taleo.net"; "@taleo"]);
  ("Jora", ["jora.com"; "@jora"]);
  ("CareerOne", ["careerone.com.au"; "@careerone"]);
  ("GradConnection", ["gradconnection.com"; "@gradconnection"]);
  ("Prosple", ["prosple.com"; "@prosple"]);
  ("APSJobs", ["apsjobs.gov.au"; "@apsjobs"]);
  ("Hatch", ["hatch.team"; "@hatch"])
].

(** One entry of SOURCE_PATTERNS; the empty object has neither list. *)
Record PatternSet := {
  ps_company : option (list RegExp.t);
  ps_jobTitle : option (list RegExp.t)
}.

Definition empty_PatternSet : PatternSet :=
  {| ps_company := None; ps_jobTitle := None |}.

Definition PATTERNS_seek : PatternSet := {|
  ps_company := Some [
    rx "application for .+? was (?:successfully )?submitted to (.+?)(?:\.|$)" "im";
    rx "applied (?:for|to) .+? at (.+?)(?:\.|$)" "im"
  ];
  ps_jobTitle := Some [
    rx "application for (.+?) was (?:successfully )?submitted" "im";
    rx "applied (?:for|to) (.+?) at" "im"
  ]
|}.

Definition PATTERNS_linkedin : PatternSet := {|
  ps_company := Some [
    rx "application (?:was )?sent to (.+?)(?:\.|$)" "im";
    rx "applied to (.+?) on LinkedIn" "im";
    rx "(.+?) is reviewing your application" "im";
    rx "(.+?) viewed your application" "im";
    rx "application to (.+?)(?:\.|$)" "im"
  ];
  ps_jobTitle := Some [
    rx "application for (.+?) (?:was )?sent" "im";
    rx "applied for (.+?) at" "im";
    rx "(.+?) role at" "im";
    rx "position:?\s*(.+?)(?:\n|$)" "im"
  ]
|}.

Definition PATTERNS_indeed : PatternSet := {|
  ps_company := Some [
    rx "application to (.+?)(?:\.|$)" "im";
    rx "applied to (.+?) for" "im";
    rx "(.+?) has received your application" "im"
  ];
  ps_jobTitle := Some [
    rx "applied to .+? for (.+?)(?:\.|$)" "im";
    rx "application for (.+?) at" "im"
  ]
|}.

Definition PATTERNS_greenhouse : PatternSet := {|
  ps_company := Some [
    rx "thank(?:s| you) for applying to (.+?)(?:\.|!|$)" "im";
    rx "application (?:for|to|at) (?:.+? at )?(.+?)(?:\.|$)" "im";
    rx "(.+?) - Application" "im"
  ];
  ps_jobTitle := Some [
    rx "applying (?:for|to) (?:the )?(.+?) (?:position|role|opportunity)" "im";
    rx "application for (?:the )?(.+?) (?:at|position|role)" "im";
    rx "position:?\s*(.+?)(?:\n|$)" "im"
  ]
|}.

Definition PATTERNS_workday : PatternSet := {|
  ps_company := Some [
    rx "thank(?:s| you) for (?:your )?interest in (.+?)(?:\.|!|$)" "im";
    rx "on your (.+?) Application" "im";
    rx "(.+?) - Application" "im";
    rx "(.+?) Careers" "im"
  ];
  ps_jobTitle := Some [
    rx "for applying for the role of (.+?)\.\s*We" "im";
    rx "for applying for the (?:role|position) of (.+?)(?:\.|!|$)" "im";
    rx "position of\s*(?:&nbsp;)?(.+?)(?:\s*(?:&nbsp;)?(?:with|at)\s|\.|\s*\u2013|$)" "im";
    rx "role of\s*(.+?)(?:\.\s*We|\s*with\s|\.|\s*\u2013|$)" "im";
    rx "(?:role|job|position):?\s*(.+?)(?:\n|$)" "im"
  ]
|}.

Definition PATTERNS_lever : PatternSet := {|
  ps_company := Some [
    rx "thank(?:s| you) for applying to (.+?)(?:\.|!|$)" "im";
    rx "application (?:to|at) (.+?)(?:\.|$)" "im"
  ];
  ps_jobTitle := Some [
    rx "applying for (?:the )?(.+?) (?:position|role)" "im";
    rx "application for (?:the )?(.+?)(?:\.|$)" "im"
  ]
|}.

Definition GENERIC_company : list RegExp.t := [
    rx "thank(?:s| you)(?: for)? (?:applying|your (?:interest|application)) (?:to|at|with) (.+?)(?:\.|!|$)" "im";
    rx "(.+?) has received your application" "im";
    rx "your application (?:to|at|with) (.+?)(?:\.|$)" "im";
    rx "application for .+? at (.+?)(?:\.|$)" "im";
    rx "^(.+?) - (?:Application|Thank you|Your application)" "im";
    rx "(?:position|role|job|opportunity) at (.+?)(?:\.|,|$)" "im"
  ].

Definition GENERIC_jobTitle : list RegExp.t := [
    rx "for applying for the role of (.+?)\.\s*We['']ll" "im";
    rx "for applying for (?:the )?(?:role|position) (?:of )?(.+?)(?:\.|!|$)" "im";
    rx "thank(?:s| you) for applying for (?:the )?(?!role|position)(.+?)(?:\.|!| at)" "im";
    rx "application for (?:the )?(?:position of )?(.+?)(?:\.|!| at| has| was)" "im";
    rx "position of\s*(?:&nbsp;)?(.+?)(?:\.\s*We['']ll|\s*with\s)" "im";
    rx "position of\s*(?:&nbsp;)?(.+?)(?:\.|\s*(?:&nbsp;)?(?:with|at)\s)" "im";
    rx "the (.+?) (?:role|position|opportunity)" "im";
    rx "(?:applying for|applied for|application for) (?:the )?(.+?) at" "im";
    rx "(?:role|position|job|title):?\s*(.+?)(?:\n|$)" "im"
  ].

Definition GENERIC_applicationUrl : list RegExp.t := [
    rx "(https?:\/\/[^\s<>\u0022]+(?:\/jobs?\/|\/careers?\/|\/apply|\/application|\/position)[^\s<>\u0022]*)" "i";
    rx "(https?:\/\/[^\s<>\u0022]+)" "i"
  ].

Definition SOURCE_PATTERNS (key : string) : option PatternSet :=
  if String.eqb key "seek" then Some PATTERNS_seek
  else if String.eqb key "linkedin" then Some PATTERNS_linkedin
  else if String.eqb key "indeed" then Some PATTERNS_indeed
  else if String.eqb key "greenhouse" then Some PATTERNS_greenhouse
  else if String.eqb key "workday" then Some PATTERNS_workday
  else if String.eqb key "lever" then Some PATTERNS_lever
  else None.

Definition GENERIC_location : list RegExp.t := [
    rx "location:?\s*(.+?)(?:\n|$)" "im";
    rx "based in (.+?)(?:\.|,|$)" "im";
    rx ("(" +:+ join "|" AUSTRALIAN_CITIES +:+ ")(?:,?\s*(?:"
        +:+ join "|" AUSTRALIAN_STATES +:+ "))?") "i";
    rx ("(?:position|role|job|office|located) in ("
        +:+ join "|" AUSTRALIAN_CITIES +:+ ")") "i"
  ].

(** The two nested loops of [detectSource] and [detectJobType]: the first
    entry of the table one of whose patterns passes the test. *)
Fixpoint any_pattern (test : string -> bool) (patterns : list string) : bool :=
  match patterns with
  | [] => false
  | pattern :: rest => if test pattern then true else any_pattern test rest
  end.

Fixpoint first_entry (test : string -> bool) (table : list (string * list string)) : option string :=
  match table with
  | [] => None
  | (name, patterns) :: rest =>
      if any_pattern test patterns then Some name else first_entry test rest
  end.

Definition detectSource (email : Email) : option string :=
  let from := toLowerCase (or_str (or_opt (from email) (fromEmail email)) "") in
  let subject := toLowerCase (or_str (subject email) "") in
  let body := toLowerCase (or_str (or_opt (textBody email) (bodyText email)) "") in
  match first_entry (fun pattern => includes from pattern || includes subject pattern)
                    JOB_SOURCES with
  | Some source => Some source
  | None => first_entry (fun pattern => includes body pattern) JOB_SOURCES
  end.

Definition detectJobType (text : option string) : option string :=
  let lowerText := toLowerCase (or_str text "") in
  first_entry (fun pattern => includes lowerText pattern) JOB_TYPES.

Definition cleanExtractedValue (value : option string) : option string :=
  if negb (truthy_str value) then None
  else
    let v := default "" value in
    let v := trim v in
    let v := RegExp.replace (rx "&nbsp;" "g") " " v in
    let v := RegExp.replace (rx "&amp;" "g") "&" v in
    let v := RegExp.replace (rx "&lt;" "g") "<" v in
    let v := RegExp.replace (rx "&gt;" "g") ">" v in
    let v := RegExp.replace (rx "&#\d+;" "g") "" v in
    let v := RegExp.replace (rx "[.,!?;:]+$" "") "" v in
    let v := RegExp.replace (rx "^[\u0022']|[\u0022']$" "g") "" v in
    let v := RegExp.replace (rx "\s+" "g") " " v in
    let v := RegExp.replace (rx "\s*(?:Pty Ltd|Ltd|Inc|LLC|Corp|Corporation)\.?$" "i") "" v in
    let v := RegExp.replace (rx "\s*(?:Hiring|Careers|Recruiting|Talent|Jobs)$" "i") "" v in
    Some (trim v).

(** `m && m[1]` for `m = text.match(pattern)`: the first capture when the
    pattern matches and the capture is not empty. *)
Definition match1 (pattern : RegExp.t) (text : string) : option string :=
  match RegExp.exec pattern text with
  | Some m =>
      let c := RegExp.capture 1 m in
      if truthy_str c then c else None
  | None => None
  end.

(** The loop `for (pattern of patterns) { if (match && match[1]) { ... =
    cleanExtractedValue(match[1]); break; } }`; [None] when no pattern
    captures anything. *)
Fixpoint first_cleaned (patterns : list RegExp.t) (text : string) : option (option string) :=
  match patterns with
  | [] => None
  | pattern :: rest =>
      match match1 pattern text with
      | Some v => Some (cleanExtractedValue (Some v))
      | None => first_cleaned rest text
      end
  end.

Definition extractLocation (text : option string) : option string :=
  let combinedText := or_str text "" in
  match first_cleaned GENERIC_location combinedText with
  | Some v => v
  | None => None
  end.

Fixpoint first_url (patterns : list RegExp.t) (text : string) : option string :=
  match patterns with
  | [] => None
  | pattern :: rest =>
      match match1 pattern text with
      | Some url =>
          if negb (includes url "unsubscribe") && negb (includes url "tracking")
             && negb (includes url ".png") && negb (includes url ".jpg")
             && negb (includes url ".gif") && negb (includes url "privacy")
             && negb (includes url "mailto:")
          then Some url
          else first_url rest text
      | None => first_url rest text
      end
  end.

Definition extractApplicationUrl (text : option string) : option string :=
  first_url GENERIC_applicationUrl (or_str text "").

Definition senderPatterns : list RegExp.t := [
    rx "^(.+?) (?:Careers|Recruiting|Talent|HR|Jobs|Hiring|Team)$" "i";
    rx "^(.+?) (?:via|from) " "i"
  ].

Definition extractCompanyFromSender (email : Email) : option string :=
  let fromName := or_str (fromName email) "" in
  match first_cleaned senderPatterns fromName with
  | Some v => v
  | None =>
      if negb (String.eqb fromName "")
         && negb (RegExp.test (rx "^[A-Z][a-z]+ [A-Z][a-z]+$" "") fromName)
      then cleanExtractedValue (Some fromName)
      else None
  end.

(** `result.f = v` keeps the key and replaces its value. *)
Definition assign (k : string) (v : option string) (o : Obj) : Obj := <[k := v]> o.

Definition extractByRules (email : Email) : Obj :=
  let subject := or_str (subject email) "" in
  let body := or_str (or_opt (textBody email) (bodyText email)) "" in
  let combinedText := subject +:+ String (ascii_of_N 10) body in
  let result : Obj :=
    {[ "company" := None; "jobTitle" := None; "location" := None;
       "applicationUrl" := None; "source" := None; "jobType" := None ]} in
  let source := detectSource email in
  let result := assign "source" source result in
  let sourceKey := (fun s => RegExp.replace (rx "\s+" "g") "" (toLowerCase s)) <$> source in
  let sourcePatterns := default empty_PatternSet (SOURCE_PATTERNS (ToString sourceKey)) in
  let result :=
    match ps_company sourcePatterns with
    | Some patterns =>
        match first_cleaned patterns combinedText with
        | Some v => assign "company" v result
        | None => result
        end
    | None => result
    end in
  let result :=
    if negb (truthy (result !! "company")) then
      match first_cleaned GENERIC_company combinedText with
      | Some v => assign "company" v result
      | None => result
      end
    else result in
  let result :=
    if negb (truthy (result !! "company"))
    then assign "company" (extractCompanyFromSender email) result
    else result in
  let result :=
    match ps_jobTitle sourcePatterns with
    | Some patterns =>
        match first_cleaned patterns combinedText with
        | Some v => assign "jobTitle" v result
        | None => result
        end
    | None => result
    end in
  let result :=
    if negb (truthy (result !! "jobTitle")) then
      match first_cleaned GENERIC_jobTitle combinedText with
      | Some v => assign "jobTitle" v result
      | None => result
      end
    else result in
  let result := assign "location" (extractLocation (Some combinedText)) result in
  let result := assign "applicationUrl" (extractApplicationUrl (Some body)) result in
  let result := assign "jobType" (detectJobType (Some combinedText)) result in
  result.

(** `for (key of Object.keys(newData)) if (newData[key] && !result[key])
    result[key] = newData[key]`, starting from a copy of [existing].  The
    keys are visited once each; the visiting order does not affect the
    result, as each step touches its own key only. *)
Definition mergeExtractedData (existing newData : Obj) : Obj :=
  map_fold
    (fun key v result =>
       if truthy (Some v) && negb (truthy (result !! key))
       then <[key := v]> result else result)
    existing newData.

Definition isExtractionComplete (data : Obj) : bool :=
  truthy (data !! "company") && truthy (data !! "jobTitle").

Definition needsLLMFallback (data : Obj) : bool :=
  negb (truthy (data !! "company")) || negb (truthy (data !! "jobTitle")).

(* ===================================================================== *)
(** * The staging store (tables EmailAccount and EmailImport)             *)
(* ===================================================================== *)

Record EmailAccount := {
  ea_id : nat;
  ea_userId : string;
  ea_email : string;
  ea_isActive : bool
}.

(** A row of EmailImport, the StagedImport of the design.  [ei_emailDate]
    is the time value of the date; [ei_extractedData] stands for the JSON
    text of the object it holds.  The route never writes the column
    updatedAt when it creates a row (the client library fills it in);
    [ei_updatedAt] is the value the route has written since, [None] while
    it has written none. *)
Record EmailImport := {
  ei_id : nat;
  ei_userId : string;
  ei_emailAccountId : nat;
  ei_messageId : string;
  ei_subject : string;
  ei_fromEmail : string;
  ei_fromName : option string;
  ei_toEmail : string;
  ei_emailDate : Z;
  ei_bodyText : option string;
  ei_bodyHtml : option string;
  ei_classification : string;
  ei_confidence : Q;
  ei_isOutbound : bool;
  ei_extractedData : option Obj;
  ei_status : string;
  ei_jobId : option nat;
  ei_updatedAt : option Z
}.

Record Db := {
  emailAccounts : list EmailAccount;
  emailImports : list EmailImport;
  next_id : nat
}.

Definition has_messageId (messageId : string) (r : EmailImport) : bool :=
  String.eqb (ei_messageId r) messageId.

(** `prisma.emailImport.findUnique({ where: { messageId } })` *)
Definition emailImport_findUnique (db : Db) (messageId : string) : option EmailImport :=
  List.find (has_messageId messageId) (emailImports db).

(** `prisma.emailAccount.upsert({ where: { email }, update: {}, create: {
    userId, email, isActive: true } })` *)
Definition emailAccount_upsert (db : Db) (userId email : string) : Db :=
  if existsb (fun a => String.eqb (ea_email a) email) (emailAccounts db) then db
  else {| emailAccounts := emailAccounts db ++
            [{| ea_id := next_id db; ea_userId := userId; ea_email := email;
                ea_isActive := true |}];
          emailImports := emailImports db;
          next_id := S (next_id db) |}.

(** `prisma.emailAccount.findFirst({ where: { email: { in: monitored },
    isActive: true } })` *)
Definition emailAccount_findFirst (db : Db) (monitored : list string) : option EmailAccount :=
  List.find (fun a => existsb (String.eqb (ea_email a)) monitored && ea_isActive a)
            (emailAccounts db).

(** The data of `prisma.emailImport.create`; [cd_emailDate] is [None] for
    an Invalid Date, which the client refuses. *)
Record CreateData := {
  cd_userId : string;
  cd_emailAccountId : nat;
  cd_messageId : string;
  cd_subject : string;
  cd_fromEmail : string;
  cd_fromName : option string;
  cd_toEmail : string;
  cd_emailDate : option Z;
  cd_bodyText : option string;
  cd_bodyHtml : option string;
  cd_classification : string;
  cd_confidence : Q;
  cd_isOutbound : bool;
  cd_extractedData : option Obj;
  cd_status : string
}.

(** `prisma.emailImport.create({ data })`: the row is appended unless the
    date is invalid or the unique index EmailImport_messageId_key is
    violated; either failure is thrown with a message. *)
Definition emailImport_create (db : Db) (d : CreateData) : Db + string :=
  match cd_emailDate d with
  | None => inr "Invalid value for argument `emailDate`: Provided Date object is invalid."
  | Some date =>
      if existsb (has_messageId (cd_messageId d)) (emailImports db)
      then inr "Unique constraint failed on the fields: (`messageId`)"
      else inl {| emailAccounts := emailAccounts db;
                  emailImports := emailImports db ++
                    [{| ei_id := next_id db;
                        ei_userId := cd_userId d;
                        ei_emailAccountId := cd_emailAccountId d;
                        ei_messageId := cd_messageId d;
                        ei_subject := cd_subject d;
                        ei_fromEmail := cd_fromEmail d;
                        ei_fromName := cd_fromName d;
                        ei_toEmail := cd_toEmail d;
                        ei_emailDate := date;
                        ei_bodyText := cd_bodyText d;
                        ei_bodyHtml := cd_bodyHtml d;
                        ei_classification := cd_classification d;
                        ei_confidence := cd_confidence d;
                        ei_isOutbound := cd_isOutbound d;
                        ei_extractedData := cd_extractedData d;
                        ei_status := cd_status d;
                        ei_jobId := None;
                        ei_updatedAt := None |}];
                  next_id := S (next_id db) |}
  end.

(** The row with another classification and another value of updatedAt. *)
Definition set_classification (c : string) (updatedAt : option Z) (r : EmailImport)
    : EmailImport :=
  {| ei_id := ei_id r; ei_userId := ei_userId r;
     ei_emailAccountId := ei_emailAccountId r; ei_messageId := ei_messageId r;
     ei_subject := ei_subject r; ei_fromEmail := ei_fromEmail r;
     ei_fromName := ei_fromName r; ei_toEmail := ei_toEmail r;
     ei_emailDate := ei_emailDate r; ei_bodyText := ei_bodyText r;
     ei_bodyHtml := ei_bodyHtml r; ei_classification := c;
     ei_confidence := ei_confidence r; ei_isOutbound := ei_isOutbound r;
     ei_extractedData := ei_extractedData r; ei_status := ei_status r;
     ei_jobId := ei_jobId r; ei_updatedAt := updatedAt |}.

(** `prisma.emailImport.update({ where: { id }, data: { classification,
    updatedAt } })` *)
Definition emailImport_update_classification (db : Db) (id : nat) (c : string)
    (updatedAt : Z) : Db :=
  {| emailAccounts := emailAccounts db;
     emailImports :=
       map (fun r => if Nat.eqb (ei_id r) id
                     then set_classification c (Some updatedAt) r else r)
           (emailImports db);
     next_id := next_id db |}.

(* ===================================================================== *)
(** * src/lib/email/classifier.ts                                         *)
(* ===================================================================== *)

(** Why a call to the language model produced no usable answer. *)
Inductive llm_failure :=
  | NetworkError (message : string)
  | HttpStatus (status : nat)
  | ParseFailure (message : string).

Definition failure_message (f : llm_failure) : string :=
  match f with
  | NetworkError m => m
  | HttpStatus st => "Request failed with status " +:+ string_of_N (N.of_nat st)
  | ParseFailure m => m
  end.

(** The interface ParsedEmail of the server-side parser. *)
Record ParsedEmail := {
  pe_messageId : string;
  pe_subject : string;
  pe_from : string;
  pe_fromName : option string;
  pe_to : string;
  pe_date : Z;
  pe_textBody : option string;
  pe_htmlBody : option string;
  pe_isOutbound : bool
}.

Record EmailClassification := {
  ec_type : ctype;
  ec_confidence : Q;
  ec_reasoning : string;
  ec_extractedData : Obj
}.

(** What `generateObject` does: it throws, or it resolves to an object that
    passed the schema. *)
Inductive generate_outcome :=
  | GenerateThrows (f : llm_failure)
  | GenerateObject (object : EmailClassification).

Definition classifyEmail (email : ParsedEmail) (llm : generate_outcome) : EmailClassification :=
  match llm with
  | GenerateObject object =>
      {| ec_type := ec_type object;
         ec_confidence := ec_confidence object;
         ec_reasoning := ec_reasoning object;
         ec_extractedData := ec_extractedData object |}
  | GenerateThrows f =>
      {| ec_type := other;
         ec_confidence := 0;
         ec_reasoning := "Classification failed: " +:+ failure_message f;
         ec_extractedData :=
           {[ "company" := None; "jobTitle" := None; "location" := None;
              "applicationUrl" := None; "recruiterName" := None;
              "interviewDate" := None; "deadline" := None;
              "salaryRange" := None ]} |}
  end.

Definition isJobRelated (classification : EmailClassification) : bool :=
  negb (bool_decide (ec_type classification = other)).

Definition meetsConfidenceThreshold (classification : EmailClassification)
    (threshold : Q) : bool :=
  Qle_bool threshold (ec_confidence classification).

(** The default value of the parameter [threshold]. *)
Definition default_threshold : Q := num_0_6.

(* ===================================================================== *)
(** * src/app/api/email-sync/route.ts                                     *)
(* ===================================================================== *)

(** `(process.env.MONITORED_EMAILS || "...").split(",")` *)
Definition MONITORED_EMAILS (env_value : option string) : list string :=
  split_on "," (or_str env_value "j@abaj.ai,aayushbajaj7@gmail.com").

Record SyncResult := {
  processed : nat;
  skipped : nat;
  errors : list string
}.

Record PreClassifiedImport := {
  pi_messageId : string;
  pi_subject : string;
  pi_fromEmail : string;
  pi_fromName : option string;
  pi_toEmail : string;
  (** the time value of `new Date(imp.emailDate)`; [None]: Invalid Date *)
  pi_emailDate : option Z;
  pi_bodyText : option string;
  pi_bodyHtml : option string;
  pi_classification : string;
  pi_confidence : Q;
  pi_isOutbound : bool;
  pi_extractedData : option Obj
}.

Definition add_unique (e : string) (seen : list string) : list string :=
  if existsb (String.eqb e) seen then seen else seen ++ [e].

(** The Set `uniqueEmails`, in insertion order. *)
Definition uniqueEmails (imports : list PreClassifiedImport) : list string :=
  fold_left (fun seen imp => add_unique (pi_toEmail imp) (add_unique (pi_fromEmail imp) seen))
            imports [].

Definition ensure_accounts (userId : string) (monitored : list string)
    (emails : list string) (db : Db) : Db :=
  fold_left
    (fun db email =>
       if existsb (String.eqb email) monitored
       then emailAccount_upsert db userId email else db)
    emails db.

Definition substring_or_null (n : N) (o : option string) : option string :=
  or_opt (substring0 n <$> o) None.

(** One turn of the loop `for (const imp of imports)` with its try/catch. *)
Definition import_one (userId : string) (monitored : list string)
    (st : Db * SyncResult) (imp : PreClassifiedImport) : Db * SyncResult :=
  let '(db, result) := st in
  match emailImport_findUnique db (pi_messageId imp) with
  | Some existing =>
      (db, {| processed := processed result; skipped := S (skipped result);
              errors := errors result |})
  | None =>
      let accountEmail := if pi_isOutbound imp then pi_fromEmail imp else pi_toEmail imp in
      match emailAccount_findFirst db monitored with
      | None =>
          (db, {| processed := processed result; skipped := skipped result;
                  errors := errors result ++ ["No email account for " +:+ accountEmail] |})
      | Some emailAccount =>
          match emailImport_create db
                  {| cd_userId := userId;
                     cd_emailAccountId := ea_id emailAccount;
                     cd_messageId := pi_messageId imp;
                     cd_subject := pi_subject imp;
                     cd_fromEmail := pi_fromEmail imp;
                     cd_fromName := or_opt (pi_fromName imp) None;
                     cd_toEmail := pi_toEmail imp;
                     cd_emailDate := pi_emailDate imp;
                     cd_bodyText := substring_or_null 10000 (pi_bodyText imp);
                     cd_bodyHtml := substring_or_null 50000 (pi_bodyHtml imp);
                     cd_classification := pi_classification imp;
                     cd_confidence := pi_confidence imp;
                     cd_isOutbound := pi_isOutbound imp;
                     cd_extractedData := pi_extractedData imp;
                     cd_status := "pending" |} with
          | inl db' =>
              (db', {| processed := S (processed result); skipped := skipped result;
                       errors := errors result |})
          | inr errorMessage =>
              (db, {| processed := processed result; skipped := skipped result;
                      errors := errors result ++
                        ["Error importing " +:+ pi_messageId imp +:+ ": " +:+ errorMessage] |})
          end
      end
  end.

Definition handlePreClassifiedImports (userId : string) (monitored : list string)
    (imports : list PreClassifiedImport) (db : Db) : Db * SyncResult :=
  let result := {| processed := 0; skipped := 0; errors := [] |} in
  let db := ensure_accounts userId monitored (uniqueEmails imports) db in
  fold_left (import_one userId monitored) imports (db, result).

(** One file of the local mode: what the parser and the model did with it,
    and what became of the command that tags it. *)
Record LocalItem := {
  li_filePath : string;
  li_parsed : ParsedEmail + string;   (* [inr m]: parseEmailFile threw [m] *)
  li_llm : generate_outcome;
  li_tagged : bool                    (* `execAsync` of the tag command resolves *)
}.

(** The state the local mode works on: the store and the tag commands that
    the shell has run to their end. *)
Record ServerState := {
  db : Db;
  tagged_processed : list string
}.

(** The command of [markEmailProcessed] in src/lib/email/notmuch.ts: the
    id is put into the command line as it is, without quotes. *)
Definition notmuch_tag_command (messageId : string) : string :=
  "notmuch tag -new +jobsync-processed -- id:" +:+ messageId.

(** [markEmailProcessed]: the command is handed to the shell; when the shell
    or notmuch fails ([ran = false]) the error is written to the console and
    nothing else happens. *)
Definition markEmailProcessed (ran : bool) (messageId : string) (tagged : list string)
    : list string :=
  if ran then tagged ++ [notmuch_tag_command messageId] else tagged.

(** One turn of the loop `for (const filePath of emailPaths)`. *)
Definition local_one (userId : string) (monitored : list string)
    (st : ServerState * SyncResult) (item : LocalItem) : ServerState * SyncResult :=
  let '(s, result) := st in
  let skip r := {| processed := processed r; skipped := S (skipped r); errors := errors r |} in
  match li_parsed item with
  | inr errorMessage =>
      (s, {| processed := processed result; skipped := skipped result;
             errors := errors result ++
               ["Error processing " +:+ li_filePath item +:+ ": " +:+ errorMessage] |})
  | inl parsed =>
      match emailImport_findUnique (db s) (pe_messageId parsed) with
      | Some existing => (s, skip result)
      | None =>
          let classification := classifyEmail parsed (li_llm item) in
          if negb (isJobRelated classification)
             || negb (meetsConfidenceThreshold classification default_threshold)
          then
            ({| db := db s;
                tagged_processed :=
                  markEmailProcessed (li_tagged item) (pe_messageId parsed)
                    (tagged_processed s) |},
             skip result)
          else
            match emailAccount_findFirst (db s) monitored with
            | None => (s, skip result)
            | Some emailAccount =>
                match emailImport_create (db s)
                        {| cd_userId := userId;
                           cd_emailAccountId := ea_id emailAccount;
                           cd_messageId := pe_messageId parsed;
                           cd_subject := pe_subject parsed;
                           cd_fromEmail := pe_from parsed;
                           cd_fromName := pe_fromName parsed;
                           cd_toEmail := pe_to parsed;
                           cd_emailDate := Some (pe_date parsed);
                           cd_bodyText := substring_or_null 10000 (pe_textBody parsed);
                           cd_bodyHtml := substring_or_null 50000 (pe_htmlBody parsed);
                           cd_classification := type_name (ec_type classification);
                           cd_confidence := ec_confidence classification;
                           cd_isOutbound := pe_isOutbound parsed;
                           cd_extractedData := Some (ec_extractedData classification);
                           cd_status := "pending" |} with
                | inl db' =>
                    ({| db := db';
                        tagged_processed :=
                          markEmailProcessed (li_tagged item) (pe_messageId parsed)
                            (tagged_processed s) |},
                     {| processed := S (processed result); skipped := skipped result;
                        errors := errors result |})
                | inr errorMessage =>
                    (s, {| processed := processed result; skipped := skipped result;
                           errors := errors result ++
                             ["Error processing " +:+ li_filePath item +:+ ": " +:+ errorMessage] |})
                end
            end
      end
  end.

Inductive Mode := PreClassified | LocalMode.

(** The bodies the route answers with.  In [CorrectionsBody] the list is
    the variable `errors` of PATCH; the property `errors` of the body is
    left out when the list is empty. *)
Inductive ResponseBody :=
  | ErrorBody (error : string)
  | SyncBody (message : string) (mode : Mode) (result : SyncResult)
  | CorrectionsBody (updated notFound : nat) (errs : list string)
  | CountsBody (pending total : nat)
  | NoBody.

Record Response := {
  rs_status : nat;
  rs_body : ResponseBody
}.

Definition rs_ok (r : Response) : bool :=
  (200 <=? rs_status r)%nat && (rs_status r <=? 299)%nat.

Definition handleLocalMode (userId : string) (monitored : list string)
    (notmuchAvailable : bool) (emailPaths : list LocalItem)
    (s : ServerState) : ServerState * Response :=
  if negb notmuchAvailable then
    (s, {| rs_status := 500;
           rs_body := ErrorBody "notmuch is not installed or not accessible" |})
  else
    let s := {| db := fold_left (fun db email => emailAccount_upsert db userId email)
                                monitored (db s);
                tagged_processed := tagged_processed s |} in
    match emailPaths with
    | [] =>
        (s, {| rs_status := 200;
               rs_body := SyncBody "No new job-related emails" LocalMode
                            {| processed := 0; skipped := 0; errors := [] |} |})
    | _ =>
        let '(s', result) :=
          fold_left (local_one userId monitored) emailPaths
                    (s, {| processed := 0; skipped := 0; errors := [] |}) in
        (s', {| rs_status := 200;
                rs_body := SyncBody "Email sync completed" LocalMode result |})
    end.

(** An element of `corrections`; [co_messageId] is [None] when the
    property is missing. *)
Record Correction := {
  co_messageId : option string;
  co_originalType : string;
  co_correctedType : string
}.

(** The message of the TypeError that `correction.messageId.replace` throws
    when `correction.messageId` is undefined. *)
Definition TypeError_replace_of_undefined : string :=
  "Cannot read properties of undefined (reading 'replace')".

(** `prisma.emailImport.findFirst({ where: { OR: [...] } })` *)
Definition emailImport_findFirst_any (db : Db) (ids : list string) : option EmailImport :=
  List.find (fun r => existsb (String.eqb (ei_messageId r)) ids) (emailImports db).

(** One turn of the loop of PATCH with its try/catch: the store and the
    variables `updated`, `notFound` and `errors`.  [now] is the reading
    `new Date()` takes in this turn. *)
Definition correct_one (now : Z) (st : Db * (nat * nat * list string))
    (correction : Correction) : Db * (nat * nat * list string) :=
  let '(db, (updated, notFound, errors)) := st in
  match co_messageId correction with
  | None =>
      (db, (updated, notFound,
            (errors ++ ["Error updating undefined: " +:+ TypeError_replace_of_undefined])%list))
  | Some messageId =>
      let cleanMessageId := RegExp.replace (rx "^<|>$" "g") "" messageId in
      match emailImport_findFirst_any db
              [cleanMessageId; "<" +:+ cleanMessageId +:+ ">"; messageId] with
      | None => (db, (updated, S notFound, errors))
      | Some emailImport =>
          (emailImport_update_classification db (ei_id emailImport)
             (co_correctedType correction) now,
           (S updated, notFound, errors))
      end
  end.

(** The turns of the loop, numbered from 0, [clock k] being the reading of
    turn [k]. *)
Definition correct_all (clock : nat -> Z) (corrections : list Correction)
    (st : Db * (nat * nat * list string)) : Db * (nat * nat * list string) :=
  fold_left (fun st kc => correct_one (clock (fst kc)) st (snd kc))
            (combine (seq 0 (length corrections)) corrections) st.

(** What a request carries, already decoded: no text, an object with the
    array `imports` (an object with neither `imports` nor `corrections`
    reads as one with no imports), an object with the array `corrections`,
    or a text that is not JSON, [message] being the message of the error
    the parser throws on it. *)
Inductive RequestBody :=
  | EmptyBody
  | ImportsBody (imports : list PreClassifiedImport)
  | CorrectionsRequest (corrections : list Correction)
  | MalformedBody (message : string).

(** The message of the SyntaxError that parsing the empty text throws. *)
Definition json_end_of_input : string := "Unexpected end of JSON input".

Inductive Method := GET | POST | PATCH | PUT | DELETE | HEAD | OPTIONS.

Record Request := {
  rq_method : Method;
  rq_apiKey : option string;        (* header x-api-key *)
  rq_messageId : option string;     (* query parameter messageId *)
  rq_body : RequestBody
}.

(** The process the route runs in: its environment, the first user of the
    store, what the mail store and the model would answer in local mode,
    and the readings `new Date()` takes in the turns of the loop of PATCH. *)
Record ServerEnv := {
  EMAIL_SYNC_API_KEY : option string;
  env_MONITORED_EMAILS : option string;
  firstUser : option string;
  notmuchAvailable : bool;
  newEmails : list LocalItem;
  patchClock : nat -> Z
}.

Definition unauthorized (env : ServerEnv) (req : Request) : option Response :=
  if negb (truthy_str (EMAIL_SYNC_API_KEY env)) then
    Some {| rs_status := 500; rs_body := ErrorBody "EMAIL_SYNC_API_KEY not configured" |}
  else if negb (bool_decide (rq_apiKey req = EMAIL_SYNC_API_KEY env)) then
    Some {| rs_status := 401; rs_body := ErrorBody "Unauthorized" |}
  else None.

Definition route_POST (env : ServerEnv) (req : Request) (s : ServerState) : ServerState * Response :=
  match unauthorized env req with
  | Some r => (s, r)
  | None =>
      match firstUser env with
      | None => (s, {| rs_status := 500; rs_body := ErrorBody "No user found in database" |})
      | Some userId =>
          let monitored := MONITORED_EMAILS (env_MONITORED_EMAILS env) in
          match rq_body req with
          | ImportsBody (imp :: rest) =>
              let '(db', result) :=
                handlePreClassifiedImports userId monitored (imp :: rest) (db s) in
              ({| db := db'; tagged_processed := tagged_processed s |},
               {| rs_status := 200;
                  rs_body := SyncBody "Pre-classified import completed" PreClassified result |})
          | _ => handleLocalMode userId monitored (notmuchAvailable env) (newEmails env) s
          end
      end
  end.

Definition route_PATCH (env : ServerEnv) (req : Request) (s : ServerState) : ServerState * Response :=
  match unauthorized env req with
  | Some r => (s, r)
  | None =>
      match rq_body req with
      | CorrectionsRequest corrections =>
          let '(db', (updated, notFound, errors)) :=
            correct_all (patchClock env) corrections (db s, (0, 0, [])) in
          ({| db := db'; tagged_processed := tagged_processed s |},
           {| rs_status := 200; rs_body := CorrectionsBody updated notFound errors |})
      | EmptyBody =>
          (s, {| rs_status := 500; rs_body := ErrorBody json_end_of_input |})
      | MalformedBody message =>
          (s, {| rs_status := 500; rs_body := ErrorBody message |})
      | ImportsBody _ =>
          (s, {| rs_status := 400;
                 rs_body := ErrorBody "Invalid request body - expected { corrections: [...] }" |})
      end
  end.

Definition route_GET (s : ServerState) : ServerState * Response :=
  (s, {| rs_status := 200;
         rs_body := CountsBody
           (length (List.filter (fun r => String.eqb (ei_status r) "pending") (emailImports (db s))))
           (length (emailImports (db s))) |}).

(** The handlers the module exports. *)
Definition route_exports (m : Method) : option (ServerEnv -> Request -> ServerState -> ServerState * Response) :=
  match m with
  | POST => Some route_POST
  | PATCH => Some route_PATCH
  | GET => Some (fun _ _ => route_GET)
  | PUT | DELETE | HEAD | OPTIONS => None
  end.

(** The framework runs the export named after the request method.  When
    there is none it runs no code of the route for PUT and DELETE and
    answers 405 Method Not Allowed; it serves HEAD through the export GET,
    leaving out the body, and answers OPTIONS itself with 204. *)
Definition endpoint (env : ServerEnv) (req : Request) (s : ServerState) : ServerState * Response :=
  match route_exports (rq_method req) with
  | Some handler => handler env req s
  | None =>
      match rq_method req with
      | HEAD =>
          let '(s', r) := route_GET s in
          (s', {| rs_status := rs_status r; rs_body := NoBody |})
      | OPTIONS => (s, {| rs_status := 204; rs_body := NoBody |})
      | _ => (s, {| rs_status := 405; rs_body := NoBody |})
      end
  end.

(* ===================================================================== *)
(** * What the mail parser and the transport hand to the scripts          *)
(* ===================================================================== *)

(** The fields of mailparser's ParsedMail the scripts read. *)
Record EmailAddress := {
  address : option string;
  name : option string
}.

Record AddressObject := {
  ao_value : list EmailAddress;
  ao_text : option string
}.

Inductive ToHeader :=
  | ToAbsent
  | ToOne (a : AddressObject)
  | ToMany (l : list AddressObject).

Record ParsedMail := {
  pm_messageId : option string;
  pm_subject : option string;
  pm_from : option AddressObject;
  pm_to : ToHeader;
  pm_date : option Z;
  pm_text : option string;
  pm_html : option string
}.

(** The readings a parse takes from the clock and the random source:
    `Date.now()`, the decimal text of `Math.random()`, and `new Date()`. *)
Record Clock := {
  dateNow : N;
  mathRandom : string;
  newDate : Z
}.

(** `a?.value?.[0]?.address` *)
Definition first_address (a : option AddressObject) : option string :=
  match a with
  | Some o => match ao_value o with e :: _ => address e | [] => None end
  | None => None
  end.

Definition first_name (a : option AddressObject) : option string :=
  match a with
  | Some o => match ao_value o with e :: _ => name e | [] => None end
  | None => None
  end.

Definition is_monitored (monitored : list string) (fromAddress : string) : bool :=
  existsb (fun email => String.eqb (toLowerCase fromAddress) (toLowerCase email)) monitored.

Definition to_address (t : ToHeader) : string :=
  match t with
  | ToAbsent => ""
  | ToMany l => or_str (first_address (head l)) ""
  | ToOne a => or_str (or_opt (first_address (Some a)) (ao_text a)) ""
  end.

Definition generated_messageId (clock : Clock) : string :=
  "generated-" +:+ string_of_N (dateNow clock) +:+ "-" +:+ mathRandom clock.

(** A request on the wire: it reaches the route, or the transport fails. *)
Definition http (reachable : bool) (env : ServerEnv) (req : Request)
    (s : ServerState) : ServerState * option Response :=
  if reachable then
    let '(s', r) := endpoint env req s in (s', Some r)
  else (s, None).

(** No body the route builds has a property `deleted`. *)
Definition body_deleted (b : ResponseBody) : option nat :=
  match b with
  | ErrorBody _ | SyncBody _ _ _ | CorrectionsBody _ _ _ | CountsBody _ _ | NoBody => None
  end.

(* ===================================================================== *)
(** * scripts/jobsync-local-sync.js                                       *)
(* ===================================================================== *)

(** [file] is [None] when reading or parsing the file throws. *)
Definition parseEmailFile (monitored : list string) (file : option ParsedMail)
    (clock : Clock) : option Email :=
  match file with
  | None => None
  | Some parsed =>
      let fromAddress :=
        or_str (or_opt (first_address (pm_from parsed)) (pm_from parsed ≫= ao_text)) "" in
      let toAddress := to_address (pm_to parsed) in
      let isOutbound := is_monitored monitored fromAddress in
      Some {| messageId := Some (or_str (pm_messageId parsed) (generated_messageId clock));
              subject := Some (or_str (pm_subject parsed) "(No subject)");
              from := Some fromAddress;
              fromName := first_name (pm_from parsed);
              to := Some toAddress;
              date := default (newDate clock) (pm_date parsed);
              textBody := pm_text parsed;
              htmlBody := or_opt (pm_html parsed) None;
              isOutbound := isOutbound;
              fromEmail := None;
              bodyText := None |}
  end.

(** The value `JSON.parse(data.response)` yields, as far as the script
    reads it: property reads on a number, string, boolean or array give
    [undefined]; on [null] they throw. *)
Inductive llm_json :=
  | JsonNull
  | JsonOther
  | JsonObject (type : option string) (confidence : option Q) (extractedData : option Obj).

Inductive ollama_body :=
  | BodyNotJson          (* `response.json()` rejects, or `data` is null *)
  | ResponseNotJson      (* `JSON.parse(data.response)` throws *)
  | ResponseJson (v : llm_json).

Inductive fetch_outcome :=
  | FetchRejects (message : string)
  | FetchResponse (status : nat) (body : ollama_body).

Definition status_ok (status : nat) : bool :=
  (200 <=? status)%nat && (status <=? 299)%nat.

Record OllamaClassification := {
  oc_type : string;
  oc_confidence : Q;
  oc_extractedData : Obj
}.

(** `c || 0.5` on a number-or-undefined: zero is falsy. *)
Definition or_num (c : option Q) (d : Q) : Q :=
  match c with
  | Some q => if Qeq_bool q 0 then d else q
  | None => d
  end.

Definition classifyWithOllama (email : Email) (llm : fetch_outcome) : option OllamaClassification :=
  match llm with
  | FetchRejects _ => None
  | FetchResponse status body =>
      if negb (status_ok status) then None
      else
        match body with
        | BodyNotJson | ResponseNotJson => None
        | ResponseJson JsonNull => None
        | ResponseJson JsonOther =>
            Some {| oc_type := "other"; oc_confidence := num_0_5; oc_extractedData := ∅ |}
        | ResponseJson (JsonObject type confidence extractedData) =>
            Some {| oc_type := or_str type "other";
                    oc_confidence := or_num confidence num_0_5;
                    oc_extractedData := default ∅ extractedData |}
        end
  end.

Definition isJobRelated_local (classification : OllamaClassification) : bool :=
  negb (String.eqb (oc_type classification) "other").

Definition str (o : option string) : string := default "" o.

Record LocalSyncItem := {
  ls_file : option ParsedMail;
  ls_clock : Clock;
  ls_llm : fetch_outcome;
  ls_tag_ran : bool                   (* `execAsync` of the tag command resolves *)
}.

(** The command of the script's [markEmailProcessed]: the id, as the parser
    gave it, between single quotes, a single quote of the id written
    `'\''`. *)
Definition local_tag_command (messageId : string) : string :=
  let escapedId := RegExp.replace (rx "'" "g") "'\''" messageId in
  "notmuch tag -new +jobsync-processed -- 'id:" +:+ escapedId +:+ "'".

(** The script's [markEmailProcessed]: a command that fails is logged and
    changes nothing else. *)
Definition markEmailProcessed_local (ran : bool) (messageId : string)
    (tagged : list string) : list string :=
  if ran then tagged ++ [local_tag_command messageId] else tagged.

(** The variables of [main], with the tag commands that have run to their
    end. *)
Record LocalSyncState := {
  toSend : list PreClassifiedImport;
  ls_processed : nat;
  ls_skipped : nat;
  ls_jobRelated : nat;
  ls_tagged : list string
}.

(** One turn of the loop of [main]. *)
Definition main_one (monitored : list string) (st : LocalSyncState)
    (item : LocalSyncItem) : LocalSyncState :=
  let skip tagged :=
    {| toSend := toSend st; ls_processed := ls_processed st;
       ls_skipped := S (ls_skipped st); ls_jobRelated := ls_jobRelated st;
       ls_tagged := tagged |} in
  match parseEmailFile monitored (ls_file item) (ls_clock item) with
  | None => skip (ls_tagged st)
  | Some parsed =>
      match classifyWithOllama parsed (ls_llm item) with
      | None => skip (ls_tagged st)
      | Some classification =>
          if negb (isJobRelated_local classification)
             || negb (Qle_bool num_0_6 (oc_confidence classification))
          then skip (markEmailProcessed_local (ls_tag_ran item) (str (messageId parsed))
                       (ls_tagged st))
          else
            {| toSend := toSend st ++
                 [{| pi_messageId := str (messageId parsed);
                     pi_subject := str (subject parsed);
                     pi_fromEmail := str (from parsed);
                     pi_fromName := fromName parsed;
                     pi_toEmail := str (to parsed);
                     pi_emailDate := Some (date parsed);
                     pi_bodyText := Some (substring0 10000 (or_str (textBody parsed) ""));
                     pi_bodyHtml := Some (substring0 50000 (or_str (htmlBody parsed) ""));
                     pi_classification := oc_type classification;
                     pi_confidence := oc_confidence classification;
                     pi_isOutbound := isOutbound parsed;
                     pi_extractedData := Some (oc_extractedData classification) |}];
               ls_processed := S (ls_processed st);
               ls_skipped := ls_skipped st;
               ls_jobRelated := S (ls_jobRelated st);
               ls_tagged :=
                 markEmailProcessed_local (ls_tag_ran item) (str (messageId parsed))
                   (ls_tagged st) |}
      end
  end.

Definition sendToServer (reachable : bool) (env : ServerEnv) (apiKey : string)
    (imports : list PreClassifiedImport) (s : ServerState) : ServerState * bool :=
  let '(s', r) :=
    http reachable env
      {| rq_method := POST; rq_apiKey := Some apiKey; rq_messageId := None;
         rq_body := ImportsBody imports |} s in
  (s', match r with Some r => rs_ok r | None => false end).

(** [main] after the start-up checks: classify every file, then post the
    job-related ones in one request. *)
Definition local_sync_main (monitored : list string) (reachable : bool)
    (env : ServerEnv) (apiKey : string) (emailPaths : list LocalSyncItem)
    (s : ServerState) : LocalSyncState * ServerState :=
  let st :=
    fold_left (main_one monitored) emailPaths
      {| toSend := []; ls_processed := 0; ls_skipped := 0; ls_jobRelated := 0;
         ls_tagged := [] |} in
  match toSend st with
  | [] => (st, s)
  | _ => (st, fst (sendToServer reachable env apiKey (toSend st) s))
  end.

(* ===================================================================== *)
(** * scripts/jobsync-scan-corrections.js (the revision with promotions    *)
(** and demotions)                                                        *)
(* ===================================================================== *)

Definition MAX_HIGH_VARIANCE_CORRECTIONS : nat := 50.

(** What [parseEmailForCorrection] returns: the message and its preview. *)
Definition parseEmailForCorrection (monitored : list string) (file : option ParsedMail)
    (clock : Clock) : option (Email * string) :=
  match file with
  | None => None
  | Some parsed =>
      let fromAddress :=
        or_str (or_opt (first_address (pm_from parsed)) (pm_from parsed ≫= ao_text)) "" in
      let toAddress := to_address (pm_to parsed) in
      let isOutbound := is_monitored monitored fromAddress in
      Some ({| messageId := Some (or_str (pm_messageId parsed) (generated_messageId clock));
               subject := Some (or_str (pm_subject parsed) "(No subject)");
               from := Some fromAddress;
               fromName := first_name (pm_from parsed);
               to := Some toAddress;
               date := default (newDate clock) (pm_date parsed);
               textBody := Some (or_str (pm_text parsed) "");
               htmlBody := or_opt (pm_html parsed) None;
               isOutbound := isOutbound;
               fromEmail := None;
               bodyText := None |},
            substring0 1000 (or_str (pm_text parsed) ""))
  end.

(** A record of the few-shot pool (corrections.json). *)
Record FewShot := {
  fs_messageId : string;
  fs_originalType : string;
  fs_correctedType : string;
  fs_subject : string;
  fs_from : string;
  fs_fromName : option string;
  fs_to : string;
  fs_isOutbound : bool;
  fs_bodyPreview : string;
  fs_correctedAt : Z;
  fs_highVariance : bool
}.

Inductive DetectionSource := Explicit | WasTag.

(** An entry of the list [findCorrectedEmails] returns. *)
Record CorrectedEmail := {
  ce_messageId : string;
  ce_originalType : option string;
  ce_source : DetectionSource
}.

(** `stdout.trim().split("\n").filter(Boolean)` *)
Definition output_lines (stdout : string) : list string :=
  List.filter (fun line => negb (String.eqb line "")) (split_on "010" (trim stdout)).

Definition explicit_entry (msgId : string) : CorrectedEmail :=
  {| ce_messageId := RegExp.replace (rx "^id:" "") "" msgId;
     ce_originalType := None;
     ce_source := Explicit |}.

Definition was_tag_entry (type msgId : string) : CorrectedEmail :=
  {| ce_messageId := RegExp.replace (rx "^id:" "") "" msgId;
     ce_originalType := Some type;
     ce_source := WasTag |}.

(** [findCorrectedEmails]: [explicit] is what `notmuch search
    --output=messages 'tag:jobsync-corrected'` prints and [was type] what
    the search for `tag:jobsync-was/<type>` prints, [None] when the command
    throws.  Every line printed is pushed; nothing looks at the entries
    pushed before. *)
Definition findCorrectedEmails (explicit : option string) (was : string -> option string)
    : list CorrectedEmail :=
  let corrections :=
    match explicit with
    | Some stdout => map explicit_entry (output_lines stdout)
    | None => []
    end in
  fold_left
    (fun corrections type =>
       match was type with
       | Some stdout =>
           (corrections ++ map (was_tag_entry type) (output_lines stdout))%list
       | None => corrections
       end)
    (map type_name CLASSIFICATION_TYPES) corrections.

(** One entry of [findCorrectedEmails] with what the mail store answers
    about it during the turn of the loop that handles it. *)
Record ScanItem := {
  sc_messageId : string;
  sc_originalType : option string;
  sc_source : DetectionSource;
  sc_jobsyncTags : list string;        (* getJobsyncTags; [] when it fails *)
  sc_tags : option (list string);      (* all tags; [None] when the query throws *)
  sc_filePath : option string;         (* first file; [None] when the query throws *)
  sc_file : option ParsedMail;
  sc_clock : Clock
}.

(** The entry a turn of the loop destructures. *)
Definition entry_of (item : ScanItem) : CorrectedEmail :=
  {| ce_messageId := sc_messageId item;
     ce_originalType := sc_originalType item;
     ce_source := sc_source item |}.

Record ScanState := {
  pool : list FewShot;                       (* existingData.corrections *)
  newCorrections : nat;
  correctionsList : list FewShot;            (* PATCH *)
  newImportsList : list PreClassifiedImport; (* POST *)
  deleteList : list (string * string);       (* DELETE: messageId, subject *)
  cleaned : list (string * string)           (* was-tags removed: messageId, type *)
}.

Definition is_classification_type (t : string) : bool :=
  existsb (fun c => String.eqb t (type_name c)) CLASSIFICATION_TYPES.

(** `t.replace("jobsync-was/", "")` on a tag that starts with the prefix. *)
Definition strip_was (t : string) : string := drop_str 12 t.

Definition is_explicit (d : DetectionSource) : bool :=
  match d with Explicit => true | WasTag => false end.

(** `let origType = originalType; if (!origType && source === "explicit")
    { ... }`: the type the was-tag names, looked up when the entry has none. *)
Definition original_type (item : ScanItem) : option string :=
  if negb (truthy_str (sc_originalType item)) && is_explicit (sc_source item) then
    match sc_tags item with
    | Some tags =>
        match List.find (fun t => startsWith t "jobsync-was/") tags with
        | Some wasTag => Some (strip_was wasTag)
        | None => sc_originalType item
        end
    | None => sc_originalType item
    end
  else sc_originalType item.

Definition few_shot_of (item : ScanItem) (origType correctedType : string)
    (emailData : Email) (bodyPreview : string) (highVariance : bool) : FewShot :=
  {| fs_messageId := sc_messageId item;
     fs_originalType := origType;
     fs_correctedType := correctedType;
     fs_subject := str (subject emailData);
     fs_from := str (from emailData);
     fs_fromName := fromName emailData;
     fs_to := str (to emailData);
     fs_isOutbound := isOutbound emailData;
     fs_bodyPreview := bodyPreview;
     fs_correctedAt := newDate (sc_clock item);
     fs_highVariance := highVariance |}.

Definition promoted_import (correctedType : string) (emailData : Email) : PreClassifiedImport :=
  {| pi_messageId := str (messageId emailData);
     pi_subject := str (subject emailData);
     pi_fromEmail := str (from emailData);
     pi_fromName := fromName emailData;
     pi_toEmail := str (to emailData);
     pi_emailDate := Some (date emailData);
     pi_bodyText := Some (substring0 10000 (or_str (textBody emailData) ""));
     pi_bodyHtml := Some (substring0 50000 (or_str (htmlBody emailData) ""));
     pi_classification := correctedType;
     pi_confidence := num_1_0;
     pi_isOutbound := isOutbound emailData;
     pi_extractedData := Some ∅ |}.

(** The guards at the head of the loop body: the original type, the
    corrected type, the parsed message and its preview when no `continue` is
    taken before the rule check. *)
Definition detect (monitored : list string) (item : ScanItem)
    : option (string * string * Email * string) :=
  match sc_jobsyncTags item with
  | [] => None
  | currentTags =>
      match List.find is_classification_type currentTags with
      | None => None
      | Some correctedType =>
          let origType := original_type item in
          if negb (truthy_str origType) || String.eqb (str origType) correctedType then None
          else
            match sc_filePath item with
            | None => None
            | Some filePath =>
                if String.eqb filePath "" then None
                else
                  match parseEmailForCorrection monitored (sc_file item) (sc_clock item) with
                  | None => None
                  | Some (emailData, bodyPreview) =>
                      Some (str origType, correctedType, emailData, bodyPreview)
                  end
            end
      end
  end.

(** One turn of the loop `for (const { messageId, originalType, source } of
    correctedEmails)`; a `continue` leaves the state as it is. *)
Definition scan_one (monitored : list string) (st : ScanState) (item : ScanItem) : ScanState :=
  match detect monitored item with
  | None => st
  | Some (origType, correctedType, emailData, bodyPreview) =>
      let highVariance := isHighVarianceCorrection emailData origType correctedType in
      let correction :=
        few_shot_of item origType correctedType emailData bodyPreview highVariance in
      let from_other := String.eqb origType "other" in
      let to_other := String.eqb correctedType "other" in
      {| pool := if highVariance then pool st ++ [correction] else pool st;
         newCorrections := S (newCorrections st);
         correctionsList :=
           if negb from_other && negb to_other
           then correctionsList st ++ [correction] else correctionsList st;
         newImportsList :=
           if from_other && negb to_other
           then newImportsList st ++ [promoted_import correctedType emailData]
           else newImportsList st;
         deleteList :=
           if to_other && negb from_other
           then deleteList st ++ [(sc_messageId item, str (subject emailData))]
           else deleteList st;
         cleaned := cleaned st ++ [(sc_messageId item, origType)] |}
  end.

(** `xs.slice(-n)` *)
Definition slice_last {A} (n : nat) (xs : list A) : list A :=
  skipn (length xs - n) xs.

Definition truncate_pool (p : list FewShot) : list FewShot :=
  if (MAX_HIGH_VARIANCE_CORRECTIONS <? length p)%nat
  then slice_last MAX_HIGH_VARIANCE_CORRECTIONS p else p.

Definition sendNewImportsToServer (reachable : bool) (env : ServerEnv) (apiKey : string)
    (imports : list PreClassifiedImport) (s : ServerState) : ServerState :=
  if String.eqb apiKey "" then s
  else match imports with
       | [] => s
       | _ =>
           fst (http reachable env
                  {| rq_method := POST; rq_apiKey := Some apiKey; rq_messageId := None;
                     rq_body := ImportsBody imports |} s)
       end.

Definition sendCorrectionsToServer (reachable : bool) (env : ServerEnv) (apiKey : string)
    (corrections : list FewShot) (s : ServerState) : ServerState :=
  if String.eqb apiKey "" then s
  else match corrections with
       | [] => s
       | _ =>
           fst (http reachable env
                  {| rq_method := PATCH; rq_apiKey := Some apiKey; rq_messageId := None;
                     rq_body := CorrectionsRequest
                       (map (fun c => {| co_messageId := Some (fs_messageId c);
                                         co_originalType := fs_originalType c;
                                         co_correctedType := fs_correctedType c |})
                            corrections) |} s)
       end.

(** One turn of the loop of [deleteFromServer]: the state of the server and
    the counters `deleted` and `notFound`. *)
Definition delete_one (reachable : bool) (env : ServerEnv) (apiKey : string)
    (st : ServerState * (nat * nat)) (item : string * string) : ServerState * (nat * nat) :=
  let '(s, (deleted, notFound)) := st in
  let cleanId := RegExp.replace (rx "^<|>$" "g") "" (fst item) in
  let '(s', r) :=
    http reachable env
      {| rq_method := DELETE; rq_apiKey := Some apiKey; rq_messageId := Some cleanId;
         rq_body := EmptyBody |} s in
  match r with
  | None => (s', (deleted, S notFound))
  | Some response =>
      if negb (rs_ok response) then (s', (deleted, S notFound))
      else
        match body_deleted (rs_body response) with
        | Some n => if (0 <? n)%nat then (s', (S deleted, notFound))
                    else (s', (deleted, S notFound))
        | None => (s', (deleted, S notFound))
        end
  end.

Definition deleteFromServer (reachable : bool) (env : ServerEnv) (apiKey : string)
    (items : list (string * string)) (s : ServerState) : ServerState * (nat * nat) :=
  if String.eqb apiKey "" then (s, (0, 0))
  else fold_left (delete_one reachable env apiKey) items (s, (0, 0)).

(** [main]: scan, truncate the pool, then the three kinds of request. *)
Definition scan_main (monitored : list string) (reachable : bool) (env : ServerEnv)
    (apiKey : string) (existing : list FewShot) (correctedEmails : list ScanItem)
    (s : ServerState) : ScanState * list FewShot * ServerState :=
  let st :=
    fold_left (scan_one monitored) correctedEmails
      {| pool := existing; newCorrections := 0; correctionsList := [];
         newImportsList := []; deleteList := []; cleaned := [] |} in
  let saved := truncate_pool (pool st) in
  let s := sendNewImportsToServer reachable env apiKey (newImportsList st) s in
  let s := sendCorrectionsToServer reachable env apiKey (correctionsList st) s in
  let s := fst (deleteFromServer reachable env apiKey (deleteList st) s) in
  (st, saved, s).

(** The choice of classifier in [processOneEmail] of the concurrent
    revision of the local sync: the rule engine first, the model only when
    no rule matches.  The result is the label, the confidence and which of
    the two produced them. *)
Inductive ClassificationSource := Rules | Ollama.

Definition classify_one (email : Email) (llm : fetch_outcome)
    : option (string * Q * ClassificationSource) :=
  match classifyByRules email with
  | Some c => Some (type_name (rr_type c), rr_confidence c, Rules)
  | None =>
      match classifyWithOllama email llm with
      | Some c => Some (oc_type c, oc_confidence c, Ollama)
      | None => None
      end
  end.

(* ===================================================================== *)
(** * src/lib/email/parser.ts                                             *)
(* ===================================================================== *)

Module Parser.

(** [extractEmailAddress]: the header is missing, one address object or an
    array of them.  An address object of mailparser always has the array
    [value], so the branch that reads [text] is never taken. *)
Definition extractEmailAddress (addressObject : ToHeader) : string :=
  match addressObject with
  | ToAbsent => ""
  | ToMany l => or_str (first_address (head l)) ""
  | ToOne a => or_str (first_address (Some a)) ""
  end.

Definition extractName (addressObject : option AddressObject) : option string :=
  or_opt (first_name addressObject) None.

(** `xs.pop()` on the array a split returns. *)
Definition pop (xs : list string) : option string := last xs.

Definition generateMessageId (filePath : string) : string :=
  let filename := or_str (pop (split_on "/" filePath)) "" in
  "local-" +:+ filename +:+ "@jobsync".

Definition header_of (a : option AddressObject) : ToHeader :=
  match a with Some o => ToOne o | None => ToAbsent end.

(** [file] is [inr m] when reading or parsing the file throws [m]; [now] is
    the reading `new Date()` takes. *)
Definition parseEmailFile (monitored : list string) (filePath : string)
    (file : ParsedMail + string) (now : Z) : ParsedEmail + string :=
  match file with
  | inr m => inr m
  | inl parsed =>
      let fromAddress := extractEmailAddress (header_of (pm_from parsed)) in
      let toAddress := extractEmailAddress (pm_to parsed) in
      let fromName := extractName (pm_from parsed) in
      let isOutbound :=
        existsb (fun email => String.eqb (toLowerCase email) (toLowerCase fromAddress))
                monitored in
      inl {| pe_messageId := or_str (pm_messageId parsed) (generateMessageId filePath);
             pe_subject := or_str (pm_subject parsed) "(No Subject)";
             pe_from := fromAddress;
             pe_fromName := fromName;
             pe_to := toAddress;
             pe_date := default now (pm_date parsed);
             pe_textBody := or_opt (pm_text parsed) None;
             pe_htmlBody := or_opt (pm_html parsed) None;
             pe_isOutbound := isOutbound |}
  end.

Definition dquote : string := String (ascii_of_N 34) EmptyString.

Definition htmlToText (html : string) : string :=
  let t := RegExp.replace (rx "<style[^>]*>[\s\S]*?<\/style>" "gi") "" html in
  let t := RegExp.replace (rx "<script[^>]*>[\s\S]*?<\/script>" "gi") "" t in
  let t := RegExp.replace (rx "<[^>]+>" "g") " " t in
  let t := RegExp.replace (rx "&nbsp;" "g") " " t in
  let t := RegExp.replace (rx "&amp;" "g") "&" t in
  let t := RegExp.replace (rx "&lt;" "g") "<" t in
  let t := RegExp.replace (rx "&gt;" "g") ">" t in
  let t := RegExp.replace (rx "&quot;" "g") dquote t in
  let t := RegExp.replace (rx "&#39;" "g") "'" t in
  let t := RegExp.replace (rx "\s+" "g") " " t in
  trim t.

Definition getEmailTextContent (email : ParsedEmail) : string :=
  if truthy_str (pe_textBody email) then default "" (pe_textBody email)
  else if truthy_str (pe_htmlBody email) then htmlToText (default "" (pe_htmlBody email))
  else "".

(** `xs[1]` *)
Definition second (xs : list string) : option string := xs !! 1%nat.

Definition getEmailDomain (email : string) : string :=
  or_str (second (split_on "@" email)) "".

Definition jobBoardDomains : list string := [
  "greenhouse.io"; "lever.co"; "workday.com"; "myworkday.com"; "icims.com";
  "smartrecruiters.com"; "ashbyhq.com"; "jobvite.com"; "taleo.net"; "breezy.hr";
  "bamboohr.com"; "linkedin.com"; "indeed.com"; "seek.com.au"; "glassdoor.com";
  "angel.co"; "wellfound.com"; "hired.com"; "dice.com"; "monster.com";
  "ziprecruiter.com"
].

Definition isJobBoardDomain (domain : string) : bool :=
  existsb (fun jbd => includes (toLowerCase domain) jbd) jobBoardDomains.

End Parser.

(* ===================================================================== *)
(** * The concurrent revision of the local sync                           *)
(* ===================================================================== *)

(** ** runWithConcurrency

    [fn item currentIndex items.length] settles to a value or rejects with
    an error; what it settles to is the input [fn].  A worker runs from the
    head of its loop to the `await`, and later from the point where the
    awaited promise has settled to the next `await` or to its return; which
    suspended worker runs next is not determined by the program. *)
Section RunWithConcurrency.

Context {A R E : Type}.
Variable items : list A.
Variable fn : option A -> nat -> nat -> R + E.

Inductive worker :=
  | Awaiting (currentIndex : nat)
  | Returned.

Record run_state := {
  rc_index : nat;
  rc_completed : nat;
  rc_results : gmap nat (R + E);   (* the array [results]; a missing key is a hole *)
  rc_workers : list worker
}.

(** `while (index < items.length) { const currentIndex = index++; ... await` *)
Definition worker_enter (st : run_state) : run_state * worker :=
  if (rc_index st <? length items)%nat then
    ({| rc_index := S (rc_index st); rc_completed := rc_completed st;
        rc_results := rc_results st; rc_workers := rc_workers st |},
     Awaiting (rc_index st))
  else (st, Returned).

(** `workers.push(worker())` *)
Definition push_worker (st : run_state) : run_state :=
  let '(st', w) := worker_enter st in
  {| rc_index := rc_index st'; rc_completed := rc_completed st';
     rc_results := rc_results st'; rc_workers := rc_workers st' ++ [w] |}.

(** `Math.min(concurrency, items.length)` as the bound of the loop that
    starts the workers; [concurrency] is an integer or NaN ([None]), the
    values `parseInt` returns. *)
Definition worker_count (concurrency : option Z) : nat :=
  match concurrency with
  | Some c => Z.to_nat (Z.min c (Z.of_nat (length items)))
  | None => O
  end.

Definition run_start (concurrency : option Z) : run_state :=
  Nat.iter (worker_count concurrency) push_worker
    {| rc_index := 0; rc_completed := 0; rc_results := ∅; rc_workers := [] |}.

(** Worker [w] runs on after its `await`. *)
Definition resume (w : nat) (st : run_state) : option run_state :=
  match rc_workers st !! w with
  | Some (Awaiting currentIndex) =>
      let st1 :=
        {| rc_index := rc_index st; rc_completed := S (rc_completed st);
           rc_results :=
             <[currentIndex := fn (items !! currentIndex) currentIndex (length items)]>
               (rc_results st);
           rc_workers := rc_workers st |} in
      let '(st2, w') := worker_enter st1 in
      Some {| rc_index := rc_index st2; rc_completed := rc_completed st2;
              rc_results := rc_results st2;
              rc_workers := <[w := w']> (rc_workers st2) |}
  | _ => None
  end.

Definition run_step (st st' : run_state) : Prop := exists w, resume w st = Some st'.

(** `await Promise.all(workers)` is over. *)
Definition all_returned (st : run_state) : Prop :=
  Forall (fun w => w = Returned) (rc_workers st).

(** A run under a given order of resumptions; a resumption of a worker that
    is not suspended does not occur. *)
Definition run_schedule (schedule : list nat) (st : run_state) : run_state :=
  fold_left (fun st w => default st (resume w st)) schedule st.

End RunWithConcurrency.

(** ** buildFewShotExamples

    The corrections are the records of corrections.json as the correction
    scanner writes them. *)

Definition newline : string := String (ascii_of_N 10) EmptyString.

(** `xs.slice(-n)` for a non-negative [n]; `slice(-0)` is `slice(0)`. *)
Definition slice_from_end {A} (n : nat) (xs : list A) : list A :=
  match n with
  | O => xs
  | S _ => skipn (length xs - n) xs
  end.

Definition fewShotExample (i : nat) (c : FewShot) : string :=
  "Example " +:+ string_of_N (N.of_nat (i + 1)) +:+ " (CORRECTED - was "
    +:+ Parser.dquote +:+ fs_originalType c +:+ Parser.dquote +:+ ", should be "
    +:+ Parser.dquote +:+ fs_correctedType c +:+ Parser.dquote +:+ "):" +:+ newline
  +:+ "Subject: " +:+ fs_subject c +:+ newline
  +:+ "From: " +:+ fs_from c +:+ newline
  +:+ "Direction: " +:+ (if fs_isOutbound c then "SENT" else "RECEIVED") +:+ newline
  +:+ "Body preview: " +:+ substring0 500 (or_str (Some (fs_bodyPreview c)) "") +:+ newline
  +:+ "CORRECT classification: " +:+ fs_correctedType c.

(** `xs.map((c, i) => f(c, i))` *)
Fixpoint map_indexed {A B} (f : nat -> A -> B) (i : nat) (xs : list A) : list B :=
  match xs with
  | [] => []
  | x :: rest => f i x :: map_indexed f (S i) rest
  end.

(** [corrections] is [None] for a missing (falsy) argument. *)
Definition buildFewShotExamples (corrections : option (list FewShot)) (maxExamples : nat)
    : string :=
  match corrections with
  | None | Some [] => ""
  | Some corrections =>
      let recent := slice_from_end maxExamples corrections in
      let examples := join (newline +:+ newline) (map_indexed fewShotExample 0 recent) in
      newline +:+ newline
      +:+ "Here are some examples of previous corrections to learn from:" +:+ newline
      +:+ examples +:+ newline +:+ newline +:+ "Now classify the following email:"
  end.

(** The default value of the parameter [maxExamples]. *)
Definition default_maxExamples : nat := 5.

(** ** processOneEmail and what it calls *)

Module ConcurrentSync.

(** The command [markEmailProcessed] runs: the tag `new` is removed, and the
    tag `jobsync/<type>` is added when the type is one of
    CLASSIFICATION_TYPES. *)
Definition tag_command (messageId : string) (classificationType : option string) : string :=
  let cleanId := RegExp.replace (rx "^<|>$" "g") "" messageId in
  let escapedId := RegExp.replace (rx "'" "g") "'\''" cleanId in
  let tagCmd := "-new" in
  let tagCmd :=
    if truthy_str classificationType
       && is_classification_type (default "" classificationType)
    then tagCmd +:+ " +jobsync/" +:+ default "" classificationType
    else tagCmd in
  "notmuch tag " +:+ tagCmd +:+ " -- 'id:" +:+ escapedId +:+ "'".

(** The state is the list of the commands run so far; a command that fails
    is logged and changes nothing else. *)
Definition markEmailProcessed (messageId : string) (classificationType : option string)
    (commands : list string) : list string :=
  commands ++ [tag_command messageId classificationType].


(** What the request for an extraction comes to: `fetch` or
    `response.json()` throws, the status is not a success, or the status is
    a success and [parseLLMResponse] returns [llmExtracted] ([None]: null). *)
Inductive extract_outcome :=
  | ExtractThrows
  | ExtractNotOk
  | ExtractParsed (llmExtracted : option Obj).

Definition extractMetadata (email : Email) (useLLMFallback : bool)
    (llm : extract_outcome) : Obj :=
  let extracted := extractByRules email in
  if useLLMFallback && needsLLMFallback extracted then
    match llm with
    | ExtractParsed (Some llmExtracted) => mergeExtractedData extracted llmExtracted
    | ExtractParsed None | ExtractNotOk | ExtractThrows => extracted
    end
  else extracted.




End ConcurrentSync.

(* ===================================================================== *)
(** * scripts/jobsync-backfill-metadata.js                                *)
(* ===================================================================== *)

Module Backfill.

(** The body `{ updates: [{ messageId, extractedData }] }`.  The route
    reads two properties of a body, `imports` and `corrections`; this body
    has neither, so the route reads from it what it reads from
    `{ imports: [] }`. *)
Definition UpdatesBody : RequestBody := ImportsBody [].

Definition updateEmailImport (reachable : bool) (env : ServerEnv) (apiKey : string)
    (messageId : option string) (extractedData : Obj) (s : ServerState)
    : ServerState * bool :=
  if String.eqb apiKey "" then (s, false)
  else
    let '(s', r) :=
      http reachable env
        {| rq_method := PATCH; rq_apiKey := Some apiKey; rq_messageId := None;
           rq_body := UpdatesBody |} s in
    (s', match r with Some response => rs_ok response | None => false end).

End Backfill.

(* ===================================================================== *)
(** * The vocabulary of the properties                                    *)
(* ===================================================================== *)

(** A rule fires on a message: its pattern matches the field it names and
    its side condition, if it has one, holds. *)
Definition rule_fires (email : Email) (rule : Rule) : bool :=
  RegExp.test (pattern rule) (or_str (fields email (field rule)) "")
  && match condition rule with
     | Some cond => cond email
     | None => true
     end.

(** Every rule with its label: the labels in the fixed order, the rules of
    a label in declared order. *)
Definition ordered_rules : list (ctype * Rule) :=
  map (pair other) RULES_other ++ map (pair interview) RULES_interview
  ++ map (pair rejection) RULES_rejection ++ map (pair job_response) RULES_job_response
  ++ map (pair follow_up) RULES_follow_up.

Definition first_fired (email : Email) : option (ctype * Rule) :=
  List.find (fun tr => rule_fires email (snd tr)) ordered_rules.

Definition result_of (tr : ctype * Rule) : RuleResult :=
  {| rr_type := fst tr; rr_confidence := num_0_95; rr_reason := reason (snd tr);
     rr_ruleMatched := true |}.

(** The value a field has after a fill-only merge. *)
Definition filled (existing newData : Obj) (key : string) : option (option string) :=
  if truthy (newData !! key) && negb (truthy (existing !! key))
  then newData !! key else existing !! key.

Definition staged (d : Db) (messageId : string) : bool :=
  existsb (has_messageId messageId) (emailImports d).

Definition count_staged (d : Db) (messageId : string) : nat :=
  length (List.filter (fun r => has_messageId messageId r) (emailImports d)).

(** At most one row per messageId. *)
Definition unique_messageIds (d : Db) : Prop :=
  List.NoDup (map ei_messageId (emailImports d)).

(** Every account of the store is active (accounts are only ever created
    active, and nothing deactivates one). *)
Definition all_active (d : Db) : Prop :=
  forall a, In a (emailAccounts d) -> ea_isActive a = true.

(** The gate of the staging protocol. *)
Definition passes_gate (type : string) (confidence : Q) : bool :=
  negb (String.eqb type "other") && Qle_bool num_0_6 confidence.

(** The model gave no usable answer. *)
Definition ollama_failed (llm : fetch_outcome) : bool :=
  match llm with
  | FetchRejects _ => true
  | FetchResponse status body =>
      negb (status_ok status)
      || match body with
         | BodyNotJson | ResponseNotJson | ResponseJson JsonNull => true
         | ResponseJson _ => false
         end
  end.

Definition skip_turn (st : LocalSyncState) : LocalSyncState :=
  {| toSend := toSend st; ls_processed := ls_processed st;
     ls_skipped := S (ls_skipped st); ls_jobRelated := ls_jobRelated st;
     ls_tagged := ls_tagged st |}.

(** Two messages show the rule engine the same things: sender address,
    subject, sender name and the first 500 code units of the text body. *)
Definition same_view (e e' : Email) : Prop :=
  from e = from e' /\ subject e = subject e' /\ fromName e = fromName e'
  /\ (substring0 500 <$> textBody e) = (substring0 500 <$> textBody e').

(** The rule reads the sender address, the subject or the sender name. *)
Definition header_field (rule : Rule) : bool :=
  existsb (String.eqb (field rule)) ["from"; "subject"; "senderName"].

(** The rule reads a header field, and its side condition, if it has one,
    does not tell apart two messages of the same view. *)
Definition rule_local (rule : Rule) : Prop :=
  header_field rule = true
  /\ forall e e' cond, same_view e e' -> condition rule = Some cond -> cond e = cond e'.

(** The pattern that reads the code units of [w] and goes on as [r]. *)
Fixpoint literal (w : string) (r : RegExp.regex) : RegExp.regex :=
  match w with
  | EmptyString => r
  | String a w' => RegExp.RSeq (RegExp.RChar (cu a)) (literal w' r)
  end.

(** The state of the matcher after it has read [w] in front of [rest]. *)
Fixpoint skip_literal (w rest : string) (st : RegExp.mstate) : RegExp.mstate :=
  match w with
  | EmptyString => st
  | String a w' => skip_literal w' rest (RegExp.advance a (w' +:+ rest) st)
  end.

(** The rule of `other` on senders at github.com. *)
Definition github_rule : Rule :=
  {| field := "from"; pattern := rx "@github\.com$" "i"; condition := None;
     reason := "github" |}.

(** The filter of extractApplicationUrl. *)
Definition url_filtered (url : string) : bool :=
  includes url "unsubscribe" || includes url "tracking" || includes url ".png"
  || includes url ".jpg" || includes url ".gif" || includes url "privacy"
  || includes url "mailto:".

(** The three texts detectSource searches, and all the markers it searches
    for. *)
Definition sender_text (email : Email) : string :=
  toLowerCase (or_str (or_opt (from email) (fromEmail email)) "").
Definition subject_text (email : Email) : string :=
  toLowerCase (or_str (subject email) "").
Definition body_text (email : Email) : string :=
  toLowerCase (or_str (or_opt (textBody email) (bodyText email)) "").
Definition source_markers : list string := flat_map snd JOB_SOURCES.

(** The first code unit of a string. *)
Definition first_char (s : string) : option ascii :=
  match s with String a _ => Some a | EmptyString => None end.

(** The last code unit of a string. *)
Fixpoint last_char (s : string) : option ascii :=
  match s with
  | EmptyString => None
  | String a EmptyString => Some a
  | String _ s' => last_char s'
  end.

(** White space, for a code unit that may be missing. *)
Definition space_char (o : option ascii) : bool :=
  match o with Some a => is_space (cu a) | None => false end.

(** The string has white space at one of its ends. *)
Definition outer_space (s : string) : bool :=
  space_char (first_char s) || space_char (last_char s).

(** The keys of the object extractByRules builds. *)
Definition EXTRACTED_KEYS : gset string :=
  {[ "company"; "jobTitle"; "location"; "applicationUrl"; "source"; "jobType" ]}.

(** The fields that hold a cleaned capture. *)
Definition trimmed_key (k : string) : Prop :=
  k = "company" \/ k = "jobTitle" \/ k = "location".

(** A value that is null or has no white space at either end. *)
Definition trimmed_value (v : option string) : Prop :=
  forall w, v = Some w -> outer_space w = false.

(** What holds of the result object after each assignment of
    extractByRules. *)
Definition result_shape (source : option string) (o : Obj) : Prop :=
  dom o = EXTRACTED_KEYS /\ o !! "source" = Some source
  /\ (forall k v, trimmed_key k -> o !! k = Some v -> trimmed_value v).

(** All the markers of JOB_TYPES. *)
Definition type_markers : list string := flat_map snd JOB_TYPES.

(** At most one account per address. *)
Definition unique_accounts (d : Db) : Prop := List.NoDup (map ea_email (emailAccounts d)).

(** The accounts of [d'] are those of [d] followed by new ones, each active,
    owned by [owner] and of an address in [monitored]. *)
Definition accounts_extended (owner : option string) (monitored : list string)
    (d d' : Db) : Prop :=
  exists new,
    emailAccounts d' = (emailAccounts d ++ new)%list
    /\ Forall (fun a => ea_isActive a = true /\ In (ea_email a) monitored
                        /\ owner = Some (ea_userId a)) new
    /\ (unique_accounts d -> unique_accounts d').

(** The code unit [c] occurs in [s]. *)
Fixpoint contains_char (c : ascii) (s : string) : bool :=
  match s with
  | EmptyString => false
  | String a s' => Ascii.eqb a c || contains_char c s'
  end.

(** A key is configured and the request carries it. *)
Definition authorised (env : ServerEnv) (req : Request) : Prop :=
  truthy_str (EMAIL_SYNC_API_KEY env) = true /\ rq_apiKey req = EMAIL_SYNC_API_KEY env.

(** The number of rows that await review. *)
Definition pending_rows (rows : list EmailImport) : nat :=
  length (List.filter (fun r => String.eqb (ei_status r) "pending") rows).

(** After [n] imports the counters add up to [n], and the rows created are
    appended to those of [db0], pending and linked to no job. *)
Definition accounted (db0 : Db) (n : nat) (st : Db * SyncResult) : Prop :=
  processed (snd st) + skipped (snd st) + length (errors (snd st)) = n
  /\ exists new,
       emailImports (fst st) = (emailImports db0 ++ new)%list
       /\ length new = processed (snd st)
       /\ Forall (fun r => ei_status r = "pending" /\ ei_jobId r = None) new.

(** [r'] is [r] with, at most, another classification and another value of
    updatedAt. *)
Definition relabelled_row (r r' : EmailImport) : Prop :=
  r' = set_classification (ei_classification r') (ei_updatedAt r') r.

(** [d'] is [d] with the classification and updatedAt of some rows
    replaced. *)
Definition relabelled_store (d d' : Db) : Prop :=
  emailAccounts d' = emailAccounts d /\ next_id d' = next_id d
  /\ Forall2 relabelled_row (emailImports d) (emailImports d').

(** [r'] is [r], or [r] with the corrected type of one of the corrections
    and, as updatedAt, the reading of the clock in the turn of that
    correction. *)
Definition corrected_by (clock : nat -> Z) (corrections : list Correction)
    (r r' : EmailImport) : Prop :=
  r' = r
  \/ exists k c, corrections !! k = Some c
                 /\ r' = set_classification (co_correctedType c) (Some (clock k)) r.

(** A stored body is null or a non-empty text of at most [n] code units. *)
Definition body_within (n : N) (o : option string) : Prop :=
  forall t, o = Some t -> t <> "" /\ (N.of_nat (String.length t) <= n)%N.

(** The bounds of the two body columns. *)
Definition bodies_bounded (d : Db) : Prop :=
  Forall (fun r => body_within 10000 (ei_bodyText r) /\ body_within 50000 (ei_bodyHtml r))
         (emailImports d).

(** The pattern /^<|>$/g as [compile] reads it. *)
Definition angle_regex : RegExp.regex :=
  RegExp.RAlt (RegExp.RSeq RegExp.RBol (RegExp.RSeq (RegExp.RChar 60) RegExp.REmpty))
    (RegExp.RSeq (RegExp.RChar 62) (RegExp.RSeq RegExp.REol RegExp.REmpty)).

Definition angle_flags : RegExp.flags :=
  {| RegExp.ignoreCase := false; RegExp.multiline := false; RegExp.global := true |}.

(** The string ends in `>`. *)
Definition ends_gt (s : string) : bool :=
  match last_char s with Some c => (cu c =? 62)%N | None => false end.

(** The string without its last code unit. *)
Fixpoint drop_last (s : string) : string :=
  match s with
  | EmptyString => EmptyString
  | String a EmptyString => EmptyString
  | String a s' => String a (drop_last s')
  end.

(** The string without one trailing `>`. *)
Definition strip_gt (s : string) : string := if ends_gt s then drop_last s else s.

(** The id without one leading `<` and one trailing `>`. *)
Definition without_angle_brackets (s : string) : string :=
  match s with
  | String c s' => if (cu c =? 60)%N then strip_gt s' else strip_gt s
  | EmptyString => EmptyString
  end.

(** An id that neither starts with `<` nor ends with `>`. *)
Definition bare_id (id : string) : bool := negb (startsWith id "<") && negb (ends_gt id).

Section RunWithConcurrencyInvariant.

Context {A R E : Type}.
Variable items : list A.
Variable fn : option A -> nat -> nat -> R + E.

(** What the call of [fn] for the item at index [i] settles to. *)
Definition outcome (i : nat) : R + E := fn (items !! i) i (length items).

(** What holds between two resumptions. *)
Record run_inv (k : nat) (st : run_state (R:=R) (E:=E)) : Prop := {
  inv_index : rc_index st <= length items;
  inv_await : forall w i, rc_workers st !! w = Some (Awaiting i) ->
                i < rc_index st /\ rc_results st !! i = None;
  inv_inj : forall w w' i, rc_workers st !! w = Some (Awaiting i) ->
              rc_workers st !! w' = Some (Awaiting i) -> w = w';
  inv_taken : forall i, i < rc_index st ->
                rc_results st !! i = Some (outcome i)
                \/ exists w, rc_workers st !! w = Some (Awaiting i);
  inv_results : forall i v, rc_results st !! i = Some v ->
                  i < rc_index st /\ v = outcome i;
  inv_busy : rc_index st < length items ->
               forall w, rc_workers st !! w <> Some Returned;
  inv_completed : size (dom (rc_results st)) = rc_completed st;
  inv_workers : length (rc_workers st) = k
}.

End RunWithConcurrencyInvariant.

(** What a turn of the scan pushes on the few-shot pool: the record of the
    entry when it passes the guards with a high-variance correction. *)
Definition pool_records (monitored : list string) (item : ScanItem) : list FewShot :=
  match detect monitored item with
  | Some (origType, correctedType, emailData, bodyPreview) =>
      if isHighVarianceCorrection emailData origType correctedType
      then [few_shot_of item origType correctedType emailData bodyPreview true]
      else []
  | None => []
  end.

(** The record with another body preview. *)
Definition with_preview (p : string) (c : FewShot) : FewShot :=
  {| fs_messageId := fs_messageId c; fs_originalType := fs_originalType c;
     fs_correctedType := fs_correctedType c; fs_subject := fs_subject c;
     fs_from := fs_from c; fs_fromName := fs_fromName c; fs_to := fs_to c;
     fs_isOutbound := fs_isOutbound c; fs_bodyPreview := p;
     fs_correctedAt := fs_correctedAt c; fs_highVariance := fs_highVariance c |}.

(** The record with its body preview cut to 500 code units. *)
Definition short_preview (c : FewShot) : FewShot :=
  with_preview (substring0 500 (fs_bodyPreview c)) c.

(* ===================================================================== *)
(** * Messages, stores and scanner entries the properties are tried on    *)
(* ===================================================================== *)

(** An e-mail from GitHub whose subject reads like an interview invitation:
    a rule of `other` and a rule of `interview` both fire on it. *)
Definition github_interview : Email :=
  {| messageId := Some "<1@github.com>";
     subject := Some "Interview invitation for Monday";
     from := Some "noreply@github.com";
     fromName := Some "GitHub";
     to := Some "j@abaj.ai";
     date := 0;
     textBody := Some "See you then.";
     htmlBody := None;
     isOutbound := false;
     fromEmail := None;
     bodyText := None |}.

(** A rejection-shaped subject no rule of `other` fires on. *)
Definition outcome_mail : Email :=
  {| messageId := Some "<2@acme.example>";
     subject := Some "Outcome of your application";
     from := Some "people@acme.example";
     fromName := Some "Acme People";
     to := Some "j@abaj.ai";
     date := 0;
     textBody := Some "Unfortunately we will not proceed.";
     htmlBody := None;
     isOutbound := false;
     fromEmail := None;
     bodyText := None |}.

(** The body of the round-trip example. *)
Definition seek_body : string :=
  "your application for Senior Backend Engineer was successfully submitted to Acme Pty Ltd.".

(** A message that has this body and nothing else. *)
Definition body_only : Email :=
  {| messageId := None; subject := None; from := None; fromName := None;
     to := None; date := 0; textBody := Some seek_body; htmlBody := None;
     isOutbound := false; fromEmail := None; bodyText := None |}.

(** The same body in a message SEEK sent. *)
Definition seek_mail : Email :=
  {| messageId := Some "<3@seek.com.au>"; subject := Some "";
     from := Some "noreply@s.seek.com.au"; fromName := Some "SEEK";
     to := Some "j@abaj.ai"; date := 0; textBody := Some seek_body;
     htmlBody := None; isOutbound := false; fromEmail := None; bodyText := None |}.

(** A store with nothing in it, the process the route runs in, and an
    import of a job-related message to a monitored address. *)
Definition empty_store : ServerState :=
  {| db := {| emailAccounts := []; emailImports := []; next_id := 0 |};
     tagged_processed := [] |}.

Definition test_env : ServerEnv :=
  {| EMAIL_SYNC_API_KEY := Some "secret";
     env_MONITORED_EMAILS := None;
     firstUser := Some "user-1";
     notmuchAvailable := true;
     newEmails := [];
     patchClock := fun k => (1700000200000 + Z.of_nat k)%Z |}.

Definition interview_import : PreClassifiedImport :=
  {| pi_messageId := "<42@acme.example>";
     pi_subject := "Interview invitation";
     pi_fromEmail := "people@acme.example";
     pi_fromName := Some "Acme People";
     pi_toEmail := "j@abaj.ai";
     pi_emailDate := Some 1700000000000%Z;
     pi_bodyText := Some "We would like to invite you.";
     pi_bodyHtml := None;
     pi_classification := "interview";
     pi_confidence := num_0_95;
     pi_isOutbound := false;
     pi_extractedData := Some ∅ |}.

(** A staged rejection, and what the scanner finds once the user has
    retagged the message `other`, leaving the tag jobsync-was/rejection. *)
Definition rejection_row : EmailImport :=
  {| ei_id := 1; ei_userId := "user-1"; ei_emailAccountId := 0;
     ei_messageId := "<7@acme.example>"; ei_subject := "Update from Acme";
     ei_fromEmail := "people@acme.example"; ei_fromName := None;
     ei_toEmail := "j@abaj.ai"; ei_emailDate := 1700000000000%Z;
     ei_bodyText := Some "Lunch on Friday?"; ei_bodyHtml := None;
     ei_classification := "rejection"; ei_confidence := num_0_95;
     ei_isOutbound := false; ei_extractedData := None; ei_status := "pending";
     ei_jobId := None; ei_updatedAt := None |}.

Definition store_with_rejection : ServerState :=
  {| db := {| emailAccounts :=
                [{| ea_id := 0; ea_userId := "user-1"; ea_email := "j@abaj.ai";
                    ea_isActive := true |}];
              emailImports := [rejection_row];
              next_id := 2 |};
     tagged_processed := [] |}.

Definition demoted_item : ScanItem :=
  {| sc_messageId := "7@acme.example";
     sc_originalType := Some "rejection";
     sc_source := WasTag;
     sc_jobsyncTags := ["other"];
     sc_tags := Some ["inbox"; "jobsync/other"; "jobsync-was/rejection"];
     sc_filePath := Some "/home/j/Maildir/cur/7";
     sc_file := Some
       {| pm_messageId := Some "<7@acme.example>";
          pm_subject := Some "Update from Acme";
          pm_from := Some {| ao_value := [{| address := Some "people@acme.example";
                                             name := None |}];
                             ao_text := Some "people@acme.example" |};
          pm_to := ToOne {| ao_value := [{| address := Some "j@abaj.ai"; name := None |}];
                            ao_text := Some "j@abaj.ai" |};
          pm_date := Some 1700000000000%Z;
          pm_text := Some "Lunch on Friday?";
          pm_html := None |};
     sc_clock := {| dateNow := 1700000100000; mathRandom := "0.25";
                    newDate := 1700000100000%Z |} |}.

(** The same message when the user has also tagged it jobsync-corrected:
    the entry of the first search, and what the searches print. *)
Definition marked_corrected : ScanItem :=
  {| sc_messageId := "7@acme.example";
     sc_originalType := None;
     sc_source := Explicit;
     sc_jobsyncTags := ["other"];
     sc_tags := Some ["inbox"; "jobsync-corrected"; "jobsync/other"; "jobsync-was/rejection"];
     sc_filePath := sc_filePath demoted_item;
     sc_file := sc_file demoted_item;
     sc_clock := sc_clock demoted_item |}.

Definition search_answer : string := "id:7@acme.example" +:+ String "010" "".

Definition was_rejection (type : string) : option string :=
  if String.eqb type "rejection" then Some search_answer else Some "".

(** An invitation as the server's parser returns it, and what the model
    answers about it with a given confidence; [ran] tells whether the tag
    command of the file runs to its end. *)
Definition invited : ParsedEmail :=
  {| pe_messageId := "<42@acme.example>";
     pe_subject := "Interview invitation";
     pe_from := "people@acme.example";
     pe_fromName := Some "Acme People";
     pe_to := "j@abaj.ai";
     pe_date := 1700000000000%Z;
     pe_textBody := Some "We would like to invite you.";
     pe_htmlBody := None;
     pe_isOutbound := false |}.

Definition answered (confidence : Q) (ran : bool) : LocalItem :=
  {| li_filePath := "/home/j/Maildir/cur/42";
     li_parsed := inl invited;
     li_llm := GenerateObject
       {| ec_type := interview; ec_confidence := confidence;
          ec_reasoning := "An invitation to interview.";
          ec_extractedData := ∅ |};
     li_tagged := ran |}.

(** A store with one active account and nothing staged. *)
Definition store_with_account : ServerState :=
  {| db := {| emailAccounts :=
                [{| ea_id := 0; ea_userId := "user-1"; ea_email := "j@abaj.ai";
                    ea_isActive := true |}];
              emailImports := [];
              next_id := 1 |};
     tagged_processed := [] |}.

(** The same file when the call to the model fails. *)
Definition unanswered (ran : bool) : LocalItem :=
  {| li_filePath := "/home/j/Maildir/cur/42";
     li_parsed := inl invited;
     li_llm := GenerateThrows (NetworkError "fetch failed");
     li_tagged := ran |}.

(** The invitation as mailparser returns it, two readings of the clock and
    the random source, and a turn of the local sync with the model down. *)
Definition plain_mail : ParsedMail :=
  {| pm_messageId := Some "<42@acme.example>";
     pm_subject := Some "Interview invitation";
     pm_from := Some {| ao_value := [{| address := Some "people@acme.example";
                                        name := Some "Acme People" |}];
                        ao_text := Some "Acme People <people@acme.example>" |};
     pm_to := ToOne {| ao_value := [{| address := Some "j@abaj.ai"; name := None |}];
                       ao_text := Some "j@abaj.ai" |};
     pm_date := Some 1700000000000%Z;
     pm_text := Some "We would like to invite you.";
     pm_html := None |}.

Definition a_clock : Clock :=
  {| dateNow := 1700000100000; mathRandom := "0.8444218515250481";
     newDate := 1700000100000%Z |}.

Definition later_clock : Clock :=
  {| dateNow := 1700000900000; mathRandom := "0.7579544029403025";
     newDate := 1700000900000%Z |}.

Definition model_down : LocalSyncItem :=
  {| ls_file := Some plain_mail; ls_clock := a_clock;
     ls_llm := FetchResponse 503 BodyNotJson; ls_tag_ran := true |}.








(** A file without a Message-ID header. *)
Definition headerless : ParsedMail :=
  {| pm_messageId := None;
     pm_subject := Some "Interview invitation";
     pm_from := Some {| ao_value := [{| address := Some "people@acme.example";
                                        name := Some "Acme People" |}];
                        ao_text := Some "Acme People <people@acme.example>" |};
     pm_to := ToOne {| ao_value := [{| address := Some "j@abaj.ai"; name := None |}];
                       ao_text := Some "j@abaj.ai" |};
     pm_date := Some 1700000000000%Z;
     pm_text := Some "We would like to invite you.";
     pm_html := None |}.

(** The import [main] sends for a parsed message the model called an
    interview. *)
Definition import_of (parsed : Email) : PreClassifiedImport :=
  {| pi_messageId := str (messageId parsed);
     pi_subject := str (subject parsed);
     pi_fromEmail := str (from parsed);
     pi_fromName := fromName parsed;
     pi_toEmail := str (to parsed);
     pi_emailDate := Some (date parsed);
     pi_bodyText := Some (substring0 10000 (or_str (textBody parsed) ""));
     pi_bodyHtml := Some (substring0 50000 (or_str (htmlBody parsed) ""));
     pi_classification := "interview";
     pi_confidence := num_0_95;
     pi_isOutbound := isOutbound parsed;
     pi_extractedData := Some ∅ |}.

(** The GitHub invitation as another copy of the message would show it: a
    different recipient, date and HTML part. *)
Definition github_interview_copy : Email :=
  {| messageId := Some "<1b@github.com>";
     subject := Some "Interview invitation for Monday";
     from := Some "noreply@github.com";
     fromName := Some "GitHub";
     to := Some "aayushbajaj7@gmail.com";
     date := 86400000;
     textBody := Some "See you then.";
     htmlBody := Some "<p>See you then.</p>";
     isOutbound := false;
     fromEmail := None;
     bodyText := None |}.

(** A notification whose sender address is written in capitals. *)
Definition github_capitals : Email :=
  {| messageId := Some "<5@github.com>";
     subject := Some "Your interview is scheduled";
     from := Some "Notifications@GitHub.COM";
     fromName := None;
     to := Some "j@abaj.ai";
     date := 0;
     textBody := Some "We regret to inform you.";
     htmlBody := None;
     isOutbound := false;
     fromEmail := None;
     bodyText := None |}.

(** A message with a link to apply and a link to leave the list. *)
Definition body_with_links : string :=
  "Leave the list: https://acme.example/unsubscribe?u=1 . Apply at https://acme.example/careers/42 today.".

(** The SEEK message with a body that names another board. *)
Definition seek_mail_about_linkedin : Email :=
  {| messageId := Some "<3@seek.com.au>"; subject := Some "";
     from := Some "noreply@s.seek.com.au"; fromName := Some "SEEK";
     to := Some "j@abaj.ai"; date := 0;
     textBody := Some "See also linkedin.com/jobs and indeed.com.";
     htmlBody := None; isOutbound := false; fromEmail := None; bodyText := None |}.

(** Another message without a Message-ID, in a file of the same name in
    another folder. *)
Definition headerless_offer : ParsedMail :=
  {| pm_messageId := None;
     pm_subject := Some "Your offer";
     pm_from := Some {| ao_value := [{| address := Some "talent@globex.example";
                                        name := Some "Globex Talent" |}];
                        ao_text := Some "Globex Talent <talent@globex.example>" |};
     pm_to := ToOne {| ao_value := [{| address := Some "j@abaj.ai"; name := None |}];
                       ao_text := Some "j@abaj.ai" |};
     pm_date := Some 1700000500000%Z;
     pm_text := Some "We are pleased to offer you the position.";
     pm_html := None |}.

(** A message that has an HTML part only. *)
Definition html_only : ParsedEmail :=
  {| pe_messageId := "<8@acme.example>";
     pe_subject := "Interview invitation";
     pe_from := "people@acme.example";
     pe_fromName := Some "Acme People";
     pe_to := "j@abaj.ai";
     pe_date := 1700000000000%Z;
     pe_textBody := None;
     pe_htmlBody := Some "<html><body> <p>We would like to <b>invite</b> you.</p> </body></html>";
     pe_isOutbound := false |}.

(** A request to store an import that carries a wrong key. *)
Definition wrong_key_request : Request :=
  {| rq_method := POST; rq_apiKey := Some "guess"; rq_messageId := None;
     rq_body := ImportsBody [interview_import] |}.

(** A correction that names the staged rejection without its brackets, one
    for a message that is not staged and one without a messageId. *)
Definition relabel_request : Request :=
  {| rq_method := PATCH; rq_apiKey := Some "secret"; rq_messageId := None;
     rq_body := CorrectionsRequest
       [{| co_messageId := Some "7@acme.example"; co_originalType := "rejection";
           co_correctedType := "interview" |};
        {| co_messageId := Some "unknown@acme.example"; co_originalType := "rejection";
           co_correctedType := "interview" |};
        {| co_messageId := None; co_originalType := "rejection";
           co_correctedType := "offer" |}] |}.

(** An import whose body is longer than the store keeps. *)
Definition long_import : PreClassifiedImport :=
  {| pi_messageId := "<11@acme.example>";
     pi_subject := "Interview invitation";
     pi_fromEmail := "people@acme.example";
     pi_fromName := Some "Acme People";
     pi_toEmail := "j@abaj.ai";
     pi_emailDate := Some 1700000000000%Z;
     pi_bodyText := Some (join "" (repeat "We would like to invite you. " 400));
     pi_bodyHtml := Some "";
     pi_classification := "interview";
     pi_confidence := num_0_95;
     pi_isOutbound := false;
     pi_extractedData := Some ∅ |}.

Definition long_import_request : Request :=
  {| rq_method := POST; rq_apiKey := Some "secret"; rq_messageId := None;
     rq_body := ImportsBody [long_import] |}.

(** Three files handled by two workers; every call settles to the length
    of the file's name, and the second worker is the first to run on. *)
Definition three_files : list string := ["cur/41"; "cur/42"; "new/7"].

Definition name_length (item : option string) (currentIndex total : nat) : nat + string :=
  match item with
  | Some path => inl (String.length path)
  | None => inr "no such file"
  end.

Definition second_worker_first : list nat := [1; 0; 1]%nat.

(** Records of the few-shot pool. *)
Definition correction_n (n : N) : FewShot :=
  {| fs_messageId := string_of_N n +:+ "@acme.example";
     fs_originalType := "rejection";
     fs_correctedType := "interview";
     fs_subject := "Update " +:+ string_of_N n;
     fs_from := "people@acme.example";
     fs_fromName := Some "Acme People";
     fs_to := "j@abaj.ai";
     fs_isOutbound := false;
     fs_bodyPreview := "We would like to invite you.";
     fs_correctedAt := 1700000000000%Z;
     fs_highVariance := true |}.

Definition older_corrections : list FewShot := map correction_n [1; 2; 3]%N.
Definition recent_corrections : list FewShot := map correction_n [4; 5; 6; 7; 8]%N.

(** What the model extracted when asked about the SEEK message and about
    the invitation. *)
Definition model_extraction : Obj :=
  {[ "company" := Some "Globex"; "jobTitle" := Some "Platform Engineer";
     "location" := Some "Sydney" ]}.



(* ===================================================================== *)
(** * Properties                                                          *)
(* ===================================================================== *)

(** Closes a conjunction of closed equations by evaluation. *)
Ltac by_evaluation :=
  repeat match goal with |- _ /\ _ => split end; vm_compute; reflexivity.

(** ** The regular expressions on known cases *)

(** The example of the language specification for captures inside a
    quantifier: the fourth group takes no part in the last iteration. *)
Example exec_captures_reset :
  RegExp.exec (rx "(z)((a+)?(b+)?(c))*" "") "zaacbbbcac"
  = Some {| RegExp.m_start := 0; RegExp.m_end := 10;
            RegExp.m_caps := [(2, "ac"); (5, "c"); (3, "a"); (1, "z")] |}.
Proof. vm_compute. reflexivity. Qed.

Example exec_alternatives_in_order :
  RegExp.exec (rx "(a|ab)(c|bcd)(d*)" "") "abcd"
  = Some {| RegExp.m_start := 0; RegExp.m_end := 4;
            RegExp.m_caps := [(3, ""); (2, "bcd"); (1, "a")] |}.
Proof. vm_compute. reflexivity. Qed.

Example exec_empty_iteration :
  RegExp.exec (rx "(a*)*" "") "b"
  = Some {| RegExp.m_start := 0; RegExp.m_end := 0; RegExp.m_caps := [] |}.
Proof. vm_compute. reflexivity. Qed.

Example exec_lazy_capture :
  RegExp.capture 1 <$>
    RegExp.exec (rx "application for (.+?) was (?:successfully )?submitted" "im")
      seek_body
  = Some (Some "Senior Backend Engineer").
Proof. vm_compute. reflexivity. Qed.

Example exec_negative_lookahead :
  RegExp.capture 1 <$>
    RegExp.exec
      (rx "thank(?:s| you) for applying for (?:the )?(?!role|position)(.+?)(?:\.|!| at)" "im")
      "Thanks for applying for the role of Analyst. More soon"
  = Some (Some "the role of Analyst").
Proof. vm_compute. reflexivity. Qed.

Example test_ignores_case :
  RegExp.test (rx "^[A-Z][a-z]+ [A-Z][a-z]+$" "") "john smith" = false
  /\ RegExp.test (rx "^[A-Z][a-z]+ [A-Z][a-z]+$" "i") "john smith" = true.
Proof. by_evaluation. Qed.

Example replace_global_and_first :
  RegExp.replace (rx "x*" "g") "-" "axxbc" = "-a--b-c-"
  /\ RegExp.replace (rx "^<|>$" "g") "" "<7@acme.example>" = "7@acme.example"
  /\ RegExp.replace (rx "[.,!?;:]+$" "") "" "Acme Pty Ltd." = "Acme Pty Ltd".
Proof. by_evaluation. Qed.

Example cleanExtractedValue_cases :
  cleanExtractedValue (Some "Acme Pty Ltd") = Some "Acme"
  /\ cleanExtractedValue (Some "  &amp; 'Foo   Bar Inc.' Careers!!") = Some "& 'Foo Bar Inc.'"
  /\ cleanExtractedValue (Some "Inc") = Some ""
  /\ cleanExtractedValue (Some "") = None
  /\ cleanExtractedValue None = None.
Proof. by_evaluation. Qed.

Example toLowerCase_cases :
  toLowerCase "NoReply@SEEK.com.au" = "noreply@seek.com.au"
  /\ split_on "," "j@abaj.ai,aayushbajaj7@gmail.com" = ["j@abaj.ai"; "aayushbajaj7@gmail.com"]
  /\ string_of_N 1700000100000 = "1700000100000"
  /\ trim "  a b  " = "a b".
Proof. by_evaluation. Qed.

(** ** The pattern tables are well formed *)

Lemma classification_patterns_well_formed :
  forallb (fun tr => RegExp.well_formed (pattern (snd tr))) ordered_rules = true.
Proof. vm_compute. reflexivity. Qed.

Lemma extraction_patterns_well_formed :
  forallb RegExp.well_formed
    (GENERIC_company ++ GENERIC_jobTitle ++ GENERIC_location
     ++ GENERIC_applicationUrl ++ senderPatterns
     ++ flat_map (fun ps => (default [] (ps_company ps) ++ default [] (ps_jobTitle ps))%list)
          [PATTERNS_seek; PATTERNS_linkedin; PATTERNS_indeed; PATTERNS_greenhouse;
           PATTERNS_workday; PATTERNS_lever]) = true.
Proof. vm_compute. reflexivity. Qed.

(** ** The rule engine *)

Lemma check_rules_find (email : Email) (type : ctype) (rules : list Rule) :
  check_rules email type rules =
  (fun rule => result_of (type, rule)) <$> List.find (rule_fires email) rules.
Proof.
  induction rules as [|rule rest IH]; [reflexivity|].
  cbn [check_rules List.find]. unfold rule_fires at 1.
  destruct (RegExp.test _ _); cbn [andb]; [|exact IH].
  destruct (condition rule) as [cond|]; [|reflexivity].
  destruct (cond email); cbn [negb]; [reflexivity|exact IH].
Qed.

Lemma find_app_first {A} (f : A -> bool) (l1 l2 : list A) :
  List.find f (l1 ++ l2) =
  match List.find f l1 with Some x => Some x | None => List.find f l2 end.
Proof.
  induction l1 as [|a l1 IH]; [reflexivity|].
  cbn [List.find app]. destruct (f a); [reflexivity|exact IH].
Qed.

Lemma find_labelled (email : Email) (type : ctype) (rules : list Rule) :
  List.find (fun tr => rule_fires email (snd tr)) (map (pair type) rules) =
  pair type <$> List.find (rule_fires email) rules.
Proof.
  induction rules as [|rule rest IH]; [reflexivity|].
  cbn [List.find map snd]. destruct (rule_fires email rule); [reflexivity|exact IH].
Qed.

Lemma classifyByRules_first_fired (email : Email) :
  classifyByRules email = result_of <$> first_fired email.
Proof.
  unfold classifyByRules, checkOrder, first_fired, ordered_rules.
  cbn [check_types CLASSIFICATION_RULES default from_option id].
  rewrite !find_app_first, !find_labelled, !check_rules_find.
  destruct (List.find (rule_fires email) RULES_other); [reflexivity|].
  destruct (List.find (rule_fires email) RULES_interview); [reflexivity|].
  destruct (List.find (rule_fires email) RULES_rejection); [reflexivity|].
  destruct (List.find (rule_fires email) RULES_job_response); [reflexivity|].
  destruct (List.find (rule_fires email) RULES_follow_up); reflexivity.
Qed.

Lemma find_split {A} (f : A -> bool) (l : list A) (x : A) :
  List.find f l = Some x ->
  exists l1 l2, l = (l1 ++ x :: l2)%list /\ (forall y, In y l1 -> f y = false) /\ f x = true.
Proof.
  induction l as [|a l IH]; [discriminate|].
  cbn [List.find]. destruct (f a) eqn:Ha.
  - intros [= <-]. exists [], l. repeat split; [|exact Ha]. intros y [].
  - intros H. destruct (IH H) as (l1 & l2 & -> & Hpre & Hx).
    exists (a :: l1), l2. repeat split; [|exact Hx].
    intros y [<-|Hy]; [exact Ha|exact (Hpre y Hy)].
Qed.

Lemma find_none_iff {A} (f : A -> bool) (l : list A) :
  List.find f l = None <-> forall x, In x l -> f x = false.
Proof.
  split; [apply find_none|].
  induction l as [|a l IH]; [reflexivity|].
  intros H. cbn [List.find]. rewrite (H a (or_introl eq_refl)).
  apply IH. intros x Hx. apply H. right. exact Hx.
Qed.

Lemma ordered_rules_labels (type : ctype) (rule : Rule) :
  In (type, rule) ordered_rules -> In type checkOrder.
Proof.
  unfold ordered_rules, checkOrder. rewrite !in_app_iff, !in_map_iff.
  intros H. cbn [In].
  repeat (destruct H as [H|H]); destruct H as (r & [= <- _] & _); tauto.
Qed.

Lemma classifyByRules_label (email : Email) (res : RuleResult) :
  classifyByRules email = Some res -> In (rr_type res) checkOrder.
Proof.
  rewrite classifyByRules_first_fired. unfold first_fired.
  destruct (List.find _ ordered_rules) as [[type rule]|] eqn:Hf; [|discriminate].
  intros [= <-]. apply find_some in Hf as [Hin _].
  exact (ordered_rules_labels _ _ Hin).
Qed.

(** C2.  classifyByRules walks the labels in the fixed order other,
    interview, rejection, job_response, follow_up and, within a label, the
    rules in declared order; the first rule that fires (pattern and side
    condition) decides.  So a message on which some rule of `other` fires
    is classified `other` whatever else fires, every result has confidence
    0.95, and the result is null exactly when no rule fires. *)
Theorem classifyByRules_priority_order (email : Email) :
  checkOrder = [other; interview; rejection; job_response; follow_up]
  /\ classifyByRules email = result_of <$> first_fired email
  /\ (forall res, classifyByRules email = Some res ->
      exists earlier type rule later,
        ordered_rules = (earlier ++ (type, rule) :: later)%list
        /\ (forall tr, In tr earlier -> rule_fires email (snd tr) = false)
        /\ rule_fires email rule = true
        /\ res = {| rr_type := type; rr_confidence := num_0_95;
                    rr_reason := reason rule; rr_ruleMatched := true |})
  /\ ((exists rule, In rule RULES_other /\ rule_fires email rule = true) ->
      exists res, classifyByRules email = Some res /\ rr_type res = other)
  /\ (forall res, classifyByRules email = Some res -> rr_confidence res = num_0_95)
  /\ (classifyByRules email = None <->
      forall type rule, In (type, rule) ordered_rules -> rule_fires email rule = false).
Proof.
  split; [reflexivity|]. split; [apply classifyByRules_first_fired|].
  rewrite classifyByRules_first_fired. unfold first_fired.
  split; [|split; [|split]].
  - intros res Hres.
    destruct (List.find _ ordered_rules) as [[type rule]|] eqn:Hf; [|discriminate].
    injection Hres as <-.
    destruct (find_split _ _ _ Hf) as (l1 & l2 & Heq & Hpre & Hfire).
    exists l1, type, rule, l2. repeat split; assumption.
  - intros (rule & Hin & Hfire). unfold ordered_rules.
    rewrite find_app_first, find_labelled.
    destruct (List.find (rule_fires email) RULES_other) as [r|] eqn:Hf.
    + eexists. split; reflexivity.
    + pose proof (proj1 (find_none_iff _ _) Hf rule Hin) as Hno. congruence.
  - intros res Hres.
    destruct (List.find _ ordered_rules); [|discriminate].
    injection Hres as <-. reflexivity.
  - destruct (List.find _ ordered_rules) as [[type rule]|] eqn:Hf.
    + split; [discriminate|]. intros H. apply find_some in Hf as [Hin Hfire].
      pose proof (H type rule Hin) as Hno. cbn [snd] in Hfire. congruence.
    + split; [|reflexivity]. intros _ type rule Hin.
      exact (proj1 (find_none_iff _ _) Hf (type, rule) Hin).
Qed.

Lemma classifyByRules_priority_order_witness :
  rule_fires github_interview
    {| field := "from"; pattern := rx "@github\.com$" "i"; condition := None;
       reason := "github" |} = true
  /\ rule_fires github_interview
       {| field := "subject";
          pattern := rx "interview (invite|invitation|confirm|schedule)" "i";
          condition := None; reason := "interview-invite" |} = true
  /\ (exists res, classifyByRules github_interview = Some res /\ rr_type res = other)
  /\ classifyByRules github_interview =
       Some {| rr_type := other; rr_confidence := num_0_95; rr_reason := "github";
               rr_ruleMatched := true |}.
Proof.
  split; [vm_compute; reflexivity|]. split; [vm_compute; reflexivity|].
  split.
  - apply (proj1 (proj2 (proj2 (proj2 (classifyByRules_priority_order github_interview))))).
    exists {| field := "from"; pattern := rx "@github\.com$" "i"; condition := None;
              reason := "github" |}.
    split; [|vm_compute; reflexivity].
    unfold RULES_other. do 9 right. left. reflexivity.
  - vm_compute. reflexivity.
Defined.

(** C9.  classifyByRules never answers job_application or offer: the table
    has no rules under these two labels, the evaluation order does not
    contain them, and so a result always carries one of the five labels
    other, interview, rejection, job_response, follow_up.  In the
    rule-first pipeline a message labelled job_application or offer was
    therefore labelled by the model. *)
Theorem classifyByRules_never_application_or_offer (email : Email) :
  CLASSIFICATION_RULES job_application = None
  /\ CLASSIFICATION_RULES offer = None
  /\ ~ In job_application checkOrder
  /\ ~ In offer checkOrder
  /\ (forall res, classifyByRules email = Some res ->
      In (rr_type res) [other; interview; rejection; job_response; follow_up]
      /\ rr_type res <> job_application /\ rr_type res <> offer)
  /\ (forall llm type confidence source,
      classify_one email llm = Some (type, confidence, source) ->
      type = "job_application" \/ type = "offer" -> source = Ollama).
Proof.
  split; [reflexivity|]. split; [reflexivity|].
  split; [cbn [checkOrder In]; intuition discriminate|].
  split; [cbn [checkOrder In]; intuition discriminate|].
  split.
  - intros res Hres. apply classifyByRules_label in Hres.
    split; [exact Hres|].
    unfold checkOrder in Hres. cbn [In] in Hres.
    split; intros Heq; rewrite Heq in Hres; intuition discriminate.
  - intros llm type confidence source. unfold classify_one.
    destruct (classifyByRules email) as [res|] eqn:Hres.
    + intros [= <- _ _] Htype. apply classifyByRules_label in Hres.
      unfold checkOrder in Hres. cbn [In] in Hres.
      destruct (rr_type res); cbn [type_name] in Htype;
        destruct Htype as [Ht|Ht]; try discriminate Ht; intuition discriminate.
    + destruct (classifyWithOllama email llm); [|discriminate].
      intros [= _ _ <-] _. reflexivity.
Qed.

Lemma classifyByRules_never_application_or_offer_witness :
  classifyByRules outcome_mail =
    Some {| rr_type := rejection; rr_confidence := num_0_95; rr_reason := "outcome";
            rr_ruleMatched := true |}
  /\ rejection <> job_application /\ rejection <> offer.
Proof.
  assert (H : classifyByRules outcome_mail =
    Some {| rr_type := rejection; rr_confidence := num_0_95; rr_reason := "outcome";
            rr_ruleMatched := true |}) by (vm_compute; reflexivity).
  split; [exact H|].
  exact (proj2 (proj1 (proj2 (proj2 (proj2 (proj2
           (classifyByRules_never_application_or_offer outcome_mail))))) _ H)).
Defined.

(** ** The extraction engine *)

Lemma mergeExtractedData_lookup (existing newData : Obj) (key : string) :
  mergeExtractedData existing newData !! key = filled existing newData key.
Proof.
  unfold mergeExtractedData, filled. revert key.
  apply (map_fold_weak_ind
           (fun (result : Obj) (m : Obj) => forall key : string,
              result !! key =
              if truthy (m !! key) && negb (truthy (existing !! key))
              then m !! key else existing !! key)).
  - intros key. rewrite lookup_empty. reflexivity.
  - intros i x m r Hi IH key.
    destruct (decide (i = key)) as [->|Hne].
    + rewrite lookup_insert_eq. specialize (IH key). rewrite Hi in IH.
      cbn [truthy andb] in IH. rewrite IH.
      destruct (truthy (Some x) && negb (truthy (existing !! key))).
      * apply lookup_insert_eq.
      * exact IH.
    + rewrite (lookup_insert_ne m i key x Hne), <- IH.
      destruct (truthy (Some x) && negb (truthy (r !! i))); [|reflexivity].
      apply lookup_insert_ne. exact Hne.
Qed.

(** C6 as stated fails: an existing value that is the empty string is not
    null, yet merging replaces it. *)
Lemma mergeExtractedData_replaces_empty_string :
  ({[ "company" := Some "" ]} : Obj) !! "company" = Some (Some "")
  /\ mergeExtractedData {[ "company" := Some "" ]} {[ "company" := Some "Other" ]}
       !! "company" = Some (Some "Other").
Proof. split; vm_compute; reflexivity. Qed.

(** C6, amended.  mergeExtractedData is fill-only up to JavaScript
    truthiness: a field keeps its existing value whenever that value is a
    non-empty string, and takes the new value exactly when the existing
    value is missing, null or the empty string and the new value is a
    non-empty string.  merge({company: "Acme"}, {company: "Other",
    jobTitle: "Eng"}) is {company: "Acme", jobTitle: "Eng"}. *)
Theorem mergeExtractedData_fill_only (existing newData : Obj) (key : string) :
  mergeExtractedData existing newData !! key = filled existing newData key
  /\ (truthy (existing !! key) = true ->
      mergeExtractedData existing newData !! key = existing !! key)
  /\ (truthy (existing !! key) = false -> truthy (newData !! key) = true ->
      mergeExtractedData existing newData !! key = newData !! key)
  /\ (truthy (newData !! key) = false ->
      mergeExtractedData existing newData !! key = existing !! key)
  /\ mergeExtractedData {[ "company" := Some "Acme" ]}
       {[ "company" := Some "Other"; "jobTitle" := Some "Eng" ]}
     = {[ "company" := Some "Acme"; "jobTitle" := Some "Eng" ]}.
Proof.
  rewrite mergeExtractedData_lookup. unfold filled.
  split; [reflexivity|].
  split; [intros ->; rewrite andb_false_r; reflexivity|].
  split; [intros -> ->; reflexivity|].
  split; [intros ->; reflexivity|].
  vm_compute. reflexivity.
Qed.

Lemma mergeExtractedData_fill_only_witness :
  mergeExtractedData {[ "company" := Some "Acme" ]}
    {[ "company" := Some "Other"; "jobTitle" := Some "Eng" ]} !! "company"
  = Some (Some "Acme")
  /\ mergeExtractedData {[ "company" := Some "Acme" ]}
       {[ "company" := Some "Other"; "jobTitle" := Some "Eng" ]} !! "jobTitle"
     = Some (Some "Eng").
Proof.
  split.
  - rewrite (proj1 (proj2 (mergeExtractedData_fill_only
               {[ "company" := Some "Acme" ]}
               {[ "company" := Some "Other"; "jobTitle" := Some "Eng" ]} "company")));
      vm_compute; reflexivity.
  - rewrite (proj1 (proj2 (proj2 (mergeExtractedData_fill_only
               {[ "company" := Some "Acme" ]}
               {[ "company" := Some "Other"; "jobTitle" := Some "Eng" ]} "jobTitle"))));
      vm_compute; reflexivity.
Defined.

Lemma includes_nonempty (s p : string) :
  includes s p = true -> p <> "" -> s <> "".
Proof. intros H Hp ->. destruct p; [congruence|discriminate H]. Qed.

Lemma toLowerCase_nonempty (s : string) : toLowerCase s <> "" -> s <> "".
Proof. intros H ->. apply H. reflexivity. Qed.

Lemma detectSource_seek (email : Email) (sender : string) :
  from email = Some sender ->
  includes (toLowerCase sender) "seek.com.au" = true ->
  detectSource email = Some "SEEK".
Proof.
  intros Hfrom Hinc. unfold detectSource. rewrite Hfrom.
  assert (Hne : sender <> "").
  { apply toLowerCase_nonempty. eapply includes_nonempty; [exact Hinc|discriminate]. }
  assert (Hs : or_str (or_opt (Some sender) (fromEmail email)) "" = sender).
  { unfold or_opt, or_str, truthy_str.
    destruct (String.eqb_spec sender ""); [contradiction|]. cbn [negb].
    cbn [default from_option id]. destruct (String.eqb_spec sender ""); [contradiction|].
    reflexivity. }
  rewrite Hs. unfold JOB_SOURCES. cbn [first_entry any_pattern].
  rewrite Hinc. reflexivity.
Qed.

(** C8 as stated fails: for a message that has the body and nothing else,
    no job board is detected, the generic cascade finds the title but no
    company, and there is no sender name to fall back on. *)
Lemma extractByRules_body_only_no_company :
  textBody body_only = Some seek_body
  /\ extractByRules body_only !! "jobTitle" = Some (Some "Senior Backend Engineer")
  /\ extractByRules body_only !! "source" = Some None
  /\ extractByRules body_only !! "company" = Some None.
Proof. by_evaluation. Qed.

(** C8, amended.  For a message with this body and an empty subject whose
    sender address contains seek.com.au, the source detected is SEEK and
    the SEEK patterns yield jobTitle "Senior Backend Engineer" and company
    "Acme": the value cleaner strips the suffix "Pty Ltd".  (Without a
    detected SEEK source the title is found all the same, the company is
    not taken from the body.) *)
Theorem extractByRules_seek_confirmation (email : Email) (sender : string) :
  from email = Some sender ->
  includes (toLowerCase sender) "seek.com.au" = true ->
  truthy_str (subject email) = false ->
  textBody email = Some seek_body ->
  extractByRules email !! "source" = Some (Some "SEEK")
  /\ extractByRules email !! "jobTitle" = Some (Some "Senior Backend Engineer")
  /\ extractByRules email !! "company" = Some (Some "Acme")
  /\ cleanExtractedValue (Some "Acme Pty Ltd") = Some "Acme".
Proof.
  intros Hfrom Hinc Hsubj Hbody.
  pose proof (detectSource_seek email sender Hfrom Hinc) as Hsrc.
  assert (Hs : or_str (subject email) "" = "").
  { unfold or_str. rewrite Hsubj. reflexivity. }
  unfold extractByRules. rewrite Hsrc, Hs, Hbody.
  by_evaluation.
Qed.

Lemma extractByRules_seek_confirmation_witness :
  extractByRules seek_mail !! "jobTitle" = Some (Some "Senior Backend Engineer")
  /\ extractByRules seek_mail !! "company" = Some (Some "Acme").
Proof.
  assert (H := extractByRules_seek_confirmation seek_mail "noreply@s.seek.com.au"
                 eq_refl eq_refl eq_refl eq_refl).
  split; [exact (proj1 (proj2 H))|exact (proj1 (proj2 (proj2 H)))].
Defined.

(** ** The staging store *)

Lemma NoDup_snoc {A} (l : list A) (x : A) :
  List.NoDup l -> ~ In x l -> List.NoDup (l ++ [x]).
Proof.
  induction l as [|a l IH]; intros Hnd Hx.
  - constructor; [intros []|constructor].
  - apply NoDup_cons_iff in Hnd as [Ha Hnd]. cbn [app].
    apply NoDup_cons_iff. split.
    + rewrite in_app_iff. intros [H|[H|[]]]; [exact (Ha H)|].
      apply Hx. left. symmetry. exact H.
    + apply IH; [exact Hnd|]. intros H. apply Hx. right. exact H.
Qed.

Lemma has_messageId_true (messageId : string) (r : EmailImport) :
  has_messageId messageId r = true <-> ei_messageId r = messageId.
Proof. unfold has_messageId. apply String.eqb_eq. Qed.

Lemma staged_iff (d : Db) (messageId : string) :
  staged d messageId = true <-> In messageId (map ei_messageId (emailImports d)).
Proof.
  unfold staged. rewrite existsb_exists, in_map_iff.
  split; intros (r & H1 & H2).
  - exists r. split; [apply has_messageId_true; exact H2|exact H1].
  - exists r. split; [exact H2|apply has_messageId_true; exact H1].
Qed.

Lemma findUnique_staged (d : Db) (messageId : string) :
  emailImport_findUnique d messageId = None <-> staged d messageId = false.
Proof.
  unfold emailImport_findUnique, staged. rewrite find_none_iff.
  split.
  - intros H. destruct (existsb _ _) eqn:He; [|reflexivity].
    apply existsb_exists in He as (r & Hin & Hr). rewrite (H r Hin) in Hr. discriminate.
  - intros H r Hin. destruct (has_messageId messageId r) eqn:Hr; [|reflexivity].
    assert (existsb (has_messageId messageId) (emailImports d) = true) as He
      by (apply existsb_exists; exists r; split; assumption).
    congruence.
Qed.

Lemma create_rows (d d' : Db) (data : CreateData) :
  emailImport_create d data = inl d' ->
  staged d (cd_messageId data) = false
  /\ emailAccounts d' = emailAccounts d
  /\ exists row,
       emailImports d' = (emailImports d ++ [row])%list
       /\ ei_messageId row = cd_messageId data
       /\ ei_status row = cd_status data
       /\ ei_classification row = cd_classification data
       /\ ei_confidence row = cd_confidence data.
Proof.
  unfold emailImport_create, staged.
  destruct (cd_emailDate data); [|discriminate].
  destruct (existsb _ _); [discriminate|].
  intros [= <-]. cbn. split; [reflexivity|]. split; [reflexivity|].
  eexists. split; [reflexivity|]. cbn. repeat split.
Qed.

Lemma create_unique (d d' : Db) (data : CreateData) :
  emailImport_create d data = inl d' -> unique_messageIds d -> unique_messageIds d'.
Proof.
  intros Hc Hu. destruct (create_rows _ _ _ Hc) as (Hns & _ & row & Hrows & Hid & _).
  unfold unique_messageIds in *. rewrite Hrows, map_app. cbn [map].
  apply NoDup_snoc; [exact Hu|]. rewrite Hid, <- staged_iff, Hns. discriminate.
Qed.

Lemma upsert_rows (d : Db) (userId email : string) :
  emailImports (emailAccount_upsert d userId email) = emailImports d.
Proof. unfold emailAccount_upsert. destruct (existsb _ _); reflexivity. Qed.

Lemma ensure_accounts_rows (userId : string) (monitored emails : list string) (d : Db) :
  emailImports (ensure_accounts userId monitored emails d) = emailImports d.
Proof.
  unfold ensure_accounts. revert d.
  induction emails as [|e emails IH]; intros d; [reflexivity|].
  cbn [fold_left]. rewrite IH. destruct (existsb _ monitored); [apply upsert_rows|reflexivity].
Qed.

Lemma upsert_all_rows (userId : string) (emails : list string) (d : Db) :
  emailImports (fold_left (fun d email => emailAccount_upsert d userId email) emails d)
  = emailImports d.
Proof.
  revert d. induction emails as [|e emails IH]; intros d; [reflexivity|].
  cbn [fold_left]. rewrite IH. apply upsert_rows.
Qed.

Lemma import_one_unique (userId : string) (monitored : list string)
    (d : Db) (result : SyncResult) (imp : PreClassifiedImport) :
  unique_messageIds d ->
  unique_messageIds (fst (import_one userId monitored (d, result) imp)).
Proof.
  intros Hu. unfold import_one.
  destruct (emailImport_findUnique d (pi_messageId imp)); [exact Hu|].
  destruct (emailAccount_findFirst d monitored); [|exact Hu].
  destruct (emailImport_create d _) eqn:Hc; [|exact Hu].
  exact (create_unique _ _ _ Hc Hu).
Qed.

Lemma fold_import_unique (userId : string) (monitored : list string)
    (imports : list PreClassifiedImport) (st : Db * SyncResult) :
  unique_messageIds (fst st) ->
  unique_messageIds (fst (fold_left (import_one userId monitored) imports st)).
Proof.
  revert st. induction imports as [|imp imports IH]; intros [d result] Hu; [exact Hu|].
  cbn [fold_left]. apply IH.
  exact (import_one_unique userId monitored d result imp Hu).
Qed.

Lemma handlePreClassifiedImports_unique (userId : string) (monitored : list string)
    (imports : list PreClassifiedImport) (d : Db) :
  unique_messageIds d ->
  unique_messageIds (fst (handlePreClassifiedImports userId monitored imports d)).
Proof.
  intros Hu. unfold handlePreClassifiedImports. apply fold_import_unique.
  unfold unique_messageIds in *. cbn [fst]. rewrite ensure_accounts_rows. exact Hu.
Qed.

Lemma local_one_unique (userId : string) (monitored : list string)
    (s : ServerState) (result : SyncResult) (item : LocalItem) :
  unique_messageIds (db s) ->
  unique_messageIds (db (fst (local_one userId monitored (s, result) item))).
Proof.
  intros Hu. unfold local_one.
  destruct (li_parsed item) as [parsed|]; [|exact Hu].
  destruct (emailImport_findUnique _ _); [exact Hu|].
  destruct (_ || _); [exact Hu|].
  destruct (emailAccount_findFirst _ _); [|exact Hu].
  destruct (emailImport_create _ _) eqn:Hc; [|exact Hu].
  exact (create_unique _ _ _ Hc Hu).
Qed.

Lemma fold_local_unique (userId : string) (monitored : list string)
    (items : list LocalItem) (st : ServerState * SyncResult) :
  unique_messageIds (db (fst st)) ->
  unique_messageIds (db (fst (fold_left (local_one userId monitored) items st))).
Proof.
  revert st. induction items as [|item items IH]; intros [s result] Hu; [exact Hu|].
  cbn [fold_left]. apply IH.
  exact (local_one_unique userId monitored s result item Hu).
Qed.

Lemma handleLocalMode_unique (userId : string) (monitored : list string)
    (available : bool) (items : list LocalItem) (s : ServerState) :
  unique_messageIds (db s) ->
  unique_messageIds (db (fst (handleLocalMode userId monitored available items s))).
Proof.
  intros Hu. unfold handleLocalMode.
  destruct available; cbn [negb]; [|exact Hu].
  set (d0 := fold_left (fun d email => emailAccount_upsert d userId email) monitored (db s)).
  assert (Hu' : unique_messageIds d0).
  { unfold unique_messageIds, d0 in *. rewrite upsert_all_rows. exact Hu. }
  destruct items as [|item items]; [exact Hu'|].
  pose proof (fold_local_unique userId monitored (item :: items)
                ({| db := d0; tagged_processed := tagged_processed s |},
                 {| processed := 0; skipped := 0; errors := [] |}) Hu') as H.
  destruct (fold_left (local_one userId monitored) _ _) as [s' result]. exact H.
Qed.

Lemma correct_one_ids (now : Z) (st : Db * (nat * nat * list string))
    (correction : Correction) :
  map ei_messageId (emailImports (fst (correct_one now st correction)))
  = map ei_messageId (emailImports (fst st)).
Proof.
  destruct st as [d [[updated notFound] errs]]. unfold correct_one.
  destruct (co_messageId correction); [|reflexivity].
  destruct (emailImport_findFirst_any _ _); [|reflexivity].
  cbn [fst emailImport_update_classification emailImports].
  rewrite map_map. apply map_ext. intros r. destruct (Nat.eqb _ _); reflexivity.
Qed.

(** What every turn of the loop of PATCH keeps, the whole loop keeps. *)
Lemma correct_all_invariant (P : Db * (nat * nat * list string) -> Prop)
    (clock : nat -> Z) (corrections : list Correction)
    (st : Db * (nat * nat * list string)) :
  (forall now st correction, P st -> P (correct_one now st correction)) ->
  P st -> P (correct_all clock corrections st).
Proof.
  intros Hstep. unfold correct_all.
  generalize (combine (seq 0 (length corrections)) corrections).
  intros turns. revert st. induction turns as [|[k c] turns IH]; intros st H; [exact H|].
  cbn [fold_left fst snd]. apply IH, Hstep, H.
Qed.

Lemma fold_correct_ids (clock : nat -> Z) (corrections : list Correction)
    (st : Db * (nat * nat * list string)) :
  map ei_messageId (emailImports (fst (correct_all clock corrections st)))
  = map ei_messageId (emailImports (fst st)).
Proof.
  apply (correct_all_invariant
           (fun st' => map ei_messageId (emailImports (fst st'))
                       = map ei_messageId (emailImports (fst st)))); [|reflexivity].
  intros now st' c H. rewrite correct_one_ids. exact H.
Qed.

Lemma endpoint_unique (env : ServerEnv) (req : Request) (s : ServerState) :
  unique_messageIds (db s) -> unique_messageIds (db (fst (endpoint env req s))).
Proof.
  intros Hu. unfold endpoint, route_exports.
  destruct (rq_method req); try exact Hu.
  - unfold route_POST. destruct (unauthorized env req); [exact Hu|].
    destruct (firstUser env) as [userId|]; [|exact Hu].
    destruct (rq_body req) as [|[|imp rest]| |];
      try (apply handleLocalMode_unique; exact Hu).
    pose proof (handlePreClassifiedImports_unique userId
                  (MONITORED_EMAILS (env_MONITORED_EMAILS env)) (imp :: rest) (db s) Hu) as H.
    destruct (handlePreClassifiedImports _ _ _ _) as [d' result]. exact H.
  - unfold route_PATCH. destruct (unauthorized env req); [exact Hu|].
    destruct (rq_body req) as [| |corrections|]; try exact Hu.
    pose proof (fold_correct_ids (patchClock env) corrections (db s, (0, 0, []))) as H.
    destruct (correct_all _ corrections _) as [d' [[updated notFound] errs]].
    unfold unique_messageIds in *. cbn [fst db] in *. rewrite H. exact Hu.
Qed.

Lemma requests_unique (env : ServerEnv) (reqs : list Request) (s : ServerState) :
  unique_messageIds (db s) ->
  unique_messageIds (db (fold_left (fun s req => fst (endpoint env req s)) reqs s)).
Proof.
  revert s. induction reqs as [|req reqs IH]; intros s Hu; [exact Hu|].
  cbn [fold_left]. apply IH. apply endpoint_unique. exact Hu.
Qed.

Lemma count_le_1 (rows : list EmailImport) (messageId : string) :
  List.NoDup (map ei_messageId rows) ->
  (length (List.filter (fun r => has_messageId messageId r) rows) <= 1)%nat.
Proof.
  induction rows as [|r rows IH]; intros Hnd; [cbn; lia|].
  cbn [map] in Hnd. apply NoDup_cons_iff in Hnd as [Hr Hnd].
  change (List.filter (fun r => has_messageId messageId r) (r :: rows))
    with (if has_messageId messageId r
          then r :: List.filter (fun r => has_messageId messageId r) rows
          else List.filter (fun r => has_messageId messageId r) rows).
  destruct (has_messageId messageId r) eqn:Hm; [|exact (IH Hnd)].
  apply has_messageId_true in Hm. subst messageId.
  assert (Hnil : List.filter (fun r0 => has_messageId (ei_messageId r) r0) rows = []).
  { clear IH Hnd. induction rows as [|r' rows IH]; [reflexivity|].
    change (List.filter (fun r0 => has_messageId (ei_messageId r) r0) (r' :: rows))
      with (if has_messageId (ei_messageId r) r'
            then r' :: List.filter (fun r0 => has_messageId (ei_messageId r) r0) rows
            else List.filter (fun r0 => has_messageId (ei_messageId r) r0) rows).
    destruct (has_messageId (ei_messageId r) r') eqn:Hm.
    - exfalso. apply Hr. left. apply has_messageId_true in Hm. exact Hm.
    - apply IH. intros H. apply Hr. right. exact H. }
  rewrite Hnil. cbn. lia.
Qed.

Lemma count_ge_1 (rows : list EmailImport) (messageId : string) :
  existsb (has_messageId messageId) rows = true ->
  (1 <= length (List.filter (fun r => has_messageId messageId r) rows))%nat.
Proof.
  induction rows as [|r rows IH]; [discriminate|].
  cbn [existsb].
  change (List.filter (fun r => has_messageId messageId r) (r :: rows))
    with (if has_messageId messageId r
          then r :: List.filter (fun r => has_messageId messageId r) rows
          else List.filter (fun r => has_messageId messageId r) rows).
  destruct (has_messageId messageId r); cbn [orb]; [cbn; lia|exact IH].
Qed.

Lemma import_one_staged (userId : string) (monitored : list string)
    (d : Db) (result : SyncResult) (imp : PreClassifiedImport) :
  staged d (pi_messageId imp) = true ->
  import_one userId monitored (d, result) imp
  = (d, {| processed := processed result; skipped := S (skipped result);
           errors := errors result |}).
Proof.
  intros Hs. unfold import_one.
  destruct (emailImport_findUnique d (pi_messageId imp)) eqn:Hf; [reflexivity|].
  apply findUnique_staged in Hf. congruence.
Qed.

Lemma import_one_processed (userId : string) (monitored : list string)
    (d : Db) (result : SyncResult) (imp : PreClassifiedImport) :
  processed (snd (import_one userId monitored (d, result) imp)) = S (processed result) ->
  staged (fst (import_one userId monitored (d, result) imp)) (pi_messageId imp) = true.
Proof.
  unfold import_one.
  destruct (emailImport_findUnique d (pi_messageId imp)); [cbn; lia|].
  destruct (emailAccount_findFirst d monitored); [|cbn; lia].
  destruct (emailImport_create d _) eqn:Hc; [|cbn; lia].
  intros _. cbn [fst]. destruct (create_rows _ _ _ Hc) as (_ & _ & row & Hrows & Hid & _).
  unfold staged. rewrite Hrows, existsb_app. cbn [existsb].
  cbn [cd_messageId] in Hid. rewrite (proj2 (has_messageId_true _ _) Hid).
  rewrite orb_true_r. reflexivity.
Qed.

(** C1.  At most one StagedImport exists per messageId, whatever sequence
    of requests the endpoint receives.  Submitting a creation whose
    messageId is already staged creates nothing, adds one to `skipped` and
    reports no error; so when a creation is stored and then submitted
    again, exactly one row for it is stored. *)
Theorem staged_import_unique_per_messageId (env : ServerEnv) (s : ServerState) :
  unique_messageIds (db s) ->
  (forall reqs messageId,
     let s' := fold_left (fun s req => fst (endpoint env req s)) reqs s in
     unique_messageIds (db s') /\ (count_staged (db s') messageId <= 1)%nat)
  /\ (forall userId monitored imp result,
      staged (db s) (pi_messageId imp) = true ->
      import_one userId monitored (db s, result) imp
      = (db s, {| processed := processed result; skipped := S (skipped result);
                  errors := errors result |}))
  /\ (forall userId monitored imp,
      let first := handlePreClassifiedImports userId monitored [imp] (db s) in
      let second := handlePreClassifiedImports userId monitored [imp] (fst first) in
      processed (snd first) = 1%nat ->
      emailImports (fst second) = emailImports (fst first)
      /\ snd second = {| processed := 0; skipped := 1; errors := [] |}
      /\ count_staged (fst second) (pi_messageId imp) = 1%nat).
Proof.
  intros Hu. split; [|split].
  - intros reqs messageId s'.
    pose proof (requests_unique env reqs s Hu) as Hu'. split; [exact Hu'|].
    apply count_le_1. exact Hu'.
  - intros userId monitored imp result Hs. apply import_one_staged. exact Hs.
  - intros userId monitored imp first second Hp.
    assert (Hu1 : unique_messageIds (fst first))
      by (apply handlePreClassifiedImports_unique; exact Hu).
    assert (Hst : staged (fst first) (pi_messageId imp) = true).
    { subst first. unfold handlePreClassifiedImports in *. cbn [fold_left] in *.
      apply import_one_processed. exact Hp. }
    assert (Hst' : staged (ensure_accounts userId monitored (uniqueEmails [imp]) (fst first))
                     (pi_messageId imp) = true).
    { unfold staged in *. rewrite ensure_accounts_rows. exact Hst. }
    assert (Hsecond : second =
              (ensure_accounts userId monitored (uniqueEmails [imp]) (fst first),
               {| processed := 0; skipped := 1; errors := [] |})).
    { subst second. unfold handlePreClassifiedImports. cbn [fold_left].
      rewrite (import_one_staged _ _ _ _ _ Hst'). reflexivity. }
    rewrite Hsecond. cbn [fst snd]. rewrite ensure_accounts_rows.
    split; [reflexivity|]. split; [reflexivity|].
    unfold count_staged. rewrite ensure_accounts_rows.
    apply Nat.le_antisymm; [apply count_le_1; exact Hu1|apply count_ge_1; exact Hst].
Qed.

Lemma staged_import_unique_per_messageId_witness :
  unique_messageIds (db empty_store)
  /\ processed (snd (handlePreClassifiedImports "user-1" (MONITORED_EMAILS None)
                       [interview_import] (db empty_store))) = 1%nat
  /\ snd (handlePreClassifiedImports "user-1" (MONITORED_EMAILS None) [interview_import]
            (fst (handlePreClassifiedImports "user-1" (MONITORED_EMAILS None)
                    [interview_import] (db empty_store))))
     = {| processed := 0; skipped := 1; errors := [] |}
  /\ count_staged
       (fst (handlePreClassifiedImports "user-1" (MONITORED_EMAILS None) [interview_import]
               (fst (handlePreClassifiedImports "user-1" (MONITORED_EMAILS None)
                       [interview_import] (db empty_store)))))
       "<42@acme.example>" = 1%nat.
Proof.
  assert (Hu : unique_messageIds (db empty_store)) by constructor.
  assert (Hp : processed (snd (handlePreClassifiedImports "user-1" (MONITORED_EMAILS None)
                                 [interview_import] (db empty_store))) = 1%nat)
    by (vm_compute; reflexivity).
  split; [exact Hu|]. split; [exact Hp|].
  exact (proj2 (proj2 (proj2 (staged_import_unique_per_messageId test_env empty_store Hu))
                 "user-1" (MONITORED_EMAILS None) interview_import Hp)).
Defined.

(** ** Demotion *)

Lemma delete_one_state (reachable : bool) (env : ServerEnv) (apiKey : string)
    (s : ServerState) (counts : nat * nat) (item : string * string) :
  delete_one reachable env apiKey (s, counts) item
  = (s, (fst counts, S (snd counts))).
Proof.
  destruct counts as [deleted notFound]. unfold delete_one, http, endpoint.
  cbn [rq_method route_exports]. destruct reachable; reflexivity.
Qed.

Lemma deleteFromServer_state (reachable : bool) (env : ServerEnv) (apiKey : string)
    (items : list (string * string)) (s : ServerState) :
  deleteFromServer reachable env apiKey items s
  = (s, (0, if String.eqb apiKey "" then 0 else length items))%nat.
Proof.
  unfold deleteFromServer. destruct (String.eqb apiKey ""); [reflexivity|].
  assert (H : forall counts,
            fold_left (delete_one reachable env apiKey) items (s, counts)
            = (s, (fst counts, snd counts + length items)%nat)).
  { induction items as [|item items IH]; intros [deleted notFound].
    - cbn. rewrite Nat.add_0_r. reflexivity.
    - cbn [fold_left]. rewrite delete_one_state, IH. cbn [fst snd length].
      rewrite Nat.add_succ_r. reflexivity. }
  rewrite H. reflexivity.
Qed.

(** C5, on the code.  The scanner puts a demotion on its delete list and
    sends `DELETE ?messageId=...` for it, but the route exports no DELETE
    handler: the request is answered 405 and changes nothing, so the
    StagedImport of a demoted message stays in the store. *)
Theorem demotion_delete_not_accepted (env : ServerEnv) (reachable : bool)
    (apiKey : string) (items : list (string * string)) (s : ServerState) :
  route_exports DELETE = None
  /\ (forall apiKey messageId body,
      endpoint env {| rq_method := DELETE; rq_apiKey := apiKey;
                      rq_messageId := messageId; rq_body := body |} s
      = (s, {| rs_status := 405; rs_body := NoBody |}))
  /\ fst (deleteFromServer reachable env apiKey items s) = s
  /\ (let '(st, saved, s') :=
        scan_main (MONITORED_EMAILS None) true test_env "secret" [] [demoted_item]
                  store_with_rejection in
      deleteList st = [("7@acme.example", "Update from Acme")]
      /\ s' = store_with_rejection
      /\ emailImport_findUnique (db s') "<7@acme.example>" = Some rejection_row).
Proof.
  split; [reflexivity|]. split; [reflexivity|].
  split; [rewrite deleteFromServer_state; reflexivity|].
  vm_compute. split; [reflexivity|]. split; reflexivity.
Qed.

(** ** The gate of the staging protocol *)

Lemma type_name_other (t : ctype) :
  String.eqb (type_name t) "other" = bool_decide (t = other).
Proof. destruct t; reflexivity. Qed.

Lemma server_gate (c : EmailClassification) :
  negb (isJobRelated c) || negb (meetsConfidenceThreshold c default_threshold)
  = negb (passes_gate (type_name (ec_type c)) (ec_confidence c)).
Proof.
  unfold isJobRelated, meetsConfidenceThreshold, default_threshold, passes_gate.
  rewrite type_name_other, negb_andb. reflexivity.
Qed.

Lemma local_gate (c : OllamaClassification) :
  negb (isJobRelated_local c) || negb (Qle_bool num_0_6 (oc_confidence c))
  = negb (passes_gate (oc_type c) (oc_confidence c)).
Proof. unfold isJobRelated_local, passes_gate. rewrite negb_andb. reflexivity. Qed.

Lemma create_new (d : Db) (data : CreateData) (date : Z) :
  cd_emailDate data = Some date ->
  emailImport_findUnique d (cd_messageId data) = None ->
  exists d' row,
    emailImport_create d data = inl d'
    /\ emailImports d' = (emailImports d ++ [row])%list
    /\ ei_messageId row = cd_messageId data
    /\ ei_status row = cd_status data
    /\ ei_classification row = cd_classification data
    /\ ei_confidence row = cd_confidence data.
Proof.
  intros Hdate Hnew. apply findUnique_staged in Hnew. unfold staged in Hnew.
  unfold emailImport_create. rewrite Hdate, Hnew.
  eexists. eexists. split; [reflexivity|]. cbn. repeat split.
Qed.

Lemma local_one_gate (userId : string) (monitored : list string) (s : ServerState)
    (result : SyncResult) (item : LocalItem) (parsed : ParsedEmail)
    (account : EmailAccount) :
  li_parsed item = inl parsed ->
  emailImport_findUnique (db s) (pe_messageId parsed) = None ->
  emailAccount_findFirst (db s) monitored = Some account ->
  let c := classifyEmail parsed (li_llm item) in
  let st' := local_one userId monitored (s, result) item in
  tagged_processed (fst st')
  = (if li_tagged item
     then (tagged_processed s ++ [notmuch_tag_command (pe_messageId parsed)])%list
     else tagged_processed s)
  /\ errors (snd st') = errors result
  /\ if passes_gate (type_name (ec_type c)) (ec_confidence c)
     then (exists row,
             emailImports (db (fst st')) = (emailImports (db s) ++ [row])%list
             /\ ei_messageId row = pe_messageId parsed
             /\ ei_status row = "pending"
             /\ ei_classification row = type_name (ec_type c)
             /\ ei_confidence row = ec_confidence c)
          /\ processed (snd st') = S (processed result)
          /\ skipped (snd st') = skipped result
     else db (fst st') = db s
          /\ processed (snd st') = processed result
          /\ skipped (snd st') = S (skipped result).
Proof.
  intros Hparsed Hnew Hacc c st'.
  subst st'. unfold local_one. rewrite Hparsed, Hnew.
  fold c. rewrite (server_gate c).
  destruct (passes_gate (type_name (ec_type c)) (ec_confidence c)); cbn [negb].
  - rewrite Hacc.
    match goal with
    | |- context [emailImport_create ?d ?data] =>
        destruct (create_new d data (pe_date parsed) eq_refl Hnew)
          as (d' & row & -> & Hrows & Hid & Hst & Hcl & Hco)
    end.
    cbn [fst snd db processed skipped errors tagged_processed].
    split; [unfold markEmailProcessed; reflexivity|]. split; [reflexivity|].
    split; [|split; reflexivity].
    exists row. repeat split; assumption.
  - cbn [fst snd db processed skipped errors tagged_processed].
    split; [unfold markEmailProcessed; reflexivity|]. repeat split.
Qed.

Lemma split_on_nonempty (sep : ascii) (s : string) : split_on sep s <> [].
Proof.
  destruct s as [|a s]; cbn [split_on]; [discriminate|].
  destruct (Ascii.eqb a sep); [discriminate|].
  destruct (split_on sep s); discriminate.
Qed.

Lemma upsert_accounts (d : Db) (userId email : string) :
  all_active d ->
  all_active (emailAccount_upsert d userId email)
  /\ (exists a, In a (emailAccounts (emailAccount_upsert d userId email))
                /\ ea_email a = email)
  /\ (forall a, In a (emailAccounts d) ->
                In a (emailAccounts (emailAccount_upsert d userId email))).
Proof.
  intros Hact. unfold emailAccount_upsert.
  destruct (existsb _ (emailAccounts d)) eqn:He.
  - split; [exact Hact|]. split; [|tauto].
    apply existsb_exists in He as (a & Hin & Ha). exists a. split; [exact Hin|].
    apply String.eqb_eq. exact Ha.
  - unfold all_active. cbn [emailAccounts]. split; [|split].
    + intros a Hin. apply in_app_iff in Hin as [Hin|[<-|[]]]; [exact (Hact a Hin)|reflexivity].
    + eexists. split; [apply in_app_iff; right; left; reflexivity|reflexivity].
    + intros a Hin. apply in_app_iff. left. exact Hin.
Qed.

Lemma upsert_all_accounts (userId : string) (emails : list string) (d : Db) :
  all_active d ->
  all_active (fold_left (fun d email => emailAccount_upsert d userId email) emails d)
  /\ (forall a, In a (emailAccounts d) ->
        In a (emailAccounts
                (fold_left (fun d email => emailAccount_upsert d userId email) emails d)))
  /\ (forall email, In email emails ->
        exists a,
          In a (emailAccounts
                  (fold_left (fun d email => emailAccount_upsert d userId email) emails d))
          /\ ea_email a = email).
Proof.
  revert d. induction emails as [|e emails IH]; intros d Hact.
  - split; [exact Hact|]. split; [tauto|]. intros email [].
  - cbn [fold_left].
    destruct (upsert_accounts d userId e Hact) as (Hact' & (a & Hin & Ha) & Hkeep).
    destruct (IH _ Hact') as (Hact'' & Hkeep' & Hall).
    split; [exact Hact''|]. split; [intros x Hx; apply Hkeep', Hkeep, Hx|].
    intros email [<-|Hemail]; [|exact (Hall email Hemail)].
    exists a. split; [apply Hkeep'; exact Hin|exact Ha].
Qed.

Lemma findFirst_some (d : Db) (monitored : list string) (a : EmailAccount) :
  all_active d -> In a (emailAccounts d) -> In (ea_email a) monitored ->
  exists account, emailAccount_findFirst d monitored = Some account.
Proof.
  intros Hact Hin Hmon. unfold emailAccount_findFirst.
  destruct (List.find _ (emailAccounts d)) as [account|] eqn:Hf; [eexists; reflexivity|].
  pose proof (proj1 (find_none_iff _ _) Hf a Hin) as Hno. cbn beta in Hno.
  rewrite (Hact a Hin), andb_true_r in Hno.
  assert (existsb (String.eqb (ea_email a)) monitored = true) as He.
  { apply existsb_exists. exists (ea_email a). split; [exact Hmon|apply String.eqb_refl]. }
  congruence.
Qed.

Lemma local_mode_account (userId : string) (env_value : option string) (d : Db) :
  all_active d ->
  exists account,
    emailAccount_findFirst
      (fold_left (fun d email => emailAccount_upsert d userId email)
                 (MONITORED_EMAILS env_value) d)
      (MONITORED_EMAILS env_value) = Some account.
Proof.
  intros Hact.
  destruct (upsert_all_accounts userId (MONITORED_EMAILS env_value) d Hact)
    as (Hact' & _ & Hall).
  destruct (MONITORED_EMAILS env_value) as [|e rest] eqn:Hm.
  - exfalso. exact (split_on_nonempty _ _ Hm).
  - destruct (Hall e (or_introl eq_refl)) as (a & Hin & Ha).
    apply (findFirst_some _ _ a Hact' Hin). rewrite Ha. left. reflexivity.
Qed.

Lemma upsert_findFirst (d : Db) (userId email : string) (monitored : list string)
    (account : EmailAccount) :
  emailAccount_findFirst d monitored = Some account ->
  emailAccount_findFirst (emailAccount_upsert d userId email) monitored = Some account.
Proof.
  intros H. unfold emailAccount_upsert. destruct (existsb _ (emailAccounts d)); [exact H|].
  unfold emailAccount_findFirst in *. cbn [emailAccounts].
  rewrite find_app_first, H. reflexivity.
Qed.

Lemma ensure_accounts_findFirst (userId : string) (monitored emails listed : list string)
    (d : Db) (account : EmailAccount) :
  emailAccount_findFirst d monitored = Some account ->
  emailAccount_findFirst (ensure_accounts userId listed emails d) monitored = Some account.
Proof.
  unfold ensure_accounts. revert d.
  induction emails as [|e emails IH]; intros d H; [exact H|].
  cbn [fold_left]. apply IH. destruct (existsb _ listed); [|exact H].
  apply upsert_findFirst, H.
Qed.

(** A POST with one import of a message that is not staged, sent with the
    key of a server that has a user and an active account of a monitored
    address, stores the import as a pending row. *)
Lemma post_import_stores (env : ServerEnv) (apiKey userId : string)
    (imp : PreClassifiedImport) (s : ServerState) (account : EmailAccount) (date : Z) :
  EMAIL_SYNC_API_KEY env = Some apiKey -> apiKey <> "" ->
  firstUser env = Some userId ->
  emailImport_findUnique (db s) (pi_messageId imp) = None ->
  emailAccount_findFirst (db s) (MONITORED_EMAILS (env_MONITORED_EMAILS env)) = Some account ->
  pi_emailDate imp = Some date ->
  exists row,
    emailImports
      (db (fst (endpoint env
                  {| rq_method := POST; rq_apiKey := Some apiKey; rq_messageId := None;
                     rq_body := ImportsBody [imp] |} s)))
    = (emailImports (db s) ++ [row])%list
    /\ ei_messageId row = pi_messageId imp
    /\ ei_status row = "pending"
    /\ ei_classification row = pi_classification imp
    /\ ei_confidence row = pi_confidence imp.
Proof.
  intros Hkey Hne Huser Hnew Hacc Hdate.
  unfold endpoint. cbn [rq_method route_exports].
  unfold route_POST, unauthorized. cbn [rq_apiKey rq_body]. rewrite Hkey.
  assert (Ht : truthy_str (Some apiKey) = true).
  { cbn [truthy_str]. destruct (String.eqb_spec apiKey ""); [contradiction|reflexivity]. }
  rewrite Ht. cbn [negb]. rewrite bool_decide_eq_true_2 by reflexivity. cbn [negb].
  rewrite Huser. unfold handlePreClassifiedImports. cbn [fold_left].
  set (monitored := MONITORED_EMAILS (env_MONITORED_EMAILS env)) in *.
  set (d0 := ensure_accounts userId monitored (uniqueEmails [imp]) (db s)).
  assert (Hrows : emailImports d0 = emailImports (db s)) by apply ensure_accounts_rows.
  assert (Hnew0 : emailImport_findUnique d0 (pi_messageId imp) = None).
  { unfold emailImport_findUnique in *. rewrite Hrows. exact Hnew. }
  assert (Hacc0 : emailAccount_findFirst d0 monitored = Some account)
    by apply ensure_accounts_findFirst, Hacc.
  unfold import_one. rewrite Hnew0, Hacc0.
  match goal with
  | |- context [emailImport_create ?d ?data] =>
      destruct (create_new d data date Hdate Hnew0)
        as (d' & row & -> & Hr & Hid & Hst & Hcl & Hco)
  end.
  cbn [fst db]. exists row. rewrite Hr, Hrows. repeat split; assumption.
Qed.

Lemma sendToServer_stores (env : ServerEnv) (apiKey userId : string)
    (imp : PreClassifiedImport) (s : ServerState) (account : EmailAccount) (date : Z) :
  EMAIL_SYNC_API_KEY env = Some apiKey -> apiKey <> "" ->
  firstUser env = Some userId ->
  emailImport_findUnique (db s) (pi_messageId imp) = None ->
  emailAccount_findFirst (db s) (MONITORED_EMAILS (env_MONITORED_EMAILS env)) = Some account ->
  pi_emailDate imp = Some date ->
  exists row,
    emailImports (db (fst (sendToServer true env apiKey [imp] s)))
    = (emailImports (db s) ++ [row])%list
    /\ ei_messageId row = pi_messageId imp
    /\ ei_status row = "pending"
    /\ ei_classification row = pi_classification imp
    /\ ei_confidence row = pi_confidence imp.
Proof.
  intros Hkey Hne Huser Hnew Hacc Hdate.
  pose proof (post_import_stores env apiKey userId imp s account date
                Hkey Hne Huser Hnew Hacc Hdate) as H.
  unfold sendToServer, http. destruct (endpoint env _ s) as [s1 r]. exact H.
Qed.

(** C3, on the code.  Both producers decide by the same gate: a new
    message is accepted exactly when its label is not `other` and its
    confidence is at least 0.6 (0.6 passes, 0.59 does not).  What follows
    differs from the claim.  In the server's local mode an accepted message
    is stored as a pending row and a discarded one is not stored, but the
    message is marked only if the tag command runs: the command has the id
    in it without quotes, so for an id in angle brackets it reads
    `... -- id:<...>`, and when the shell refuses it the failure is
    swallowed, nothing is marked and the answer of the route is the same.
    In the local producer an accepted message goes on the list to send and
    is tagged at once; it is stored only if the one request sent at the end
    succeeds, and an unreachable server leaves it tagged and not stored.
    The endpoint itself applies no gate: it stores whatever import it is
    sent. *)
Theorem staging_gate (userId : string) (monitored : list string) :
  passes_gate "interview" num_0_6 = true
  /\ passes_gate "interview" num_0_59 = false
  /\ (forall type confidence,
      passes_gate type confidence = true <->
      type <> "other" /\ Qle num_0_6 confidence)
  /\ (forall s result item parsed account,
      li_parsed item = inl parsed ->
      emailImport_findUnique (db s) (pe_messageId parsed) = None ->
      emailAccount_findFirst (db s) monitored = Some account ->
      let c := classifyEmail parsed (li_llm item) in
      let st' := local_one userId monitored (s, result) item in
      tagged_processed (fst st')
      = (if li_tagged item
         then (tagged_processed s ++ [notmuch_tag_command (pe_messageId parsed)])%list
         else tagged_processed s)
      /\ errors (snd st') = errors result
      /\ if passes_gate (type_name (ec_type c)) (ec_confidence c)
         then (exists row,
                 emailImports (db (fst st')) = (emailImports (db s) ++ [row])%list
                 /\ ei_messageId row = pe_messageId parsed
                 /\ ei_status row = "pending"
                 /\ ei_classification row = type_name (ec_type c)
                 /\ ei_confidence row = ec_confidence c)
              /\ processed (snd st') = S (processed result)
              /\ skipped (snd st') = skipped result
         else db (fst st') = db s
              /\ processed (snd st') = processed result
              /\ skipped (snd st') = S (skipped result))
  /\ (forall env_value s item parsed,
      all_active (db s) ->
      li_parsed item = inl parsed ->
      emailImport_findUnique (db s) (pe_messageId parsed) = None ->
      let c := classifyEmail parsed (li_llm item) in
      let s' := fst (handleLocalMode userId (MONITORED_EMAILS env_value) true [item] s) in
      tagged_processed s'
      = (if li_tagged item
         then (tagged_processed s ++ [notmuch_tag_command (pe_messageId parsed)])%list
         else tagged_processed s)
      /\ if passes_gate (type_name (ec_type c)) (ec_confidence c)
         then exists row,
                emailImports (db s') = (emailImports (db s) ++ [row])%list
                /\ ei_messageId row = pe_messageId parsed
                /\ ei_status row = "pending"
                /\ ei_classification row = type_name (ec_type c)
                /\ ei_confidence row = ec_confidence c
         else emailImports (db s') = emailImports (db s))
  /\ (forall id,
      notmuch_tag_command ("<" +:+ id +:+ ">")
      = "notmuch tag -new +jobsync-processed -- id:<" +:+ id +:+ ">")
  /\ (forall st item parsed c,
      parseEmailFile monitored (ls_file item) (ls_clock item) = Some parsed ->
      classifyWithOllama parsed (ls_llm item) = Some c ->
      let st' := main_one monitored st item in
      ls_tagged st'
      = (if ls_tag_ran item
         then (ls_tagged st ++ [local_tag_command (str (messageId parsed))])%list
         else ls_tagged st)
      /\ if passes_gate (oc_type c) (oc_confidence c)
         then exists imp,
                toSend st' = (toSend st ++ [imp])%list
                /\ pi_messageId imp = str (messageId parsed)
                /\ pi_classification imp = oc_type c
                /\ pi_confidence imp = oc_confidence c
         else toSend st' = toSend st
              /\ ls_skipped st' = S (ls_skipped st))
  /\ (forall reachable env apiKey item parsed c s,
      parseEmailFile monitored (ls_file item) (ls_clock item) = Some parsed ->
      classifyWithOllama parsed (ls_llm item) = Some c ->
      let s' := snd (local_sync_main monitored reachable env apiKey [item] s) in
      if passes_gate (oc_type c) (oc_confidence c)
      then (reachable = false -> s' = s)
           /\ (forall account,
               reachable = true ->
               EMAIL_SYNC_API_KEY env = Some apiKey -> apiKey <> "" ->
               firstUser env = Some userId ->
               emailImport_findUnique (db s) (str (messageId parsed)) = None ->
               emailAccount_findFirst (db s) (MONITORED_EMAILS (env_MONITORED_EMAILS env))
               = Some account ->
               exists row,
                 emailImports (db s') = (emailImports (db s) ++ [row])%list
                 /\ ei_messageId row = str (messageId parsed)
                 /\ ei_status row = "pending"
                 /\ ei_classification row = oc_type c
                 /\ ei_confidence row = oc_confidence c)
      else s' = s)
  /\ (forall d result imp account date,
      emailImport_findUnique d (pi_messageId imp) = None ->
      emailAccount_findFirst d monitored = Some account ->
      pi_emailDate imp = Some date ->
      exists row,
        emailImports (fst (import_one userId monitored (d, result) imp))
        = (emailImports d ++ [row])%list
        /\ ei_messageId row = pi_messageId imp
        /\ ei_status row = "pending"
        /\ ei_classification row = pi_classification imp
        /\ ei_confidence row = pi_confidence imp
        /\ processed (snd (import_one userId monitored (d, result) imp))
           = S (processed result)).
Proof.
  split; [vm_compute; reflexivity|]. split; [vm_compute; reflexivity|].
  split; [|split; [|split; [|split; [|split; [|split]]]]].
  - intros type confidence. unfold passes_gate.
    rewrite andb_true_iff, negb_true_iff, Qle_bool_iff.
    split; intros [H1 H2]; (split; [|exact H2]).
    + intros ->. discriminate H1.
    + destruct (String.eqb_spec type "other"); [contradiction|reflexivity].
  - intros s result item parsed account. apply local_one_gate.
  - intros env_value s item parsed Hact Hparsed Hnew c s'.
    subst s'. unfold handleLocalMode. cbn [negb fold_left].
    set (d0 := fold_left (fun d email => emailAccount_upsert d userId email)
                         (MONITORED_EMAILS env_value) (db s)).
    destruct (local_mode_account userId env_value (db s) Hact) as [account Hacc].
    fold d0 in Hacc.
    assert (Hrows : emailImports d0 = emailImports (db s)) by apply upsert_all_rows.
    assert (Hnew0 : emailImport_findUnique d0 (pe_messageId parsed) = None).
    { unfold emailImport_findUnique in *. rewrite Hrows. exact Hnew. }
    pose proof (local_one_gate userId (MONITORED_EMAILS env_value)
                  {| db := d0; tagged_processed := tagged_processed s |}
                  {| processed := 0; skipped := 0; errors := [] |}
                  item parsed account Hparsed Hnew0 Hacc) as H.
    cbv zeta in H. fold c in H. cbn [db tagged_processed] in H.
    destruct (local_one userId (MONITORED_EMAILS env_value) _ item) as [s1 result1].
    cbn [fst snd] in H |- *. destruct H as (Htag & _ & H). split; [exact Htag|].
    destruct (passes_gate (type_name (ec_type c)) (ec_confidence c)).
    + destruct H as [(row & Hr & Hrest) _]. exists row. rewrite <- Hrows.
      split; [exact Hr|exact Hrest].
    + destruct H as (Hdb & _). rewrite Hdb, Hrows. reflexivity.
  - intros id. reflexivity.
  - intros st item parsed c Hparsed Hc st'. subst st'. unfold main_one.
    rewrite Hparsed, Hc, (local_gate c).
    destruct (passes_gate (oc_type c) (oc_confidence c)); cbn [negb].
    + cbn [ls_tagged toSend]. split; [unfold markEmailProcessed_local; reflexivity|].
      eexists. cbn. repeat split.
    + cbn [ls_tagged toSend ls_skipped].
      split; [unfold markEmailProcessed_local; reflexivity|]. repeat split.
  - intros reachable env apiKey item parsed c s Hparsed Hc s'. subst s'.
    unfold local_sync_main. cbn [fold_left]. unfold main_one.
    rewrite Hparsed, Hc, (local_gate c).
    destruct (passes_gate (oc_type c) (oc_confidence c)); cbn [negb]; [|reflexivity].
    cbn [toSend app snd]. split.
    + intros ->. reflexivity.
    + intros account -> Hkey Hne Huser Hnew Hacc.
      match goal with
      | |- context [sendToServer true env apiKey [?imp] s] =>
          destruct (sendToServer_stores env apiKey userId imp s account (date parsed)
                      Hkey Hne Huser Hnew Hacc eq_refl)
            as (row & Hr & Hid & Hst & Hcl & Hco)
      end.
      exists row. repeat split; assumption.
  - intros d result imp account date Hnew Hacc Hdate. unfold import_one.
    rewrite Hnew, Hacc.
    match goal with
    | |- context [emailImport_create ?d ?data] =>
        destruct (create_new d data date Hdate Hnew)
          as (d' & row & -> & Hrows & Hid & Hst & Hcl & Hco)
    end.
    cbn [fst snd processed]. exists row. repeat split; assumption.
Qed.

Lemma staging_gate_witness :
  (tagged_processed
     (fst (local_one "user-1" (MONITORED_EMAILS None)
             (store_with_account, {| processed := 0; skipped := 0; errors := [] |})
             (answered num_0_59 false))) = []
   /\ errors (snd (local_one "user-1" (MONITORED_EMAILS None)
                     (store_with_account,
                      {| processed := 0; skipped := 0; errors := [] |})
                     (answered num_0_59 false))) = []
   /\ db (fst (local_one "user-1" (MONITORED_EMAILS None)
                 (store_with_account, {| processed := 0; skipped := 0; errors := [] |})
                 (answered num_0_59 false))) = db store_with_account
   /\ processed (snd (local_one "user-1" (MONITORED_EMAILS None)
                        (store_with_account,
                         {| processed := 0; skipped := 0; errors := [] |})
                        (answered num_0_59 false))) = 0%nat
   /\ skipped (snd (local_one "user-1" (MONITORED_EMAILS None)
                      (store_with_account,
                       {| processed := 0; skipped := 0; errors := [] |})
                      (answered num_0_59 false))) = 1%nat)
  /\ (tagged_processed
        (fst (local_one "user-1" (MONITORED_EMAILS None)
                (store_with_account, {| processed := 0; skipped := 0; errors := [] |})
                (answered num_0_6 true)))
      = ["notmuch tag -new +jobsync-processed -- id:<42@acme.example>"]
      /\ errors (snd (local_one "user-1" (MONITORED_EMAILS None)
                        (store_with_account,
                         {| processed := 0; skipped := 0; errors := [] |})
                        (answered num_0_6 true))) = []
      /\ (exists row,
            emailImports (db (fst (local_one "user-1" (MONITORED_EMAILS None)
                                     (store_with_account,
                                      {| processed := 0; skipped := 0; errors := [] |})
                                     (answered num_0_6 true)))) = [row]
            /\ ei_messageId row = "<42@acme.example>"
            /\ ei_status row = "pending"
            /\ ei_classification row = "interview"
            /\ ei_confidence row = num_0_6)
      /\ processed (snd (local_one "user-1" (MONITORED_EMAILS None)
                           (store_with_account,
                            {| processed := 0; skipped := 0; errors := [] |})
                           (answered num_0_6 true))) = 1%nat
      /\ skipped (snd (local_one "user-1" (MONITORED_EMAILS None)
                         (store_with_account,
                          {| processed := 0; skipped := 0; errors := [] |})
                         (answered num_0_6 true))) = 0%nat).
Proof.
  split.
  - exact (proj1 (proj2 (proj2 (proj2 (staging_gate "user-1" (MONITORED_EMAILS None)))))
             store_with_account {| processed := 0; skipped := 0; errors := [] |}
             (answered num_0_59 false) invited
             {| ea_id := 0; ea_userId := "user-1"; ea_email := "j@abaj.ai";
                ea_isActive := true |}
             eq_refl eq_refl eq_refl).
  - exact (proj1 (proj2 (proj2 (proj2 (staging_gate "user-1" (MONITORED_EMAILS None)))))
             store_with_account {| processed := 0; skipped := 0; errors := [] |}
             (answered num_0_6 true) invited
             {| ea_id := 0; ea_userId := "user-1"; ea_email := "j@abaj.ai";
                ea_isActive := true |}
             eq_refl eq_refl eq_refl).
Defined.

(** ** Failures of the language model *)

(** C4 as stated fails on the server: when the model call fails,
    classifyEmail answers a classification of type `other` with confidence
    0, and the local mode then discards the message without staging it and
    hands the command that tags it processed to the shell, whether or not
    that command runs to its end. *)
Lemma classifyEmail_failure_is_other :
  ec_type (classifyEmail invited (GenerateThrows (NetworkError "fetch failed"))) = other
  /\ ec_confidence (classifyEmail invited (GenerateThrows (NetworkError "fetch failed"))) = 0%Q
  /\ tagged_processed
       (fst (local_one "user-1" (MONITORED_EMAILS None)
               (store_with_account, {| processed := 0; skipped := 0; errors := [] |})
               (unanswered true)))
     = ["notmuch tag -new +jobsync-processed -- id:<42@acme.example>"]
  /\ tagged_processed
       (fst (local_one "user-1" (MONITORED_EMAILS None)
               (store_with_account, {| processed := 0; skipped := 0; errors := [] |})
               (unanswered false))) = []
  /\ (forall ran,
      emailImports
        (db (fst (local_one "user-1" (MONITORED_EMAILS None)
                    (store_with_account, {| processed := 0; skipped := 0; errors := [] |})
                    (unanswered ran)))) = []
      /\ snd (local_one "user-1" (MONITORED_EMAILS None)
                (store_with_account, {| processed := 0; skipped := 0; errors := [] |})
                (unanswered ran))
         = {| processed := 0; skipped := 1; errors := [] |}).
Proof.
  split; [vm_compute; reflexivity|]. split; [vm_compute; reflexivity|].
  split; [vm_compute; reflexivity|]. split; [vm_compute; reflexivity|].
  intros [|]; split; vm_compute; reflexivity.
Qed.

Lemma classifyWithOllama_none (email : Email) (llm : fetch_outcome) :
  classifyWithOllama email llm = None <-> ollama_failed llm = true.
Proof.
  unfold classifyWithOllama, ollama_failed.
  destruct llm as [message|status body]; [tauto|].
  destruct (status_ok status); cbn [negb orb]; [|tauto].
  destruct body as [| |[| |type confidence data]]; split; intros H;
    first [reflexivity | discriminate H].
Qed.

(** C4, amended.  In the local sync, classifyWithOllama answers null, and
    throws nothing, exactly when the model gave no usable answer: the
    request failed, the status was not a success, or the body or the
    model's text did not parse to an object; it never substitutes a
    default `other`, which it answers only when the model said so, and
    [main] then leaves the message untagged for a later run.  The server's
    classifyEmail does not throw either, but answers the default of type
    `other` with confidence 0 on any failure. *)
Theorem llm_failure_handling (email : Email) (llm : fetch_outcome) :
  (classifyWithOllama email llm = None <-> ollama_failed llm = true)
  /\ (forall message, classifyWithOllama email (FetchRejects message) = None)
  /\ (forall status body,
      status_ok status = false ->
      classifyWithOllama email (FetchResponse status body) = None)
  /\ (forall status,
      classifyWithOllama email (FetchResponse status BodyNotJson) = None
      /\ classifyWithOllama email (FetchResponse status ResponseNotJson) = None)
  /\ (forall status confidence data,
      status_ok status = true ->
      classifyWithOllama email
        (FetchResponse status (ResponseJson (JsonObject (Some "other") confidence data)))
      = Some {| oc_type := "other"; oc_confidence := or_num confidence num_0_5;
                oc_extractedData := default ∅ data |})
  /\ (forall monitored st item parsed,
      parseEmailFile monitored (ls_file item) (ls_clock item) = Some parsed ->
      ollama_failed (ls_llm item) = true ->
      main_one monitored st item = skip_turn st)
  /\ (forall parsed failure,
      classifyEmail parsed (GenerateThrows failure)
      = {| ec_type := other; ec_confidence := 0;
           ec_reasoning := "Classification failed: " +:+ failure_message failure;
           ec_extractedData :=
             {[ "company" := None; "jobTitle" := None; "location" := None;
                "applicationUrl" := None; "recruiterName" := None;
                "interviewDate" := None; "deadline" := None;
                "salaryRange" := None ]} |}).
Proof.
  split; [apply classifyWithOllama_none|].
  split; [reflexivity|].
  split; [intros status body H; cbn [classifyWithOllama]; rewrite H; reflexivity|].
  split; [intros status; cbn [classifyWithOllama];
          destruct (status_ok status); split; reflexivity|].
  split; [intros status confidence data H; cbn [classifyWithOllama]; rewrite H;
          reflexivity|].
  split; [|reflexivity].
  intros monitored st item parsed Hparsed Hfail. unfold main_one.
  rewrite Hparsed, (proj2 (classifyWithOllama_none parsed (ls_llm item)) Hfail).
  reflexivity.
Qed.

Lemma llm_failure_handling_witness :
  ollama_failed (ls_llm model_down) = true
  /\ main_one (MONITORED_EMAILS None)
       {| toSend := []; ls_processed := 0; ls_skipped := 0; ls_jobRelated := 0;
          ls_tagged := [] |} model_down
     = {| toSend := []; ls_processed := 0; ls_skipped := 1; ls_jobRelated := 0;
          ls_tagged := [] |}.
Proof.
  split; [reflexivity|].
  assert (Hp : exists parsed,
            parseEmailFile (MONITORED_EMAILS None) (ls_file model_down) (ls_clock model_down)
            = Some parsed) by (eexists; reflexivity).
  destruct Hp as [parsed Hp].
  exact (proj1 (proj2 (proj2 (proj2 (proj2 (proj2
           (llm_failure_handling parsed (ls_llm model_down)))))))
           (MONITORED_EMAILS None) _ model_down parsed Hp eq_refl).
Defined.

(** ** The high-variance partition *)











(** ** Generated message identifiers *)

Lemma string_of_uint_delimited (d1 d2 : Decimal.uint) (r1 r2 : string) :
  NilEmpty.string_of_uint d1 +:+ String "-" r1
  = NilEmpty.string_of_uint d2 +:+ String "-" r2 ->
  d1 = d2 /\ r1 = r2.
Proof.
  revert d2. induction d1 as [|d1 IH|d1 IH|d1 IH|d1 IH|d1 IH|d1 IH|d1 IH|d1 IH|d1 IH|d1 IH];
    intros [|d2|d2|d2|d2|d2|d2|d2|d2|d2|d2];
    cbn [NilEmpty.string_of_uint String.append]; intros H;
    try discriminate H;
    try (injection H as H; destruct (IH d2 H) as [-> ->]; split; reflexivity).
  injection H as ->. split; reflexivity.
Qed.

Lemma generated_messageId_inj (c1 c2 : Clock) :
  generated_messageId c1 = generated_messageId c2 ->
  dateNow c1 = dateNow c2 /\ mathRandom c1 = mathRandom c2.
Proof.
  unfold generated_messageId, string_of_N. intros H.
  cbn [String.append] in H. injection H as H.
  apply string_of_uint_delimited in H as [Hd Hr]. split; [|exact Hr].
  rewrite <- (DecimalN.Unsigned.of_to (dateNow c1)), <- (DecimalN.Unsigned.of_to (dateNow c2)).
  rewrite Hd. reflexivity.
Qed.

Lemma create_new_accounts (d : Db) (data : CreateData) (date : Z) :
  cd_emailDate data = Some date ->
  emailImport_findUnique d (cd_messageId data) = None ->
  exists d' row,
    emailImport_create d data = inl d'
    /\ emailAccounts d' = emailAccounts d
    /\ emailImports d' = (emailImports d ++ [row])%list
    /\ ei_messageId row = cd_messageId data.
Proof.
  intros Hdate Hnew. apply findUnique_staged in Hnew. unfold staged in Hnew.
  unfold emailImport_create. rewrite Hdate, Hnew.
  eexists. eexists. split; [reflexivity|]. cbn. split; [reflexivity|]. split; reflexivity.
Qed.

Lemma import_one_new (userId : string) (monitored : list string) (d : Db)
    (result : SyncResult) (imp : PreClassifiedImport) (account : EmailAccount) (date : Z) :
  emailImport_findUnique d (pi_messageId imp) = None ->
  emailAccount_findFirst d monitored = Some account ->
  pi_emailDate imp = Some date ->
  exists d' row,
    import_one userId monitored (d, result) imp
    = (d', {| processed := S (processed result); skipped := skipped result;
              errors := errors result |})
    /\ emailAccounts d' = emailAccounts d
    /\ emailImports d' = (emailImports d ++ [row])%list
    /\ ei_messageId row = pi_messageId imp.
Proof.
  intros Hnew Hacc Hdate. unfold import_one. rewrite Hnew, Hacc.
  match goal with
  | |- context [emailImport_create ?d ?data] =>
      destruct (create_new_accounts d data date Hdate Hnew)
        as (d' & row & -> & Haccs & Hrows & Hid)
  end.
  exists d', row. split; [reflexivity|]. split; [exact Haccs|]. split; assumption.
Qed.

(** C10.  For a file without a Message-ID the local parser builds the
    messageId from the clock reading and the random draw of that parse:
    two parses of the same file whose reading or draw differ give
    different messageIds, and the endpoint, which detects duplicates by
    messageId, stores an import for each of them. *)
Theorem generated_messageId_not_deduplicated (monitored : list string)
    (file : ParsedMail) (c1 c2 : Clock) :
  truthy_str (pm_messageId file) = false ->
  (dateNow c1, mathRandom c1) <> (dateNow c2, mathRandom c2) ->
  exists parsed1 parsed2,
    parseEmailFile monitored (Some file) c1 = Some parsed1
    /\ parseEmailFile monitored (Some file) c2 = Some parsed2
    /\ messageId parsed1
       = Some ("generated-" +:+ string_of_N (dateNow c1) +:+ "-" +:+ mathRandom c1)
    /\ messageId parsed2
       = Some ("generated-" +:+ string_of_N (dateNow c2) +:+ "-" +:+ mathRandom c2)
    /\ messageId parsed1 <> messageId parsed2
    /\ (forall userId watched d result imp1 imp2 account date1 date2,
        pi_messageId imp1 = str (messageId parsed1) ->
        pi_messageId imp2 = str (messageId parsed2) ->
        pi_emailDate imp1 = Some date1 ->
        pi_emailDate imp2 = Some date2 ->
        emailAccount_findFirst d watched = Some account ->
        staged d (pi_messageId imp1) = false ->
        staged d (pi_messageId imp2) = false ->
        let st := fold_left (import_one userId watched) [imp1; imp2] (d, result) in
        processed (snd st) = S (S (processed result))
        /\ skipped (snd st) = skipped result
        /\ staged (fst st) (pi_messageId imp1) = true
        /\ staged (fst st) (pi_messageId imp2) = true
        /\ length (emailImports (fst st)) = S (S (length (emailImports d)))).
Proof.
  intros Hno Hdiff.
  assert (Hid : forall c, or_str (pm_messageId file) (generated_messageId c)
                          = generated_messageId c).
  { intros c. unfold or_str. rewrite Hno. reflexivity. }
  assert (Hne : generated_messageId c1 <> generated_messageId c2).
  { intros H. apply generated_messageId_inj in H as [H1 H2]. apply Hdiff.
    rewrite H1, H2. reflexivity. }
  eexists. eexists. split; [reflexivity|]. split; [reflexivity|].
  cbn [messageId]. rewrite !Hid. split; [reflexivity|]. split; [reflexivity|].
  split; [intros H; apply Hne; exact (f_equal str H)|].
  cbn [str default from_option id].
  intros userId watched d result imp1 imp2 account date1 date2
         Hid1 Hid2 Hd1 Hd2 Hacc Hs1 Hs2.
  cbv zeta. cbn [fold_left].
  destruct (import_one_new userId watched d result imp1 account date1
              (proj2 (findUnique_staged _ _) Hs1) Hacc Hd1)
    as (d1 & row1 & -> & Haccs1 & Hrows1 & Hrow1).
  assert (Hs2' : staged d1 (pi_messageId imp2) = false).
  { unfold staged in *. rewrite Hrows1, existsb_app, Hs2. cbn [existsb orb].
    unfold has_messageId. rewrite Hrow1, Hid1, Hid2.
    destruct (String.eqb_spec (generated_messageId c1) (generated_messageId c2));
      [contradiction|reflexivity]. }
  assert (Hacc1 : emailAccount_findFirst d1 watched = Some account).
  { unfold emailAccount_findFirst in *. rewrite Haccs1. exact Hacc. }
  match goal with
  | |- context [import_one userId watched (d1, ?r) imp2] =>
      destruct (import_one_new userId watched d1 r imp2 account date2
                  (proj2 (findUnique_staged _ _) Hs2') Hacc1 Hd2)
        as (d2 & row2 & -> & Haccs2 & Hrows2 & Hrow2)
  end.
  cbn [fst snd processed skipped]. split; [reflexivity|]. split; [reflexivity|].
  assert (H1 : has_messageId (pi_messageId imp1) row1 = true)
    by (apply has_messageId_true; exact Hrow1).
  assert (H2 : has_messageId (pi_messageId imp2) row2 = true)
    by (apply has_messageId_true; exact Hrow2).
  unfold staged. rewrite Hrows2, Hrows1, !existsb_app, !length_app. cbn [existsb length].
  rewrite H1, H2, !orb_true_r. cbn [orb].
  split; [reflexivity|]. split; [reflexivity|]. lia.
Qed.

Lemma generated_messageId_not_deduplicated_witness :
  messageId <$> parseEmailFile (MONITORED_EMAILS None) (Some headerless) a_clock
  = Some (Some "generated-1700000100000-0.8444218515250481")
  /\ messageId <$> parseEmailFile (MONITORED_EMAILS None) (Some headerless) later_clock
     = Some (Some "generated-1700000900000-0.7579544029403025")
  /\ (exists parsed1 parsed2,
      parseEmailFile (MONITORED_EMAILS None) (Some headerless) a_clock = Some parsed1
      /\ parseEmailFile (MONITORED_EMAILS None) (Some headerless) later_clock = Some parsed2
      /\ processed (snd (fold_left (import_one "user-1" (MONITORED_EMAILS None))
                           [import_of parsed1; import_of parsed2]
                           (db store_with_account,
                            {| processed := 0; skipped := 0; errors := [] |}))) = 2%nat
      /\ length (emailImports
                   (fst (fold_left (import_one "user-1" (MONITORED_EMAILS None))
                           [import_of parsed1; import_of parsed2]
                           (db store_with_account,
                            {| processed := 0; skipped := 0; errors := [] |})))) = 2%nat).
Proof.
  split; [vm_compute; reflexivity|]. split; [vm_compute; reflexivity|].
  destruct (generated_messageId_not_deduplicated (MONITORED_EMAILS None) headerless
              a_clock later_clock eq_refl ltac:(discriminate))
    as (parsed1 & parsed2 & Hp1 & Hp2 & _ & _ & _ & Hstore).
  exists parsed1, parsed2. split; [exact Hp1|]. split; [exact Hp2|].
  assert (Hs1 : staged (db store_with_account) (pi_messageId (import_of parsed1)) = false)
    by reflexivity.
  assert (Hs2 : staged (db store_with_account) (pi_messageId (import_of parsed2)) = false)
    by reflexivity.
  destruct (Hstore "user-1" (MONITORED_EMAILS None) (db store_with_account)
              {| processed := 0; skipped := 0; errors := [] |}
              (import_of parsed1) (import_of parsed2)
              {| ea_id := 0; ea_userId := "user-1"; ea_email := "j@abaj.ai";
                 ea_isActive := true |}
              (date parsed1) (date parsed2) eq_refl eq_refl eq_refl eq_refl eq_refl
              Hs1 Hs2)
    as (Hproc & _ & _ & _ & Hlen).
  split; [exact Hproc|exact Hlen].
Defined.

(* ===================================================================== *)
(** * Further properties                                                  *)
(* ===================================================================== *)

(** ** What the rule engine reads *)

Lemma fields_same (e e' : Email) (rule : Rule) :
  same_view e e' -> header_field rule = true ->
  fields e (field rule) = fields e' (field rule).
Proof.
  intros (Hf & Hs & Hn & _). unfold header_field. cbn [existsb]. rewrite orb_false_r.
  unfold fields.
  destruct (String.eqb (field rule) "from"); [rewrite Hf; reflexivity|].
  destruct (String.eqb (field rule) "subject"); [rewrite Hs; reflexivity|].
  destruct (String.eqb (field rule) "senderName"); [rewrite Hn; reflexivity|].
  discriminate.
Qed.

Lemma check_rules_same (e e' : Email) (type : ctype) (rules : list Rule) :
  same_view e e' -> Forall rule_local rules ->
  check_rules e type rules = check_rules e' type rules.
Proof.
  intros Hv. induction 1 as [|rule rest [Hfield Hcond] _ IH]; [reflexivity|].
  cbn [check_rules]. rewrite (fields_same e e' rule Hv Hfield).
  destruct (RegExp.test _ _); [|exact IH].
  destruct (condition rule) as [cond|] eqn:Hc; [|reflexivity].
  rewrite (Hcond e e' cond Hv eq_refl), IH. reflexivity.
Qed.

Ltac rule_is_local :=
  split; [reflexivity|];
  let e := fresh "e" in let e' := fresh "e'" in let cond := fresh "cond" in
  let Hf := fresh "Hf" in let Hs := fresh "Hs" in let Hn := fresh "Hn" in
  let Hb := fresh "Hb" in let Hc := fresh "Hc" in
  intros e e' cond (Hf & Hs & Hn & Hb) Hc; cbn [condition] in Hc;
  first [discriminate Hc
        | injection Hc as Hc; rewrite <- Hc; cbv beta;
          rewrite ?Hf, ?Hs, ?Hn, ?Hb; reflexivity].

Ltac rules_are_local :=
  repeat (apply Forall_cons_2; [rule_is_local|]); apply Forall_nil_2.

Lemma RULES_other_local : Forall rule_local RULES_other.
Proof. unfold RULES_other. rules_are_local. Qed.

Lemma RULES_interview_local : Forall rule_local RULES_interview.
Proof. unfold RULES_interview. rules_are_local. Qed.
Lemma RULES_rejection_local : Forall rule_local RULES_rejection.
Proof. unfold RULES_rejection. rules_are_local. Qed.
Lemma RULES_job_response_local : Forall rule_local RULES_job_response.
Proof. unfold RULES_job_response. rules_are_local. Qed.
Lemma RULES_follow_up_local : Forall rule_local RULES_follow_up.
Proof. unfold RULES_follow_up. rules_are_local. Qed.

(** X1.  classifyByRules reads four things of a message: the sender address,
    the subject, the sender name and the first 500 code units of the text
    body (the part the side conditions look at).  Two messages that agree on
    these four get the same answer from classifyByRules and so the same
    verdict from isHighVarianceCorrection, whatever their other fields and
    whatever the two labels of the correction. *)
Theorem classifyByRules_reads_headers_and_preview (e e' : Email) :
  from e = from e' -> subject e = subject e' -> fromName e = fromName e' ->
  (substring0 500 <$> textBody e) = (substring0 500 <$> textBody e') ->
  classifyByRules e = classifyByRules e'
  /\ forall originalType correctedType originalType' correctedType',
       isHighVarianceCorrection e originalType correctedType
       = isHighVarianceCorrection e' originalType' correctedType'.
Proof.
  intros Hf Hs Hn Hb.
  assert (Hv : same_view e e') by (repeat split; assumption).
  assert (H : classifyByRules e = classifyByRules e').
  { unfold classifyByRules, checkOrder.
    cbn [check_types CLASSIFICATION_RULES default from_option id].
    rewrite (check_rules_same e e' other _ Hv RULES_other_local),
            (check_rules_same e e' interview _ Hv RULES_interview_local),
            (check_rules_same e e' rejection _ Hv RULES_rejection_local),
            (check_rules_same e e' job_response _ Hv RULES_job_response_local),
            (check_rules_same e e' follow_up _ Hv RULES_follow_up_local).
    reflexivity. }
  split; [exact H|]. intros. unfold isHighVarianceCorrection. rewrite H. reflexivity.
Qed.

Lemma classifyByRules_reads_headers_and_preview_witness :
  classifyByRules github_interview = classifyByRules github_interview_copy.
Proof.
  exact (proj1 (classifyByRules_reads_headers_and_preview github_interview
                  github_interview_copy eq_refl eq_refl eq_refl eq_refl)).
Defined.

(** ** Literal patterns *)

Section LiteralPatterns.

Import RegExp.

Lemma str_append_empty_r (s : string) : s +:+ "" = s.
Proof.
  induction s as [|a s IH]; [reflexivity|].
  change (String a s +:+ "") with (String a (s +:+ "")). rewrite IH. reflexivity.
Qed.

Lemma char_matches_refl (fl : flags) (c : N) : char_matches fl c c = true.
Proof. unfold char_matches. destruct (ignoreCase fl); apply N.eqb_refl. Qed.

Lemma mt_literal (fl : flags) (w rest : string) (r : regex) (st : mstate)
    (k : mstate -> option mstate) :
  ms_rest st = w +:+ rest ->
  mt fl (literal w r) st k = mt fl r (skip_literal w rest st) k.
Proof.
  revert st. induction w as [|a w IH]; intros st Hst; [reflexivity|].
  cbn [literal skip_literal mt]. rewrite Hst.
  change (String a w +:+ rest) with (String a (w +:+ rest)). cbv iota.
  rewrite char_matches_refl. apply IH. reflexivity.
Qed.

Lemma skip_rest (w rest : string) (st : mstate) :
  ms_rest st = w +:+ rest -> ms_rest (skip_literal w rest st) = rest.
Proof.
  revert st. induction w as [|a w IH]; intros st Hst; [exact Hst|].
  cbn [skip_literal]. apply IH. reflexivity.
Qed.

(** A literal anchored at the end is found in every text that ends with it. *)
Lemma search_literal_at_end (fl : flags) (w p : string) (prev : option ascii) (pos : nat) :
  search fl (literal w (RSeq REol REmpty)) prev (p +:+ w) pos <> None.
Proof.
  revert prev pos. induction p as [|a p IH]; intros prev pos.
  - change ("" +:+ w) with w.
    assert (Hm : match_here fl (literal w (RSeq REol REmpty)) prev w pos <> None).
    { unfold match_here.
      rewrite (mt_literal fl w "" (RSeq REol REmpty)) by (symmetry; apply str_append_empty_r).
      cbn [mt]. unfold at_eol.
      rewrite skip_rest by (symmetry; apply str_append_empty_r). discriminate. }
    destruct w; cbn [search];
      destruct (match_here fl _ prev _ pos); congruence.
  - change (String a p +:+ w) with (String a (p +:+ w)). cbn [search].
    destruct (match_here fl _ prev (String a (p +:+ w)) pos); [discriminate|].
    apply IH.
Qed.

Lemma or_str_some (x : string) : or_str (Some x) "" = x.
Proof.
  unfold or_str, truthy_str. destruct (String.eqb_spec x "") as [->|_]; reflexivity.
Qed.

Lemma other_rule_fires (email : Email) (rule : Rule) :
  In rule RULES_other -> rule_fires email rule = true ->
  exists res, classifyByRules email = Some res /\ rr_type res = other.
Proof.
  intros Hin Hf. unfold classifyByRules, checkOrder.
  cbn [check_types CLASSIFICATION_RULES default from_option id].
  rewrite check_rules_find.
  destruct (List.find (rule_fires email) RULES_other) as [r|] eqn:Hfind.
  - eexists. split; reflexivity.
  - rewrite (proj1 (find_none_iff _ _) Hfind rule Hin) in Hf. discriminate.
Qed.

(** X2.  A message whose sender address ends in @github.com, in any letter
    case, is classified `other` by classifyByRules whatever its subject and
    body say. *)
Theorem github_sender_is_other (email : Email) (sender prefix : string) :
  from email = Some sender ->
  toLowerCase sender = prefix +:+ "@github.com" ->
  exists res, classifyByRules email = Some res /\ rr_type res = other.
Proof.
  intros Hfrom Hlow. apply (other_rule_fires email github_rule).
  - unfold RULES_other, github_rule. cbn [In]. do 9 right. left. reflexivity.
  - unfold rule_fires, github_rule. cbn [pattern field condition fields].
    rewrite andb_true_r.
    change (fields email "from") with (Some (or_str (toLowerCase <$> from email) "")).
    rewrite Hfrom. cbn [fmap option_fmap option_map]. rewrite !or_str_some, Hlow.
    unfold RegExp.test, RegExp.exec.
    change (RegExp.compile (rx "@github\.com$" "i"))
      with (literal "@github.com" (RSeq REol REmpty)).
    destruct (search _ _ None (prefix +:+ "@github.com") 0) eqn:Hs; [reflexivity|].
    exfalso. exact (search_literal_at_end _ _ _ _ _ Hs).
Qed.

End LiteralPatterns.

Lemma github_sender_is_other_witness :
  exists res, classifyByRules github_capitals = Some res /\ rr_type res = other.
Proof.
  exact (github_sender_is_other github_capitals "Notifications@GitHub.COM" "notifications"
           eq_refl eq_refl).
Defined.

(** ** More on the merge *)

Lemma filled_truthy (a b : Obj) (k : string) :
  truthy (filled a b k) = truthy (a !! k) || truthy (b !! k).
Proof.
  unfold filled.
  destruct (truthy (b !! k)) eqn:Hb, (truthy (a !! k)) eqn:Ha; cbn; congruence.
Qed.

(** X3.  mergeExtractedData is associative: merging a with b and the result
    with c gives the same object as merging a with the merge of b and c. *)
Theorem mergeExtractedData_assoc (a b c : Obj) :
  mergeExtractedData (mergeExtractedData a b) c
  = mergeExtractedData a (mergeExtractedData b c).
Proof.
  apply map_eq. intros k.
  rewrite !mergeExtractedData_lookup.
  unfold filled at 1 2. rewrite !mergeExtractedData_lookup, !filled_truthy.
  unfold filled.
  destruct (truthy (a !! k)) eqn:Ha, (truthy (b !! k)) eqn:Hb,
           (truthy (c !! k)) eqn:Hc; cbn; reflexivity.
Qed.

(** X4.  Merging the same data a second time changes nothing: merge(merge(a,
    b), b) = merge(a, b), merge(a, a) = a and merge(a, {}) = a; and
    merge({}, b) has exactly the fields of b that hold a non-empty string. *)
Theorem mergeExtractedData_idempotent (a b : Obj) :
  mergeExtractedData (mergeExtractedData a b) b = mergeExtractedData a b
  /\ mergeExtractedData a a = a
  /\ mergeExtractedData a ∅ = a
  /\ (forall k, mergeExtractedData ∅ b !! k
                = if truthy (b !! k) then b !! k else None).
Proof.
  split; [|split; [|split]].
  - apply map_eq. intros k. rewrite !mergeExtractedData_lookup.
    unfold filled at 1. rewrite !mergeExtractedData_lookup, filled_truthy.
    destruct (truthy (b !! k)) eqn:Hb, (truthy (a !! k)) eqn:Ha; cbn; reflexivity.
  - apply map_eq. intros k. rewrite mergeExtractedData_lookup. unfold filled.
    destruct (truthy (a !! k)); reflexivity.
  - apply map_eq. intros k. rewrite mergeExtractedData_lookup. unfold filled.
    rewrite lookup_empty. reflexivity.
  - intros k. rewrite mergeExtractedData_lookup. unfold filled.
    rewrite lookup_empty. cbn. rewrite andb_true_r. reflexivity.
Qed.

(** X5.  A merged result is complete exactly when company and jobTitle are
    each a non-empty string in at least one of the two merged objects;
    needsLLMFallback of the merge is true exactly when one of the two fields
    is a non-empty string in neither. *)
Theorem isExtractionComplete_merge (a b : Obj) :
  isExtractionComplete (mergeExtractedData a b)
  = (truthy (a !! "company") || truthy (b !! "company"))
    && (truthy (a !! "jobTitle") || truthy (b !! "jobTitle"))
  /\ needsLLMFallback (mergeExtractedData a b)
     = (negb (truthy (a !! "company")) && negb (truthy (b !! "company")))
       || (negb (truthy (a !! "jobTitle")) && negb (truthy (b !! "jobTitle"))).
Proof.
  unfold isExtractionComplete, needsLLMFallback.
  rewrite !mergeExtractedData_lookup, !filled_truthy.
  split; [reflexivity|].
  destruct (truthy (a !! "company")), (truthy (b !! "company")),
    (truthy (a !! "jobTitle")), (truthy (b !! "jobTitle")); reflexivity.
Qed.

(** ** Application URLs *)

Lemma match1_truthy (pattern : RegExp.t) (text v : string) :
  match1 pattern text = Some v -> v <> "".
Proof.
  unfold match1. destruct (RegExp.exec pattern text) as [m|]; [|discriminate].
  destruct (RegExp.capture 1 m) as [c|]; cbn; [|discriminate].
  destruct (String.eqb_spec c ""); cbn; [discriminate|]. congruence.
Qed.

Lemma first_url_ok (patterns : list RegExp.t) (text url : string) :
  first_url patterns text = Some url ->
  url_filtered url = false /\ url <> ""
  /\ exists pattern, In pattern patterns /\ match1 pattern text = Some url.
Proof.
  induction patterns as [|p rest IH]; cbn [first_url]; [discriminate|].
  destruct (match1 p text) as [u|] eqn:Hm.
  - match goal with |- context [if ?c then Some u else _] => destruct c eqn:Hf end.
    + intros [= Hu]. subst u. split; [|split].
      * unfold url_filtered.
        rewrite !andb_true_iff, !negb_true_iff in Hf.
        destruct Hf as ((((((-> & ->) & ->) & ->) & ->) & ->) & ->).
        reflexivity.
      * eapply match1_truthy; exact Hm.
      * exists p. split; [left; reflexivity|exact Hm].
    + intros H. destruct (IH H) as (? & ? & q & ? & ?).
      split; [assumption|]. split; [assumption|]. exists q. split; [right|]; assumption.
  - intros H. destruct (IH H) as (? & ? & q & ? & ?).
    split; [assumption|]. split; [assumption|]. exists q. split; [right|]; assumption.
Qed.

(** X6.  A URL that extractApplicationUrl returns is not empty and contains
    none of `unsubscribe`, `tracking`, `.png`, `.jpg`, `.gif`, `privacy` and
    `mailto:`. *)
Theorem extractApplicationUrl_never_filtered (text : option string) (url : string) :
  extractApplicationUrl text = Some url ->
  includes url "unsubscribe" = false /\ includes url "tracking" = false
  /\ includes url ".png" = false /\ includes url ".jpg" = false
  /\ includes url ".gif" = false /\ includes url "privacy" = false
  /\ includes url "mailto:" = false /\ url <> "".
Proof.
  unfold extractApplicationUrl. intros H.
  destruct (first_url_ok _ _ _ H) as (Hf & Hne & _).
  unfold url_filtered in Hf.
  repeat (apply orb_false_iff in Hf; destruct Hf as [Hf ?]).
  repeat split; assumption.
Qed.

Lemma extractApplicationUrl_never_filtered_witness :
  extractApplicationUrl (Some body_with_links) = Some "https://acme.example/careers/42"
  /\ includes "https://acme.example/careers/42" "unsubscribe" = false.
Proof.
  assert (H : extractApplicationUrl (Some body_with_links)
              = Some "https://acme.example/careers/42") by (vm_compute; reflexivity).
  split; [exact H|].
  exact (proj1 (extractApplicationUrl_never_filtered _ _ H)).
Defined.

(** ** Job boards *)

Lemma any_pattern_existsb (test : string -> bool) (patterns : list string) :
  any_pattern test patterns = existsb test patterns.
Proof.
  induction patterns as [|p rest IH]; cbn; [reflexivity|].
  rewrite IH. destruct (test p); reflexivity.
Qed.

Lemma first_entry_none (test : string -> bool) (table : list (string * list string)) :
  first_entry test table = None <->
  forall p, In p (flat_map snd table) -> test p = false.
Proof.
  induction table as [|[name pats] rest IH]; cbn [first_entry flat_map].
  - split; [intros _ p []|reflexivity].
  - rewrite any_pattern_existsb. cbn [snd]. split.
    + destruct (existsb test pats) eqn:He; [discriminate|].
      intros H p [Hp|Hp]%in_app_or.
      * destruct (test p) eqn:Ht; [|reflexivity].
        assert (existsb test pats = true) by (apply existsb_exists; eauto). congruence.
      * apply IH; assumption.
    + intros H. destruct (existsb test pats) eqn:He.
      * apply existsb_exists in He. destruct He as (p & Hp & Ht).
        rewrite H in Ht; [discriminate|]. apply in_or_app. left. exact Hp.
      * apply IH. intros p Hp. apply H. apply in_or_app. right. exact Hp.
Qed.

Lemma first_entry_in (test : string -> bool) (table : list (string * list string)) (name : string) :
  first_entry test table = Some name ->
  exists pats p, In (name, pats) table /\ In p pats /\ test p = true.
Proof.
  induction table as [|[n pats] rest IH]; cbn [first_entry]; [discriminate|].
  rewrite any_pattern_existsb. destruct (existsb test pats) eqn:He.
  - intros [= <-]. apply existsb_exists in He. destruct He as (p & Hp & Ht).
    exists pats, p. split; [left; reflexivity|]. split; assumption.
  - intros H. destruct (IH H) as (ps & p & Hin & Hp & Ht).
    exists ps, p. split; [right; exact Hin|]. split; assumption.
Qed.

Lemma detectSource_unfold (email : Email) :
  detectSource email
  = match first_entry (fun p => includes (sender_text email) p
                                || includes (subject_text email) p) JOB_SOURCES with
    | Some source => Some source
    | None => first_entry (fun p => includes (body_text email) p) JOB_SOURCES
    end.
Proof. reflexivity. Qed.

(** X7.  detectSource returns null exactly when no marker of JOB_SOURCES
    occurs in the lower-cased sender, subject or body; a source it returns
    has one of its own markers in one of the three. *)
Theorem detectSource_null_iff (email : Email) :
  (detectSource email = None <->
   forall p, In p source_markers ->
     includes (sender_text email) p = false
     /\ includes (subject_text email) p = false
     /\ includes (body_text email) p = false)
  /\ (forall source, detectSource email = Some source ->
      exists pats p, In (source, pats) JOB_SOURCES /\ In p pats
        /\ (includes (sender_text email) p || includes (subject_text email) p
            || includes (body_text email) p) = true).
Proof.
  rewrite detectSource_unfold. split.
  - destruct (first_entry (fun p => includes (sender_text email) p || _) JOB_SOURCES)
      as [s|] eqn:Hh.
    + split; [discriminate|]. intros H.
      destruct (first_entry_in _ _ _ Hh) as (pats & p & Hin & Hp & Ht).
      assert (Hm : In p source_markers).
      { unfold source_markers. apply in_flat_map. exists (s, pats). split; assumption. }
      destruct (H p Hm) as (H1 & H2 & _). rewrite H1, H2 in Ht. discriminate.
    + rewrite first_entry_none. rewrite first_entry_none in Hh. split.
      * intros Hb p Hp. specialize (Hh p Hp). apply orb_false_iff in Hh.
        destruct Hh. repeat split; try assumption. apply Hb. exact Hp.
      * intros H p Hp. apply (H p Hp).
  - intros source.
    destruct (first_entry (fun p => includes (sender_text email) p || _) JOB_SOURCES)
      as [s|] eqn:Hh.
    + intros [= <-]. destruct (first_entry_in _ _ _ Hh) as (pats & p & Hin & Hp & Ht).
      exists pats, p. rewrite Ht. repeat split; assumption.
    + intros Hb. destruct (first_entry_in _ _ _ Hb) as (pats & p & Hin & Hp & Ht).
      exists pats, p. rewrite Ht, orb_true_r. repeat split; assumption.
Qed.

Lemma detectSource_null_iff_witness :
  exists pats p,
    In ("SEEK", pats) JOB_SOURCES /\ In p pats
    /\ (includes (sender_text seek_mail) p || includes (subject_text seek_mail) p
        || includes (body_text seek_mail) p) = true.
Proof.
  refine (proj2 (detectSource_null_iff seek_mail) "SEEK" _). vm_compute. reflexivity.
Defined.

(** X8.  In detectSource the sender and the subject take precedence over the
    body: when some marker occurs in the sender or in the subject, a message
    with the same sender and subject gets the same source whatever its body
    mentions. *)
Theorem detectSource_header_first (email email' : Email) (p : string) :
  In p source_markers ->
  includes (sender_text email) p || includes (subject_text email) p = true ->
  sender_text email' = sender_text email ->
  subject_text email' = subject_text email ->
  detectSource email' = detectSource email.
Proof.
  intros Hp Hhit Hs Hj. rewrite !detectSource_unfold, Hs, Hj.
  destruct (first_entry (fun p => includes (sender_text email) p || _) JOB_SOURCES)
    as [s|] eqn:Hh; [reflexivity|].
  rewrite first_entry_none in Hh. rewrite (Hh p Hp) in Hhit. discriminate.
Qed.

Lemma detectSource_header_first_witness :
  detectSource seek_mail_about_linkedin = detectSource seek_mail.
Proof.
  refine (detectSource_header_first seek_mail seek_mail_about_linkedin "seek.com.au" _ _ _ _).
  - left. reflexivity.
  - vm_compute. reflexivity.
  - reflexivity.
  - reflexivity.
Defined.

(** ** Trimming *)

Lemma trimStart_first (s : string) : space_char (first_char (trimStart s)) = false.
Proof.
  induction s as [|a s IH]; cbn [trimStart]; [reflexivity|].
  destruct (is_space (cu a)) eqn:Ha; [exact IH|]. cbn. exact Ha.
Qed.

Lemma trimEnd_last (s : string) : space_char (last_char (trimEnd s)) = false.
Proof.
  induction s as [|a s IH]; cbn [trimEnd]; [reflexivity|].
  destruct (trimEnd s) as [|b t] eqn:Ht.
  - destruct (is_space (cu a)) eqn:Ha; [reflexivity|]. cbn. exact Ha.
  - exact IH.
Qed.

Lemma trimEnd_first (s : string) :
  space_char (first_char s) = false -> first_char (trimEnd s) = first_char s.
Proof.
  destruct s as [|a s]; cbn [trimEnd first_char space_char]; [reflexivity|].
  intros Ha. destruct (trimEnd s); [rewrite Ha|]; reflexivity.
Qed.

Lemma trimStart_id (s : string) :
  space_char (first_char s) = false -> trimStart s = s.
Proof.
  destruct s as [|a s]; cbn; [reflexivity|]. intros ->. reflexivity.
Qed.

Lemma trimEnd_id (s : string) :
  space_char (last_char s) = false -> trimEnd s = s.
Proof.
  induction s as [|a s IH]; [reflexivity|].
  cbn [last_char trimEnd]. destruct s as [|b s].
  - cbn. intros ->. reflexivity.
  - intros H. rewrite (IH H). reflexivity.
Qed.

Lemma trim_outer_space (s : string) : outer_space (trim s) = false.
Proof.
  unfold outer_space, trim. rewrite trimEnd_last, orb_false_r.
  rewrite trimEnd_first; apply trimStart_first.
Qed.

Lemma trim_fixed (s : string) : outer_space s = false -> trim s = s.
Proof.
  unfold outer_space, trim. intros [H1 H2]%orb_false_iff.
  rewrite (trimStart_id _ H1). apply trimEnd_id. exact H2.
Qed.

(** X9.  cleanExtractedValue returns null exactly for a missing or empty
    value; otherwise it returns a string with no white space at either end,
    which trim leaves unchanged. *)
Theorem cleanExtractedValue_trimmed (value : option string) :
  (cleanExtractedValue value = None <-> truthy_str value = false)
  /\ (forall v, cleanExtractedValue value = Some v ->
        outer_space v = false /\ trim v = v).
Proof.
  unfold cleanExtractedValue. destruct (truthy_str value); cbn [negb].
  - split; [split; discriminate|].
    intros v [= <-]. split; [apply trim_outer_space|].
    apply trim_fixed, trim_outer_space.
  - split; [split; reflexivity|]. discriminate.
Qed.

Lemma cleanExtractedValue_trimmed_witness :
  cleanExtractedValue (Some "  Acme Pty Ltd.  ") = Some "Acme"
  /\ outer_space "Acme" = false /\ trim "Acme" = "Acme".
Proof.
  assert (H : cleanExtractedValue (Some "  Acme Pty Ltd.  ") = Some "Acme")
    by (vm_compute; reflexivity).
  split; [exact H|].
  exact (proj2 (cleanExtractedValue_trimmed (Some "  Acme Pty Ltd.  ")) "Acme" H).
Defined.

(** ** The result object of the extraction *)

Lemma dom_assign (k : string) (v : option string) (o : Obj) :
  k ∈ dom o -> dom (assign k v o) = dom o.
Proof.
  intros Hk. unfold assign. rewrite dom_insert_L.
  apply subseteq_union_1_L, singleton_subseteq_l, Hk.
Qed.

Lemma trimmed_value_None : trimmed_value None.
Proof. intros w [=]. Qed.

Lemma cleanExtractedValue_trimmed_value (value : option string) :
  trimmed_value (cleanExtractedValue value).
Proof.
  unfold cleanExtractedValue. destruct (truthy_str value); cbn [negb].
  - intros w [= <-]. apply trim_outer_space.
  - apply trimmed_value_None.
Qed.

Lemma first_cleaned_trimmed_value (patterns : list RegExp.t) (text : string) (v : option string) :
  first_cleaned patterns text = Some v -> trimmed_value v.
Proof.
  induction patterns as [|pattern rest IH]; cbn [first_cleaned]; [discriminate|].
  destruct (match1 pattern text); [|exact IH].
  intros [= <-]. apply cleanExtractedValue_trimmed_value.
Qed.

Lemma extractCompanyFromSender_trimmed_value (email : Email) :
  trimmed_value (extractCompanyFromSender email).
Proof.
  unfold extractCompanyFromSender. cbv zeta.
  destruct (first_cleaned senderPatterns _) eqn:Hf.
  - exact (first_cleaned_trimmed_value _ _ _ Hf).
  - destruct (_ && _); [apply cleanExtractedValue_trimmed_value|apply trimmed_value_None].
Qed.

Lemma extractLocation_trimmed_value (text : option string) : trimmed_value (extractLocation text).
Proof.
  unfold extractLocation. cbv zeta.
  destruct (first_cleaned GENERIC_location _) eqn:Hf.
  - exact (first_cleaned_trimmed_value _ _ _ Hf).
  - apply trimmed_value_None.
Qed.

Lemma result_shape_assign (source : option string) (k : string) (v : option string) (o : Obj) :
  k ∈ EXTRACTED_KEYS -> k <> "source" -> (trimmed_key k -> trimmed_value v) ->
  result_shape source o -> result_shape source (assign k v o).
Proof.
  intros Hk Hne Hv (Hd & Hs & Hc). split; [|split].
  - rewrite dom_assign; [exact Hd|]. rewrite Hd. exact Hk.
  - unfold assign. rewrite lookup_insert_ne; [exact Hs|]. congruence.
  - intros k' v' Hk'. unfold assign.
    destruct (decide (k = k')) as [<-|Hkk].
    + rewrite lookup_insert_eq. intros [= <-]. exact (Hv Hk').
    + rewrite lookup_insert_ne by exact Hkk. apply Hc, Hk'.
Qed.

Lemma keys_in : "company" ∈ EXTRACTED_KEYS /\ "jobTitle" ∈ EXTRACTED_KEYS
  /\ "location" ∈ EXTRACTED_KEYS /\ "applicationUrl" ∈ EXTRACTED_KEYS
  /\ "jobType" ∈ EXTRACTED_KEYS.
Proof. unfold EXTRACTED_KEYS; repeat split; set_solver. Qed.

Lemma not_trimmed_key (k : string) (v : option string) :
  k = "applicationUrl" \/ k = "jobType" -> trimmed_key k -> trimmed_value v.
Proof. intros [-> | ->] [H | [H | H]]; discriminate H. Qed.

Lemma result_shape_init (source : option string) :
  result_shape source
    (assign "source" source
      ({[ "company" := None; "jobTitle" := None; "location" := None;
         "applicationUrl" := None; "source" := None; "jobType" := None ]} : Obj)).
Proof.
  split; [|split].
  - unfold assign, EXTRACTED_KEYS; rewrite !dom_insert_L, dom_singleton_L; set_solver.
  - unfold assign. apply lookup_insert_eq.
  - intros k v [-> | [-> | ->]]; vm_compute; intros [= <-]; apply trimmed_value_None.
Qed.

Ltac shape_side :=
  match goal with
  | H : first_cleaned _ _ = Some ?v |- _ -> trimmed_value ?v =>
      intros _; exact (first_cleaned_trimmed_value _ _ _ H)
  | |- _ -> trimmed_value (extractCompanyFromSender _) =>
      intros _; apply extractCompanyFromSender_trimmed_value
  | |- _ -> trimmed_value (extractLocation _) => intros _; apply extractLocation_trimmed_value
  | |- trimmed_key "applicationUrl" -> _ => apply not_trimmed_key; left; reflexivity
  | |- trimmed_key "jobType" -> _ => apply not_trimmed_key; right; reflexivity
  end.

Ltac shape_step :=
  match goal with
  | |- result_shape _ (assign "source" _ _) => apply result_shape_init
  | |- result_shape _ (assign _ _ _) =>
      apply result_shape_assign; [apply keys_in|discriminate|shape_side|]
  | |- result_shape _ (if ?c then _ else _) => destruct c
  | |- result_shape _ (match ?x with Some _ => _ | None => _ end) => destruct x eqn:?
  end.

Lemma extractByRules_shape (email : Email) :
  result_shape (detectSource email) (extractByRules email).
Proof.
  unfold extractByRules. cbv zeta.
  repeat shape_step.
Qed.

(** X10.  extractByRules returns an object with exactly the six keys
    company, jobTitle, location, applicationUrl, source and jobType; its
    source is the result of detectSource on the message; and a company, job
    title or location it reports has no white space at either end. *)
Theorem extractByRules_fields (email : Email) :
  dom (extractByRules email) = EXTRACTED_KEYS
  /\ extractByRules email !! "source" = Some (detectSource email)
  /\ (forall k v, trimmed_key k -> extractByRules email !! k = Some (Some v) ->
        outer_space v = false /\ trim v = v).
Proof.
  destruct (extractByRules_shape email) as (Hd & Hs & Hc).
  split; [exact Hd|]. split; [exact Hs|].
  intros k v Hk Hv.
  assert (H : outer_space v = false) by exact (Hc k (Some v) Hk Hv v eq_refl).
  split; [exact H|apply trim_fixed, H].
Qed.

(** ** Job types *)

(** X11.  detectJobType returns null exactly when no marker of JOB_TYPES
    occurs in the lower-cased text, and otherwise a type one of whose
    markers occurs.  Markers are searched as substrings and full-time is
    listed first, so a text that contains `ft` (as `software` does) is full-
    time, and a text that contains `pt` is full-time or part-time. *)
Theorem detectJobType_first_listed (text : option string) :
  (detectJobType text = None <->
   forall p, In p type_markers -> includes (toLowerCase (or_str text "")) p = false)
  /\ (forall type, detectJobType text = Some type ->
        exists pats p, In (type, pats) JOB_TYPES /\ In p pats
                       /\ includes (toLowerCase (or_str text "")) p = true)
  /\ (includes (toLowerCase (or_str text "")) "ft" = true ->
      detectJobType text = Some "full-time")
  /\ (includes (toLowerCase (or_str text "")) "pt" = true ->
      detectJobType text = Some "full-time" \/ detectJobType text = Some "part-time").
Proof.
  unfold detectJobType. split; [apply first_entry_none|]. split; [apply first_entry_in|].
  split.
  - intros H. unfold JOB_TYPES. cbn [first_entry any_pattern]. rewrite H.
    destruct (includes _ "full-time"); [reflexivity|].
    destruct (includes _ "full time"); [reflexivity|].
    destruct (includes _ "fulltime"); reflexivity.
  - intros H. unfold JOB_TYPES. cbn [first_entry any_pattern]. rewrite H.
    destruct (includes _ "full-time"); [auto|].
    destruct (includes _ "full time"); [auto|].
    destruct (includes _ "fulltime"); [auto|].
    destruct (includes _ "ft"); [auto|].
    destruct (includes _ "permanent full"); [auto|].
    destruct (includes _ "part-time"); [auto|].
    destruct (includes _ "part time"); [auto|].
    destruct (includes _ "parttime"); auto.
Qed.

Lemma detectJobType_first_listed_witness :
  detectJobType (Some "Software engineer, part time") = Some "full-time".
Proof.
  refine (proj1 (proj2 (proj2 (detectJobType_first_listed _))) _).
  vm_compute. reflexivity.
Defined.

(** ** Splitting *)

Lemma str_append_cons (a : ascii) (s t : string) : String a s +:+ t = String a (s +:+ t).
Proof. reflexivity. Qed.

Lemma split_on_whole (sep : ascii) (s : string) :
  contains_char sep s = false -> split_on sep s = [s].
Proof.
  induction s as [|a s IH]; [reflexivity|]. cbn [contains_char split_on].
  intros [Ha Hs]%orb_false_iff. rewrite Ha, (IH Hs). reflexivity.
Qed.

Lemma split_on_first (sep : ascii) (u rest : string) :
  contains_char sep u = false ->
  split_on sep (u +:+ String sep rest) = u :: split_on sep rest.
Proof.
  induction u as [|a u IH].
  - intros _. change ("" +:+ String sep rest) with (String sep rest).
    cbn [split_on]. rewrite Ascii.eqb_refl. reflexivity.
  - cbn [contains_char]. intros [Ha Hu]%orb_false_iff.
    rewrite str_append_cons. cbn [split_on]. rewrite Ha, (IH Hu). reflexivity.
Qed.

Lemma split_on_two (sep : ascii) (x y : string) :
  exists h1 h2 t, split_on sep (x +:+ String sep y) = h1 :: h2 :: t.
Proof.
  induction x as [|a x (h1 & h2 & t & IH)].
  - change ("" +:+ String sep y) with (String sep y). cbn [split_on].
    rewrite Ascii.eqb_refl. destruct (split_on sep y) as [|h t] eqn:Hs.
    + destruct y; cbn [split_on] in Hs; [discriminate|].
      destruct (Ascii.eqb _ _); [discriminate|]. destruct (split_on sep y); discriminate.
    + eauto.
  - rewrite str_append_cons. cbn [split_on]. rewrite IH.
    destruct (Ascii.eqb a sep); eauto.
Qed.

Lemma split_on_last (sep : ascii) (d n : string) :
  contains_char sep n = false ->
  last (split_on sep (d +:+ String sep n)) = Some n.
Proof.
  intros Hn. induction d as [|a d IH].
  - change ("" +:+ String sep n) with (String sep n). cbn [split_on].
    rewrite Ascii.eqb_refl, (split_on_whole sep n Hn). reflexivity.
  - rewrite str_append_cons. cbn [split_on].
    destruct (split_on_two sep d n) as (h1 & h2 & t & Hs). rewrite Hs in *.
    destruct (Ascii.eqb a sep); exact IH.
Qed.

(** ** Fallback message ids *)

Lemma str_append_length (s t : string) :
  String.length (s +:+ t) = String.length s + String.length t.
Proof.
  induction s as [|a s IH]; [reflexivity|]. rewrite str_append_cons. cbn [String.length].
  rewrite IH. reflexivity.
Qed.

Lemma str_append_cancel_r (s s' t : string) : s +:+ t = s' +:+ t -> s = s'.
Proof.
  revert s'. induction s as [|a s IH]; intros [|a' s'] H.
  - reflexivity.
  - apply (f_equal String.length) in H. rewrite str_append_cons in H.
    cbn [String.length] in H. change ("" +:+ t) with t in H.
    rewrite str_append_length in H. lia.
  - apply (f_equal String.length) in H. rewrite str_append_cons in H.
    cbn [String.length] in H. change ("" +:+ t) with t in H.
    rewrite str_append_length in H. lia.
  - rewrite !str_append_cons in H. injection H as -> H. f_equal. apply IH. exact H.
Qed.

Lemma generateMessageId_of_name (dir name : string) :
  contains_char "/" name = false ->
  Parser.generateMessageId (dir +:+ String "/" name) = "local-" +:+ name +:+ "@jobsync".
Proof.
  intros Hn. unfold Parser.generateMessageId, Parser.pop.
  rewrite (split_on_last "/" dir name Hn), or_str_some. reflexivity.
Qed.

(** X12.  The fallback id of parser.ts is `local-<file name>@jobsync`, the
    file name being what follows the last `/` of the path (the whole path
    when it has none); two paths get the same id exactly when their file
    names are equal, whatever their directories. *)
Theorem generateMessageId_by_file_name (dir dir' name name' : string) :
  contains_char "/" name = false -> contains_char "/" name' = false ->
  Parser.generateMessageId (dir +:+ String "/" name) = "local-" +:+ name +:+ "@jobsync"
  /\ Parser.generateMessageId name = "local-" +:+ name +:+ "@jobsync"
  /\ (Parser.generateMessageId (dir +:+ String "/" name)
      = Parser.generateMessageId (dir' +:+ String "/" name') <-> name = name').
Proof.
  intros Hn Hn'. split; [apply generateMessageId_of_name; exact Hn|]. split.
  - unfold Parser.generateMessageId, Parser.pop.
    rewrite (split_on_whole "/" name Hn). cbn [last]. rewrite or_str_some. reflexivity.
  - rewrite !generateMessageId_of_name by assumption. split; [|intros ->; reflexivity].
    intros H. apply (str_append_cancel_r _ _ "@jobsync").
    apply (String.app_inj "local-"). exact H.
Qed.

Lemma generateMessageId_by_file_name_witness :
  Parser.generateMessageId "/home/j/Maildir/cur/1700000000.M1P2.host:2,S"
  = "local-1700000000.M1P2.host:2,S@jobsync"
  /\ Parser.generateMessageId "/home/j/Maildir/new/1700000000.M1P2.host:2,S"
     = Parser.generateMessageId "/home/j/Maildir/cur/1700000000.M1P2.host:2,S".
Proof.
  split.
  - exact (proj1 (generateMessageId_by_file_name "/home/j/Maildir/cur" "/home/j/Maildir/new"
                    "1700000000.M1P2.host:2,S" "1700000000.M1P2.host:2,S" eq_refl eq_refl)).
  - exact (proj2 (proj2 (proj2 (generateMessageId_by_file_name "/home/j/Maildir/new"
                    "/home/j/Maildir/cur"
                    "1700000000.M1P2.host:2,S" "1700000000.M1P2.host:2,S" eq_refl eq_refl)))
             eq_refl).
Defined.

(** ** Domains *)

Lemma split_on_head (sep : ascii) (d rest : string) :
  contains_char sep d = false ->
  head (split_on sep d) = Some d
  /\ head (split_on sep (d +:+ String sep rest)) = Some d.
Proof.
  intros Hd. rewrite (split_on_whole sep d Hd), (split_on_first sep d rest Hd).
  split; reflexivity.
Qed.

(** X13.  getEmailDomain returns what stands between the first and the
    second `@`: the empty string for an address without `@`, the domain for
    user@domain, and only `domain` for user@domain@rest. *)
Theorem getEmailDomain_cases (user domain rest : string) :
  contains_char "@" user = false -> contains_char "@" domain = false ->
  Parser.getEmailDomain user = ""
  /\ Parser.getEmailDomain (user +:+ String "@" domain) = domain
  /\ Parser.getEmailDomain (user +:+ String "@" (domain +:+ String "@" rest)) = domain.
Proof.
  intros Hu Hd. unfold Parser.getEmailDomain, Parser.second. split; [|split].
  - rewrite (split_on_whole "@" user Hu). reflexivity.
  - rewrite (split_on_first "@" user _ Hu), (split_on_whole "@" domain Hd).
    cbn [lookup list_lookup]. apply or_str_some.
  - rewrite (split_on_first "@" user _ Hu), (split_on_first "@" domain _ Hd).
    cbn [lookup list_lookup]. apply or_str_some.
Qed.

Lemma getEmailDomain_cases_witness :
  Parser.getEmailDomain "people" = ""
  /\ Parser.getEmailDomain "people@acme.example" = "acme.example"
  /\ Parser.getEmailDomain "people@acme.example@relay" = "acme.example".
Proof. exact (getEmailDomain_cases "people" "acme.example" "relay" eq_refl eq_refl). Defined.

Lemma lower_cu_idem (a : ascii) :
  ascii_of_N (lower_cu (cu (ascii_of_N (lower_cu (cu a))))) = ascii_of_N (lower_cu (cu a)).
Proof. destruct a as [[] [] [] [] [] [] [] []]; reflexivity. Qed.

Lemma toLowerCase_idem (s : string) : toLowerCase (toLowerCase s) = toLowerCase s.
Proof.
  induction s as [|a s IH]; [reflexivity|]. cbn [toLowerCase].
  rewrite lower_cu_idem, IH. reflexivity.
Qed.

Lemma toLowerCase_append (s t : string) :
  toLowerCase (s +:+ t) = toLowerCase s +:+ toLowerCase t.
Proof.
  induction s as [|a s IH]; [reflexivity|]. rewrite str_append_cons. cbn [toLowerCase].
  rewrite IH. reflexivity.
Qed.

Lemma startsWith_empty (s : string) : startsWith s "" = true.
Proof. destruct s; reflexivity. Qed.

Lemma startsWith_append (s p t : string) :
  startsWith s p = true -> startsWith (s +:+ t) p = true.
Proof.
  revert s. induction p as [|b p IH]; intros s; [intros _; apply startsWith_empty|].
  destruct s as [|a s]; cbn [startsWith]; [discriminate|].
  rewrite str_append_cons. cbn [startsWith].
  intros [-> H]%andb_true_iff. rewrite (IH s H). reflexivity.
Qed.

Lemma includes_append_r (s p t : string) :
  includes s p = true -> includes (s +:+ t) p = true.
Proof.
  induction s as [|a s IH].
  - cbn [includes]. rewrite orb_false_r. intros H. destruct p; [|discriminate H].
    change ("" +:+ t) with t. destruct t; reflexivity.
  - rewrite str_append_cons. cbn [includes].
    intros [H|H]%orb_true_iff.
    + rewrite <- str_append_cons, (startsWith_append _ _ t H). reflexivity.
    + rewrite (IH H). apply orb_true_r.
Qed.

Lemma includes_append_l (s p t : string) :
  includes s p = true -> includes (t +:+ s) p = true.
Proof.
  intros H. induction t as [|a t IH]; [exact H|].
  rewrite str_append_cons. cbn [includes]. rewrite IH. apply orb_true_r.
Qed.

(** X14.  isJobBoardDomain ignores letter case and tests containment: a
    domain it recognises stays recognised with any text put before and after
    it. *)
Theorem isJobBoardDomain_closed (domain before after : string) :
  Parser.isJobBoardDomain (toLowerCase domain) = Parser.isJobBoardDomain domain
  /\ (Parser.isJobBoardDomain domain = true ->
      Parser.isJobBoardDomain (before +:+ domain +:+ after) = true).
Proof.
  unfold Parser.isJobBoardDomain. rewrite toLowerCase_idem. split; [reflexivity|].
  rewrite !existsb_exists. intros (jbd & Hin & Hinc). exists jbd. split; [exact Hin|].
  rewrite !toLowerCase_append. apply includes_append_l, includes_append_r. exact Hinc.
Qed.

Lemma isJobBoardDomain_closed_witness :
  Parser.isJobBoardDomain "mail.Greenhouse.IO.example.org" = true.
Proof.
  exact (proj2 (isJobBoardDomain_closed "Greenhouse.IO" "mail." ".example.org") eq_refl).
Defined.

(** ** Header-less files in local mode *)

Lemma or_str_falsy (o : option string) (d : string) :
  truthy_str o = false -> or_str o d = d.
Proof. unfold or_str. intros ->. reflexivity. Qed.

(** X15.  Two files without a Message-ID header that have the same file name
    in different directories are parsed to the same messageId
    `local-<name>@jobsync`; once a row with that id is staged, local mode
    counts the other file as skipped and stores nothing for it. *)
Theorem parser_fallback_id_collision (monitored : list string) (dir dir' name : string)
    (file file' : ParsedMail) (now now' : Z) :
  contains_char "/" name = false ->
  truthy_str (pm_messageId file) = false ->
  truthy_str (pm_messageId file') = false ->
  exists parsed parsed',
    Parser.parseEmailFile monitored (dir +:+ String "/" name) (inl file) now = inl parsed
    /\ Parser.parseEmailFile monitored (dir' +:+ String "/" name) (inl file') now' = inl parsed'
    /\ pe_messageId parsed = "local-" +:+ name +:+ "@jobsync"
    /\ pe_messageId parsed' = pe_messageId parsed
    /\ forall userId s result llm tagged,
         staged (db s) (pe_messageId parsed) = true ->
         local_one userId monitored (s, result)
           {| li_filePath := dir' +:+ String "/" name; li_parsed := inl parsed';
              li_llm := llm; li_tagged := tagged |}
         = (s, {| processed := processed result; skipped := S (skipped result);
                  errors := errors result |}).
Proof.
  intros Hn Hf Hf'. eexists _, _. split; [reflexivity|]. split; [reflexivity|].
  cbn [pe_messageId].
  rewrite !or_str_falsy, !generateMessageId_of_name by assumption.
  split; [reflexivity|]. split; [reflexivity|].
  intros userId s result llm tagged Hst. unfold local_one. cbn [li_parsed pe_messageId].
  destruct (emailImport_findUnique (db s) _) eqn:Hfind; [reflexivity|].
  apply findUnique_staged in Hfind. congruence.
Qed.

Lemma parser_fallback_id_collision_witness :
  exists parsed parsed',
    Parser.parseEmailFile (MONITORED_EMAILS None) "/home/j/Maildir/cur/42"
      (inl headerless) 1700000100000 = inl parsed
    /\ Parser.parseEmailFile (MONITORED_EMAILS None) "/home/j/Maildir/.Offers/cur/42"
         (inl headerless_offer) 1700000900000 = inl parsed'
    /\ pe_messageId parsed = "local-42@jobsync"
    /\ pe_messageId parsed' = pe_messageId parsed
    /\ forall userId s result llm tagged,
         staged (db s) (pe_messageId parsed) = true ->
         local_one userId (MONITORED_EMAILS None) (s, result)
           {| li_filePath := "/home/j/Maildir/.Offers/cur/42"; li_parsed := inl parsed';
              li_llm := llm; li_tagged := tagged |}
         = (s, {| processed := processed result; skipped := S (skipped result);
                  errors := errors result |}).
Proof.
  exact (parser_fallback_id_collision (MONITORED_EMAILS None) "/home/j/Maildir/cur"
           "/home/j/Maildir/.Offers/cur" "42" headerless headerless_offer
           1700000100000 1700000900000 eq_refl eq_refl eq_refl).
Defined.

(** ** Text of a message *)

(** X16.  getEmailTextContent returns a non-empty text body unchanged;
    without one it returns a text with no white space at either end, which
    is the empty string when there is no HTML body either.  htmlToText
    always returns a text that trim leaves unchanged. *)
Theorem getEmailTextContent_cases (email : ParsedEmail) :
  (forall text, pe_textBody email = Some text -> text <> "" ->
     Parser.getEmailTextContent email = text)
  /\ (truthy_str (pe_textBody email) = false ->
      outer_space (Parser.getEmailTextContent email) = false
      /\ (truthy_str (pe_htmlBody email) = false -> Parser.getEmailTextContent email = ""))
  /\ forall html, outer_space (Parser.htmlToText html) = false
                  /\ trim (Parser.htmlToText html) = Parser.htmlToText html.
Proof.
  unfold Parser.getEmailTextContent. split; [|split].
  - intros text -> Hne. unfold truthy_str.
    destruct (String.eqb_spec text ""); [contradiction|]. reflexivity.
  - intros ->. destruct (truthy_str (pe_htmlBody email)).
    + split; [apply trim_outer_space|discriminate].
    + split; reflexivity.
  - intros html. unfold Parser.htmlToText.
    split; [apply trim_outer_space|apply trim_fixed, trim_outer_space].
Qed.

Lemma getEmailTextContent_cases_witness :
  Parser.getEmailTextContent invited = "We would like to invite you."
  /\ outer_space (Parser.getEmailTextContent html_only) = false.
Proof.
  split.
  - exact (proj1 (getEmailTextContent_cases invited) _ eq_refl
             ltac:(discriminate)).
  - exact (proj1 (proj1 (proj2 (getEmailTextContent_cases html_only)) eq_refl)).
Defined.

(** ** Who may change the store *)

Lemma unauthorized_none (env : ServerEnv) (req : Request) :
  unauthorized env req = None -> authorised env req.
Proof.
  unfold unauthorized, authorised.
  destruct (truthy_str (EMAIL_SYNC_API_KEY env)); cbn [negb]; [|discriminate].
  destruct (bool_decide_reflect (rq_apiKey req = EMAIL_SYNC_API_KEY env)); cbn [negb];
    [|discriminate].
  intros _. split; [reflexivity|assumption].
Qed.

(** X17.  A request changes the server state only if its method is POST or
    PATCH, an API key is configured and the request carries exactly that
    key.  A POST or PATCH is answered 500 `EMAIL_SYNC_API_KEY not
    configured` when no key is configured and 401 `Unauthorized` when the
    key is wrong or missing, and changes nothing. *)
Theorem store_changes_need_the_key (env : ServerEnv) (req : Request) (s : ServerState) :
  (fst (endpoint env req s) <> s ->
   (rq_method req = POST \/ rq_method req = PATCH) /\ authorised env req)
  /\ (rq_method req = POST \/ rq_method req = PATCH ->
      truthy_str (EMAIL_SYNC_API_KEY env) = false ->
      endpoint env req s
      = (s, {| rs_status := 500; rs_body := ErrorBody "EMAIL_SYNC_API_KEY not configured" |}))
  /\ (rq_method req = POST \/ rq_method req = PATCH ->
      truthy_str (EMAIL_SYNC_API_KEY env) = true ->
      rq_apiKey req <> EMAIL_SYNC_API_KEY env ->
      endpoint env req s
      = (s, {| rs_status := 401; rs_body := ErrorBody "Unauthorized" |})).
Proof.
  split; [|split].
  - unfold endpoint, route_exports. intros Hne.
    destruct (rq_method req) eqn:Hm; try (exfalso; apply Hne; reflexivity).
    + unfold route_POST in Hne.
      destruct (unauthorized env req) eqn:Hu; [exfalso; apply Hne; reflexivity|].
      split; [left; reflexivity|]. apply unauthorized_none. exact Hu.
    + unfold route_PATCH in Hne.
      destruct (unauthorized env req) eqn:Hu; [exfalso; apply Hne; reflexivity|].
      split; [right; reflexivity|]. apply unauthorized_none. exact Hu.
  - intros Hm Hk. unfold endpoint, route_exports.
    destruct Hm as [-> | ->]; unfold route_POST, route_PATCH, unauthorized;
      rewrite Hk; reflexivity.
  - intros Hm Hk Hne. unfold endpoint, route_exports.
    destruct Hm as [-> | ->]; unfold route_POST, route_PATCH, unauthorized;
      rewrite Hk; cbn [negb];
      (destruct (bool_decide_reflect (rq_apiKey req = EMAIL_SYNC_API_KEY env));
       [contradiction|reflexivity]).
Qed.

Lemma store_changes_need_the_key_witness :
  endpoint test_env wrong_key_request store_with_account
  = (store_with_account, {| rs_status := 401; rs_body := ErrorBody "Unauthorized" |}).
Proof.
  refine (proj2 (proj2 (store_changes_need_the_key test_env wrong_key_request
                          store_with_account)) (or_introl eq_refl) eq_refl _).
  discriminate.
Defined.

(** ** The counters of an import *)

Lemma import_one_accounted (userId : string) (monitored : list string) (db0 : Db)
    (n : nat) (st : Db * SyncResult) (imp : PreClassifiedImport) :
  accounted db0 n st -> accounted db0 (S n) (import_one userId monitored st imp).
Proof.
  destruct st as [d result]. intros (Hn & new & Hrows & Hlen & Hall).
  cbn [fst snd] in *. unfold import_one.
  destruct (emailImport_findUnique d (pi_messageId imp)).
  { split; cbn [fst snd processed skipped errors]; [lia|]. exists new. auto. }
  destruct (emailAccount_findFirst d monitored) as [account|].
  2:{ split; cbn [fst snd processed skipped errors]; [rewrite length_app; cbn; lia|].
      exists new. auto. }
  destruct (emailImport_create d _) as [d'|msg] eqn:Hc.
  2:{ split; cbn [fst snd processed skipped errors]; [rewrite length_app; cbn; lia|].
      exists new. auto. }
  split; cbn [fst snd processed skipped errors]; [lia|].
  unfold emailImport_create in Hc. cbn [cd_emailDate cd_messageId] in Hc.
  destruct (pi_emailDate imp); [|discriminate].
  destruct (existsb _ _); [discriminate|]. injection Hc as <-.
  cbn [emailImports]. eexists (new ++ [_])%list. split; [|split].
  - rewrite Hrows, <- app_assoc. reflexivity.
  - rewrite length_app. cbn. lia.
  - apply Forall_app. split; [exact Hall|]. constructor; [|constructor].
    split; reflexivity.
Qed.

Lemma fold_import_accounted (userId : string) (monitored : list string) (db0 : Db)
    (imports : list PreClassifiedImport) (n : nat) (st : Db * SyncResult) :
  accounted db0 n st ->
  accounted db0 (n + length imports) (fold_left (import_one userId monitored) imports st).
Proof.
  revert n st. induction imports as [|imp imports IH]; intros n st H.
  - cbn. rewrite Nat.add_0_r. exact H.
  - cbn [fold_left length]. rewrite Nat.add_succ_r. apply (IH (S n)).
    apply import_one_accounted. exact H.
Qed.

Lemma filter_app_length {A} (f : A -> bool) (l1 l2 : list A) :
  length (List.filter f (l1 ++ l2)) = length (List.filter f l1) + length (List.filter f l2).
Proof. rewrite List.filter_app, length_app. reflexivity. Qed.

(** X18.  handlePreClassifiedImports counts every import once: processed +
    skipped + the number of errors is the number of imports.  It keeps the
    stored rows and appends exactly `processed` rows, each with status
    pending and no job. *)
Theorem handlePreClassifiedImports_accounting (userId : string) (monitored : list string)
    (imports : list PreClassifiedImport) (d : Db) :
  let '(d', result) := handlePreClassifiedImports userId monitored imports d in
  processed result + skipped result + length (errors result) = length imports
  /\ (exists new, emailImports d' = (emailImports d ++ new)%list
                  /\ length new = processed result
                  /\ Forall (fun r => ei_status r = "pending" /\ ei_jobId r = None) new)
  /\ length (emailImports d') = length (emailImports d) + processed result
  /\ pending_rows (emailImports d') = pending_rows (emailImports d) + processed result.
Proof.
  unfold handlePreClassifiedImports.
  pose proof (fold_import_accounted userId monitored
                (ensure_accounts userId monitored (uniqueEmails imports) d) imports 0
                (ensure_accounts userId monitored (uniqueEmails imports) d,
                 {| processed := 0; skipped := 0; errors := [] |})) as H.
  destruct (fold_left _ imports _) as [d' result].
  destruct H as (Hn & new & Hrows & Hlen & Hall).
  { split; [reflexivity|]. exists []. cbn [fst snd]. rewrite app_nil_r.
    repeat split. constructor. }
  cbn [fst snd] in *. rewrite ensure_accounts_rows in Hrows.
  split; [exact Hn|]. split; [exists new; auto|]. split.
  - rewrite Hrows, length_app. lia.
  - unfold pending_rows. rewrite Hrows, filter_app_length. f_equal.
    rewrite <- Hlen. clear -Hall. induction Hall as [|r l [Hr _] _ IH]; [reflexivity|].
    cbn [List.filter]. rewrite Hr. cbn. f_equal. exact IH.
Qed.

(** ** What a correction request may change *)

Lemma relabelled_row_refl (r : EmailImport) : relabelled_row r r.
Proof. destruct r. reflexivity. Qed.

Lemma relabelled_store_refl (d : Db) : relabelled_store d d.
Proof.
  split; [reflexivity|]. split; [reflexivity|].
  induction (emailImports d); constructor; [apply relabelled_row_refl|assumption].
Qed.

Lemma relabelled_row_trans (r1 r2 r3 : EmailImport) :
  relabelled_row r1 r2 -> relabelled_row r2 r3 -> relabelled_row r1 r3.
Proof. unfold relabelled_row. intros -> ->. destruct r1. reflexivity. Qed.

Lemma relabelled_store_trans (d1 d2 d3 : Db) :
  relabelled_store d1 d2 -> relabelled_store d2 d3 -> relabelled_store d1 d3.
Proof.
  intros (Ha & Hn & Hr) (Ha' & Hn' & Hr'). split; [congruence|]. split; [congruence|].
  revert Hr'. generalize (emailImports d3). induction Hr as [|r1 r2 l1 l2 H12 _ IH];
    intros l3 H3; inversion H3; subst; constructor.
  - eapply relabelled_row_trans; eassumption.
  - apply IH. assumption.
Qed.

Lemma update_relabelled (d : Db) (id : nat) (c : string) (now : Z) :
  relabelled_store d (emailImport_update_classification d id c now).
Proof.
  split; [reflexivity|]. split; [reflexivity|].
  cbn [emailImport_update_classification emailImports].
  induction (emailImports d) as [|r l IH]; cbn [map]; constructor; [|exact IH].
  destruct (Nat.eqb (ei_id r) id); [reflexivity|apply relabelled_row_refl].
Qed.

Lemma correct_one_relabelled (now : Z) (st : Db * (nat * nat * list string))
    (correction : Correction) :
  relabelled_store (fst st) (fst (correct_one now st correction)).
Proof.
  destruct st as [d [[updated notFound] errs]]. unfold correct_one.
  destruct (co_messageId correction); [|apply relabelled_store_refl].
  destruct (emailImport_findFirst_any _ _);
    [apply update_relabelled|apply relabelled_store_refl].
Qed.

Lemma route_PATCH_relabelled (env : ServerEnv) (req : Request) (s : ServerState) :
  relabelled_store (db s) (db (fst (route_PATCH env req s)))
  /\ tagged_processed (fst (route_PATCH env req s)) = tagged_processed s.
Proof.
  unfold route_PATCH.
  destruct (unauthorized env req); [split; [apply relabelled_store_refl|reflexivity]|].
  destruct (rq_body req) as [| |corrections|message];
    try (split; [apply relabelled_store_refl|reflexivity]).
  pose proof (correct_all_invariant (fun st => relabelled_store (db s) (fst st))
                (patchClock env) corrections (db s, (0, 0, []))) as H.
  destruct (correct_all _ corrections _) as [d' [[updated notFound] errs]].
  split; [|reflexivity]. cbn [fst db] in *. apply H; [|apply relabelled_store_refl].
  intros now st c Hst. eapply relabelled_store_trans; [exact Hst|].
  apply correct_one_relabelled.
Qed.

Lemma set_classification_twice (c c' : string) (u u' : option Z) (r : EmailImport) :
  set_classification c' u' (set_classification c u r) = set_classification c' u' r.
Proof. reflexivity. Qed.

(** What one turn does to the rows and to the three variables. *)
Lemma correct_one_turn (now : Z) (d : Db) (updated notFound : nat) (errs : list string)
    (correction : Correction) :
  let '(d', (updated', notFound', errs')) :=
    correct_one now (d, (updated, notFound, errs)) correction in
  Forall2 (fun r r' => r' = r
                       \/ r' = set_classification (co_correctedType correction) (Some now) r)
          (emailImports d) (emailImports d')
  /\ updated' + notFound' + length errs' = S (updated + notFound + length errs)
  /\ (exists new,
        errs' = (errs ++ new)%list
        /\ length new = (if bool_decide (co_messageId correction = None) then 1 else 0)
        /\ Forall (eq ("Error updating undefined: " +:+ TypeError_replace_of_undefined)) new).
Proof.
  assert (Hsame : forall l : list EmailImport,
            Forall2 (fun r r' => r' = r
                       \/ r' = set_classification (co_correctedType correction) (Some now) r)
                    l l).
  { induction l; constructor; [left; reflexivity|assumption]. }
  unfold correct_one. destruct (co_messageId correction) as [messageId|].
  - rewrite bool_decide_eq_false_2 by discriminate.
    destruct (emailImport_findFirst_any _ _) as [emailImport|].
    + split; [|split; [lia|exists []; rewrite app_nil_r; repeat split; constructor]].
      cbn [emailImport_update_classification emailImports].
      induction (emailImports d) as [|r l IH]; cbn [map]; constructor; [|exact IH].
      destruct (Nat.eqb (ei_id r) (ei_id emailImport)); [right|left]; reflexivity.
    + split; [apply Hsame|].
      split; [lia|exists []; rewrite app_nil_r; repeat split; constructor].
  - rewrite bool_decide_eq_true_2 by reflexivity.
    split; [apply Hsame|]. split; [rewrite length_app; cbn [length]; lia|].
    eexists. split; [reflexivity|]. split; [reflexivity|]. constructor; [reflexivity|constructor].
Qed.

(** The turns of the loop, given with their numbers. *)
Lemma correct_turns (clock : nat -> Z) (turns done : list (nat * Correction))
    (rows : list EmailImport) (d : Db) (updated notFound : nat) (errs : list string) :
  Forall2 (fun r r' =>
             r' = r \/ exists k c, In (k, c) done
                                   /\ r' = set_classification (co_correctedType c)
                                             (Some (clock k)) r)
          rows (emailImports d) ->
  let '(d', (updated', notFound', errs')) :=
    fold_left (fun st kc => correct_one (clock (fst kc)) st (snd kc)) turns
              (d, (updated, notFound, errs)) in
  Forall2 (fun r r' =>
             r' = r \/ exists k c, In (k, c) (done ++ turns)%list
                                   /\ r' = set_classification (co_correctedType c)
                                             (Some (clock k)) r)
          rows (emailImports d')
  /\ updated' + notFound' + length errs' = updated + notFound + length errs + length turns
  /\ (exists new,
        errs' = (errs ++ new)%list
        /\ length new
           = length (List.filter (fun kc => bool_decide (co_messageId (snd kc) = None)) turns)
        /\ Forall (eq ("Error updating undefined: " +:+ TypeError_replace_of_undefined)) new).
Proof.
  revert done d updated notFound errs.
  induction turns as [|[k c] turns IH]; intros done d updated notFound errs Hrows.
  - cbn [fold_left length List.filter]. rewrite app_nil_r.
    split; [exact Hrows|]. split; [lia|].
    exists []. rewrite app_nil_r. repeat split. constructor.
  - cbn [fold_left fst snd].
    pose proof (correct_one_turn (clock k) d updated notFound errs c) as H1.
    destruct (correct_one (clock k) (d, (updated, notFound, errs)) c)
      as [d1 [[u1 n1] e1]].
    destruct H1 as (Hr1 & Hc1 & (new1 & He1 & Hl1 & Hf1)).
    assert (Hrows1 :
      Forall2 (fun r r' =>
                 r' = r \/ exists k' c', In (k', c') (done ++ [(k, c)])%list
                                         /\ r' = set_classification (co_correctedType c')
                                                   (Some (clock k')) r)
              rows (emailImports d1)).
    { clear - Hrows Hr1. revert Hr1. generalize (emailImports d1).
      induction Hrows as [|r r' l l' Hrr _ IHl]; intros l1 H1; inversion H1; subst;
        constructor; [|apply IHl; assumption].
      match goal with H : _ \/ _ |- _ => destruct H as [-> | ->] end.
      - destruct Hrr as [-> | (k' & c' & Hin & ->)]; [left; reflexivity|].
        right. exists k', c'. split; [apply in_app_iff; left; exact Hin|reflexivity].
      - right. exists k, c. split; [apply in_app_iff; right; left; reflexivity|].
        destruct Hrr as [-> | (k' & c' & _ & ->)]; reflexivity. }
    specialize (IH (done ++ [(k, c)])%list d1 u1 n1 e1 Hrows1).
    destruct (fold_left _ turns _) as [d2 [[u2 n2] e2]].
    destruct IH as (Hr2 & Hc2 & (new2 & He2 & Hl2 & Hf2)).
    rewrite <- app_assoc in Hr2. split; [exact Hr2|].
    split; [cbn [length]; lia|].
    exists (new1 ++ new2)%list. rewrite He2, He1, <- app_assoc.
    split; [reflexivity|]. split; [|apply Forall_app; split; assumption].
    rewrite length_app, Hl1, Hl2. cbn [List.filter snd].
    destruct (bool_decide (co_messageId c = None)); cbn [length]; lia.
Qed.

Lemma in_combine_seq {A} (l : list A) (a k : nat) (x : A) :
  In (k, x) (combine (seq a (length l)) l) -> l !! (k - a) = Some x /\ a <= k.
Proof.
  revert a. induction l as [|y l IH]; intros a; cbn [length seq combine]; [intros []|].
  intros [[= <- <-]|H].
  - rewrite Nat.sub_diag. split; [reflexivity|lia].
  - destruct (IH (S a) H) as [Hl Hle]. split; [|lia].
    replace (k - a) with (S (k - S a)) by lia. exact Hl.
Qed.

Lemma filter_combine_seq {A} (f : A -> bool) (l : list A) (a : nat) :
  length (List.filter (fun kc : nat * A => f (snd kc)) (combine (seq a (length l)) l))
  = length (List.filter f l).
Proof.
  revert a. induction l as [|y l IH]; intros a; [reflexivity|].
  cbn [length seq combine List.filter snd]. destruct (f y); cbn [length]; rewrite IH; reflexivity.
Qed.

(** X19.  A PATCH request changes nothing but the classification and the
    updatedAt of stored rows: the accounts, the number and order of the
    rows, their message ids and statuses and the processed tags stay as
    they were.  With the right key and a list of corrections the answer is
    200; a row that changed has the corrected type of one of the
    corrections and the reading of the clock of that turn as its
    updatedAt; every correction is counted once, so that updated +
    notFound + the number of errors is the number of corrections, and the
    errors are one message for each correction that has no messageId.
    With the right key and a body that is not JSON the answer is 500 with
    the message of the parser. *)
Theorem patch_relabels_only (env : ServerEnv) (req : Request) (s : ServerState) :
  rq_method req = PATCH ->
  let '(s', response) := endpoint env req s in
  relabelled_store (db s) (db s')
  /\ tagged_processed s' = tagged_processed s
  /\ length (emailImports (db s')) = length (emailImports (db s))
  /\ map ei_messageId (emailImports (db s')) = map ei_messageId (emailImports (db s))
  /\ map ei_status (emailImports (db s')) = map ei_status (emailImports (db s))
  /\ (forall corrections, authorised env req ->
        rq_body req = CorrectionsRequest corrections ->
        Forall2 (corrected_by (patchClock env) corrections)
                (emailImports (db s)) (emailImports (db s'))
        /\ exists updated notFound errs,
             response
             = {| rs_status := 200; rs_body := CorrectionsBody updated notFound errs |}
             /\ updated + notFound + length errs = length corrections
             /\ length errs
                = length (List.filter (fun c => bool_decide (co_messageId c = None))
                                      corrections)
             /\ Forall (eq ("Error updating undefined: "
                            +:+ TypeError_replace_of_undefined)) errs)
  /\ (forall message, authorised env req ->
        rq_body req = MalformedBody message ->
        s' = s /\ response = {| rs_status := 500; rs_body := ErrorBody message |}).
Proof.
  intros Hm.
  assert (Hkeep : forall d d', relabelled_store d d' ->
            length (emailImports d') = length (emailImports d)
            /\ map ei_messageId (emailImports d') = map ei_messageId (emailImports d)
            /\ map ei_status (emailImports d') = map ei_status (emailImports d)).
  { intros d d' (_ & _ & Hr). induction Hr as [|r r' l l' Hrr _ (IH1 & IH2 & IH3)].
    - repeat split.
    - cbn [length map]. rewrite IH1, IH2, IH3, Hrr. repeat split. }
  pose proof (route_PATCH_relabelled env req s) as [Hrel Htag].
  destruct (Hkeep _ _ Hrel) as (Hlen & Hids & Hsts).
  unfold endpoint, route_exports. rewrite Hm.
  destruct (route_PATCH env req s) as [s' response] eqn:Hroute. cbn [fst] in *.
  split; [exact Hrel|]. split; [exact Htag|]. split; [exact Hlen|].
  split; [exact Hids|]. split; [exact Hsts|].
  assert (Hauth : authorised env req -> unauthorized env req = None).
  { intros [Hk Heq]. unfold unauthorized. rewrite Hk. cbn [negb].
    rewrite bool_decide_eq_true_2 by exact Heq. reflexivity. }
  split.
  - intros corrections Ha Hb. unfold route_PATCH in Hroute.
    rewrite (Hauth Ha), Hb in Hroute. unfold correct_all in Hroute.
    pose proof (correct_turns (patchClock env)
                  (combine (seq 0 (length corrections)) corrections) []
                  (emailImports (db s)) (db s) 0 0 []) as H.
    destruct (fold_left _ (combine _ corrections) _) as [d' [[updated notFound] errs]].
    injection Hroute as <- <-. cbn [db].
    destruct H as (Hrows & Hcount & (new & -> & Hnew & Hall)).
    { clear. generalize (emailImports (db s)). intros l.
      induction l; constructor; [left; reflexivity|assumption]. }
    cbn [app length] in *. split.
    + clear - Hrows. induction Hrows as [|r r' l l' Hrr _ IH]; constructor; [|exact IH].
      unfold corrected_by. destruct Hrr as [-> | (k & c & Hin & ->)]; [left; reflexivity|].
      right. apply in_combine_seq in Hin as [Hl _]. rewrite Nat.sub_0_r in Hl.
      exists k, c. split; [exact Hl|reflexivity].
    + exists updated, notFound, new. split; [reflexivity|].
      rewrite length_combine, length_seq, Nat.min_id in Hcount. split; [lia|].
      split; [|exact Hall]. rewrite Hnew.
      exact (filter_combine_seq (fun c => bool_decide (co_messageId c = None))
                                corrections 0).
  - intros message Ha Hb. unfold route_PATCH in Hroute.
    rewrite (Hauth Ha), Hb in Hroute. injection Hroute as <- <-. split; reflexivity.
Qed.

Lemma patch_relabels_only_witness :
  let '(s', response) := endpoint test_env relabel_request store_with_rejection in
  relabelled_store (db store_with_rejection) (db s')
  /\ emailImports (db s')
     = [set_classification "interview" (Some 1700000200000%Z) rejection_row]
  /\ response
     = {| rs_status := 200;
          rs_body := CorrectionsBody 1 1
            ["Error updating undefined: Cannot read properties of undefined (reading 'replace')"]
       |}.
Proof.
  pose proof (patch_relabels_only test_env relabel_request store_with_rejection eq_refl)
    as H.
  destruct (endpoint test_env relabel_request store_with_rejection) as [s' response] eqn:He.
  destruct H as (Hrel & _).
  split; [exact Hrel|].
  assert (Hv : (s', response)
               = ({| db := {| emailAccounts := emailAccounts (db store_with_rejection);
                              emailImports :=
                                [set_classification "interview" (Some 1700000200000%Z)
                                   rejection_row];
                              next_id := 2 |};
                     tagged_processed := [] |},
                  {| rs_status := 200;
                     rs_body := CorrectionsBody 1 1
                       ["Error updating undefined: Cannot read properties of undefined (reading 'replace')"]
                  |})).
  { rewrite <- He. vm_compute. reflexivity. }
  injection Hv as -> ->. split; reflexivity.
Defined.

(** ** Stored bodies *)

Lemma take_str_length (n : nat) (s : string) : String.length (take_str n s) <= n.
Proof.
  revert s. induction n as [|n IH]; intros [|a s]; cbn [take_str String.length]; try lia.
  specialize (IH s). lia.
Qed.

Lemma substring_or_null_within (n : N) (o : option string) :
  body_within n (substring_or_null n o).
Proof.
  unfold body_within, substring_or_null, or_opt. intros t.
  destruct (truthy_str (substring0 n <$> o)) eqn:Ht; [|discriminate].
  destruct o as [s|]; [|discriminate]. cbn [fmap option_fmap option_map] in *.
  intros [= <-]. split.
  - unfold truthy_str in Ht. destruct (String.eqb_spec (substring0 n s) ""); [discriminate|].
    assumption.
  - unfold substring0. pose proof (take_str_length (N.to_nat n) s). lia.
Qed.

Lemma create_bounded (d d' : Db) (data : CreateData) :
  emailImport_create d data = inl d' ->
  body_within 10000 (cd_bodyText data) -> body_within 50000 (cd_bodyHtml data) ->
  bodies_bounded d -> bodies_bounded d'.
Proof.
  unfold emailImport_create, bodies_bounded.
  destruct (cd_emailDate data); [|discriminate].
  destruct (existsb _ _); [discriminate|].
  intros [= <-] Ht Hh Hb. cbn [emailImports]. apply Forall_app. split; [exact Hb|].
  constructor; [|constructor]. split; assumption.
Qed.

Lemma import_one_bounded (userId : string) (monitored : list string)
    (st : Db * SyncResult) (imp : PreClassifiedImport) :
  bodies_bounded (fst st) -> bodies_bounded (fst (import_one userId monitored st imp)).
Proof.
  destruct st as [d result]. intros Hb. unfold import_one.
  destruct (emailImport_findUnique d (pi_messageId imp)); [exact Hb|].
  destruct (emailAccount_findFirst d monitored); [|exact Hb].
  destruct (emailImport_create d _) eqn:Hc; [|exact Hb].
  apply (create_bounded _ _ _ Hc); [apply substring_or_null_within..|exact Hb].
Qed.

Lemma local_one_bounded (userId : string) (monitored : list string)
    (st : ServerState * SyncResult) (item : LocalItem) :
  bodies_bounded (db (fst st)) ->
  bodies_bounded (db (fst (local_one userId monitored st item))).
Proof.
  destruct st as [s result]. intros Hb. unfold local_one.
  destruct (li_parsed item) as [parsed|]; [|exact Hb].
  destruct (emailImport_findUnique _ _); [exact Hb|].
  destruct (_ || _); [exact Hb|].
  destruct (emailAccount_findFirst _ _); [|exact Hb].
  destruct (emailImport_create _ _) eqn:Hc; [|exact Hb].
  apply (create_bounded _ _ _ Hc); [apply substring_or_null_within..|exact Hb].
Qed.

Lemma fold_left_invariant {S I} (f : S -> I -> S) (P : S -> Prop) (items : list I) (st : S) :
  (forall st i, P st -> P (f st i)) -> P st -> P (fold_left f items st).
Proof.
  intros Hf. revert st. induction items as [|i items IH]; intros st H; [exact H|].
  cbn [fold_left]. apply IH, Hf, H.
Qed.

Lemma relabelled_bounded (d d' : Db) :
  relabelled_store d d' -> bodies_bounded d -> bodies_bounded d'.
Proof.
  intros (_ & _ & Hr). unfold bodies_bounded.
  induction Hr as [|r r' l l' Hrr _ IH]; [trivial|].
  intros Hb. apply Forall_cons in Hb as [Hb Hl]. constructor; [|apply IH; exact Hl].
  rewrite Hrr. exact Hb.
Qed.

(** X20.  Every body the endpoint stores is null or a non-empty text of at
    most 10000 code units (text body) or 50000 code units (HTML body): a
    store with this property keeps it under every request. *)
Theorem endpoint_keeps_bodies_bounded (env : ServerEnv) (req : Request) (s : ServerState) :
  bodies_bounded (db s) -> bodies_bounded (db (fst (endpoint env req s))).
Proof.
  intros Hb. unfold endpoint, route_exports.
  destruct (rq_method req) eqn:Hm; try exact Hb.
  - unfold route_POST. destruct (unauthorized env req); [exact Hb|].
    destruct (firstUser env) as [userId|]; [|exact Hb].
    assert (Hlocal : forall items,
              bodies_bounded (db (fst (handleLocalMode userId
                 (MONITORED_EMAILS (env_MONITORED_EMAILS env)) (notmuchAvailable env)
                 items s)))).
    { intros items. unfold handleLocalMode.
      destruct (notmuchAvailable env); cbn [negb]; [|exact Hb].
      set (d0 := fold_left (fun d email => emailAccount_upsert d userId email) _ (db s)).
      assert (Hb0 : bodies_bounded d0).
      { unfold bodies_bounded, d0. rewrite upsert_all_rows. exact Hb. }
      destruct items as [|item items]; [exact Hb0|].
      pose proof (fold_left_invariant (local_one userId (MONITORED_EMAILS (env_MONITORED_EMAILS env)))
                    (fun st => bodies_bounded (db (fst st))) (item :: items)
                    ({| db := d0; tagged_processed := tagged_processed s |},
                     {| processed := 0; skipped := 0; errors := [] |})
                    (local_one_bounded userId _) Hb0) as H.
      destruct (fold_left _ (item :: items) _) as [s' result]. exact H. }
    destruct (rq_body req) as [|[|imp rest]| |]; try apply Hlocal.
    unfold handlePreClassifiedImports.
    pose proof (fold_left_invariant (import_one userId (MONITORED_EMAILS (env_MONITORED_EMAILS env)))
                  (fun st => bodies_bounded (fst st)) (imp :: rest)
                  (ensure_accounts userId (MONITORED_EMAILS (env_MONITORED_EMAILS env))
                     (uniqueEmails (imp :: rest)) (db s),
                   {| processed := 0; skipped := 0; errors := [] |})
                  (import_one_bounded userId _)) as H.
    destruct (fold_left _ (imp :: rest) _) as [d' result]. apply H.
    unfold bodies_bounded. cbn [fst]. rewrite ensure_accounts_rows. exact Hb.
  - exact (relabelled_bounded _ _ (proj1 (route_PATCH_relabelled env req s)) Hb).
Qed.

Lemma endpoint_keeps_bodies_bounded_witness :
  bodies_bounded (db (fst (endpoint test_env long_import_request store_with_account))).
Proof.
  refine (endpoint_keeps_bodies_bounded test_env long_import_request store_with_account _).
  constructor.
Defined.

(** ** Angle brackets around a message id *)

Section AngleBrackets.

Import RegExp.

Lemma angle_compile : compile (rx "^<|>$" "g") = angle_regex.
Proof. vm_compute. reflexivity. Qed.

Lemma angle_flags_of : flags_of (rx "^<|>$" "g") = angle_flags.
Proof. vm_compute. reflexivity. Qed.

Lemma match_here_inner (a : ascii) (s : string) (pos : nat) :
  match_here angle_flags angle_regex (Some a) s pos
  = match s with
    | String c EmptyString =>
        if (cu c =? 62)%N then Some {| m_start := pos; m_end := S pos; m_caps := [] |}
        else None
    | _ => None
    end.
Proof.
  unfold match_here, angle_regex. cbn [mt]. unfold at_bol, at_eol, char_matches.
  cbn [ms_prev ms_rest angle_flags multiline ignoreCase andb orelse].
  destruct s as [|c [|d s]]; cbn [advance ms_rest ms_pos ms_caps orelse]; [reflexivity| |].
  - rewrite N.eqb_sym. destruct (cu c =? 62)%N; reflexivity.
  - destruct (62 =? cu c)%N; reflexivity.
Qed.

Lemma ends_gt_cons (c : ascii) (s : string) :
  s <> "" -> ends_gt (String c s) = ends_gt s.
Proof. destruct s; [congruence|reflexivity]. Qed.

Lemma search_inner (a : ascii) (s : string) (pos : nat) :
  search angle_flags angle_regex (Some a) s pos
  = if ends_gt s
    then Some {| m_start := pos + String.length s - 1; m_end := pos + String.length s;
                 m_caps := [] |}
    else None.
Proof.
  revert a pos. induction s as [|c s IH]; intros a pos.
  - cbn [search]. rewrite match_here_inner. reflexivity.
  - cbn [search]. rewrite match_here_inner. destruct s as [|d s].
    + unfold ends_gt. cbn [last_char String.length].
      destruct (cu c =? 62)%N.
      * do 2 f_equal; lia.
      * cbn [search]. rewrite match_here_inner. reflexivity.
    + rewrite IH. rewrite (ends_gt_cons c (String d s)) by discriminate.
      destruct (ends_gt (String d s)); [|reflexivity].
      cbn [String.length]. do 2 f_equal; lia.
Qed.

Lemma take_drop_last (s : string) :
  s <> "" -> take_str (String.length s - 1) s = drop_last s.
Proof.
  induction s as [|a s IH]; [congruence|]. intros _.
  destruct s as [|b s]; [reflexivity|].
  cbn [String.length drop_last]. cbn [String.length] in IH.
  replace (S (S (String.length s)) - 1) with (S (S (String.length s) - 1)) by lia.
  cbn [take_str]. rewrite IH by discriminate. reflexivity.
Qed.

Lemma drop_all (s : string) : drop_str (String.length s) s = "".
Proof. induction s as [|a s IH]; [reflexivity|exact IH]. Qed.

Lemma ends_gt_nonempty (s : string) : ends_gt s = true -> s <> "".
Proof. intros H ->. discriminate H. Qed.

Lemma replace_from_empty (fuel : nat) (prev : option ascii) :
  replace_from fuel angle_flags angle_regex "" prev "" = "".
Proof.
  destruct fuel as [|fuel]; [reflexivity|]. cbn [replace_from].
  destruct prev as [a|].
  - rewrite search_inner. reflexivity.
  - reflexivity.
Qed.

Lemma replace_from_inner (fuel : nat) (a : ascii) (s : string) :
  replace_from (S fuel) angle_flags angle_regex "" (Some a) s = strip_gt s.
Proof.
  cbn [replace_from]. rewrite search_inner. unfold strip_gt.
  destruct (ends_gt s) eqn:He; [|reflexivity].
  pose proof (ends_gt_nonempty s He) as Hne.
  cbn [m_start m_end angle_flags global negb Nat.add].
  assert (Hlen : String.length s <> 0) by (destruct s; [congruence|discriminate]).
  destruct (Nat.eqb_spec (String.length s) (String.length s - 1)) as [Heq|_]; [lia|].
  rewrite drop_all, replace_from_empty. rewrite take_drop_last by exact Hne.
  apply str_append_empty_r.
Qed.

Lemma match_here_outer (s : string) :
  match_here angle_flags angle_regex None s 0
  = match s with
    | String c rest =>
        if (cu c =? 60)%N then Some {| m_start := 0; m_end := 1; m_caps := [] |}
        else match rest with
             | EmptyString =>
                 if (cu c =? 62)%N then Some {| m_start := 0; m_end := 1; m_caps := [] |}
                 else None
             | _ => None
             end
    | EmptyString => None
    end.
Proof.
  unfold match_here, angle_regex. cbn [mt]. unfold at_bol, at_eol, char_matches.
  cbn [ms_prev ms_rest angle_flags multiline ignoreCase andb orelse].
  destruct s as [|c [|d s]]; cbn [advance ms_rest ms_pos ms_caps orelse]; [reflexivity| |].
  - rewrite (N.eqb_sym 60), (N.eqb_sym 62).
    destruct (cu c =? 60)%N; [reflexivity|]. cbn [orelse].
    destruct (cu c =? 62)%N; reflexivity.
  - rewrite (N.eqb_sym 60).
    destruct (cu c =? 60)%N; [reflexivity|]. cbn [orelse].
    destruct (62 =? cu c)%N; reflexivity.
Qed.

Lemma replace_angle (s : string) :
  RegExp.replace (rx "^<|>$" "g") "" s = without_angle_brackets s.
Proof.
  unfold RegExp.replace. rewrite angle_compile, angle_flags_of.
  destruct s as [|c s]; [reflexivity|].
  cbn [replace_from search]. rewrite match_here_outer.
  unfold without_angle_brackets.
  destruct (cu c =? 60)%N eqn:H60.
  - cbn [m_start m_end angle_flags global negb Nat.eqb take_str drop_str char_before].
    change (String.length (String c s)) with (S (String.length s)).
    rewrite replace_from_inner. reflexivity.
  - destruct s as [|d s].
    + unfold strip_gt, ends_gt. cbn [last_char]. destruct (cu c =? 62)%N; [reflexivity|].
      cbn [search]. rewrite match_here_inner. reflexivity.
    + rewrite search_inner. unfold strip_gt.
      rewrite (ends_gt_cons c (String d s)) by discriminate.
      destruct (ends_gt (String d s)) eqn:He; [|reflexivity].
      cbn [m_start m_end angle_flags global negb].
      replace (1 + String.length (String d s) - 1) with (String.length (String d s)) by lia.
      replace (1 + String.length (String d s)) with (S (String.length (String d s))) by lia.
      rewrite Nat.eqb_sym. destruct (Nat.eqb_spec (String.length (String d s))
                 (S (String.length (String d s)))) as [Heq|_]; [lia|].
      change (drop_str (S (String.length (String d s))) (String c (String d s)))
        with (drop_str (String.length (String d s)) (String d s)).
      rewrite drop_all, replace_from_empty.
      rewrite !str_append_empty_r.
      rewrite <- (take_drop_last (String c (String d s))) by discriminate.
      reflexivity.
Qed.

Lemma ends_gt_append (s : string) : ends_gt (s +:+ ">") = true.
Proof.
  induction s as [|a s IH]; [reflexivity|]. rewrite str_append_cons.
  rewrite ends_gt_cons; [exact IH|]. destruct s; discriminate.
Qed.

Lemma drop_last_append (s : string) (a : ascii) : drop_last (s +:+ String a "") = s.
Proof.
  induction s as [|b s IH]; [reflexivity|]. rewrite str_append_cons.
  cbn [drop_last]. rewrite IH. destruct s; reflexivity.
Qed.

Lemma without_angle_brackets_wrapped (id : string) :
  without_angle_brackets ("<" +:+ id +:+ ">") = id.
Proof.
  change ("<" +:+ id +:+ ">") with (String "<" (id +:+ ">")).
  unfold without_angle_brackets. cbn [cu N_of_ascii N.eqb Pos.eqb].
  change (cu "<" =? 60)%N with true. cbv iota.
  unfold strip_gt. rewrite ends_gt_append. apply drop_last_append.
Qed.

Lemma without_angle_brackets_bare (id : string) :
  bare_id id = true -> without_angle_brackets id = id.
Proof.
  unfold bare_id. intros [Hs He]%andb_true_iff.
  apply negb_true_iff in Hs, He. unfold without_angle_brackets, strip_gt.
  destruct id as [|c id]; [reflexivity|]. rewrite He.
  cbn [startsWith] in Hs. rewrite startsWith_empty, andb_true_r in Hs.
  destruct (cu c =? 60)%N eqn:Hc; [|reflexivity].
  apply N.eqb_eq in Hc. unfold cu in Hc.
  assert (c = "<"%char) as -> by (rewrite <- (ascii_N_embedding c), Hc; reflexivity).
  discriminate Hs.
Qed.

(** X21.  A correction finds its row whether the message id is sent bare or
    in angle brackets and whether it is stored bare or in angle brackets:
    for an id that neither starts with `<` nor ends with `>`, if either form
    is staged, a correction sent in either form is counted as updated, adds
    no error, and a row with that id gets the corrected classification and
    the time of the update. *)
Theorem patch_accepts_either_form (now : Z) (d : Db) (updated notFound : nat)
    (errors : list string) (id sent original corrected : string) :
  bare_id id = true ->
  sent = id \/ sent = "<" +:+ id +:+ ">" ->
  staged d id = true \/ staged d ("<" +:+ id +:+ ">") = true ->
  exists d' row,
    correct_one now (d, (updated, notFound, errors))
      {| co_messageId := Some sent; co_originalType := original;
         co_correctedType := corrected |}
    = (d', (S updated, notFound, errors))
    /\ In row (emailImports d')
    /\ (ei_messageId row = id \/ ei_messageId row = "<" +:+ id +:+ ">")
    /\ ei_classification row = corrected
    /\ ei_updatedAt row = Some now.
Proof.
  intros Hbare Hsent Hstaged. unfold correct_one. cbn [co_messageId co_correctedType].
  assert (Hclean : RegExp.replace (rx "^<|>$" "g") "" sent = id).
  { rewrite replace_angle. destruct Hsent as [-> | ->].
    - apply without_angle_brackets_bare. exact Hbare.
    - apply without_angle_brackets_wrapped. }
  rewrite Hclean.
  destruct (emailImport_findFirst_any d [id; "<" +:+ id +:+ ">"; sent]) as [r|] eqn:Hf.
  - unfold emailImport_findFirst_any in Hf. apply find_some in Hf as [Hin Hr].
    eexists _, (set_classification corrected (Some now) r). split; [reflexivity|].
    split; [|split; [|split; reflexivity]].
    + cbn [emailImport_update_classification emailImports]. apply in_map_iff.
      exists r. split; [|exact Hin]. rewrite Nat.eqb_refl. reflexivity.
    + cbn [set_classification ei_messageId]. cbn [existsb] in Hr.
      rewrite orb_false_r in Hr.
      destruct Hsent as [-> | ->];
        repeat (apply orb_true_iff in Hr as [Hr|Hr]);
        apply String.eqb_eq in Hr; auto.
  - exfalso. unfold emailImport_findFirst_any in Hf.
    assert (Hex : exists r, In r (emailImports d)
                    /\ (ei_messageId r = id \/ ei_messageId r = "<" +:+ id +:+ ">")).
    { destruct Hstaged as [H|H]; apply existsb_exists in H as (r & Hin & Hr);
        apply has_messageId_true in Hr; eauto. }
    destruct Hex as (r & Hin & Hr).
    pose proof (proj1 (find_none_iff _ _) Hf r Hin) as Hn. cbn [existsb] in Hn.
    destruct Hr as [Hr|Hr]; rewrite Hr, String.eqb_refl in Hn;
      rewrite ?orb_true_r in Hn; discriminate Hn.
Qed.

End AngleBrackets.

Lemma patch_accepts_either_form_witness :
  exists d' row,
    correct_one 1700000200000%Z (db store_with_rejection, (0, 0, []))
      {| co_messageId := Some "7@acme.example"; co_originalType := "rejection";
         co_correctedType := "interview" |}
    = (d', (1, 0, []))
    /\ In row (emailImports d')
    /\ (ei_messageId row = "7@acme.example" \/ ei_messageId row = "<7@acme.example>")
    /\ ei_classification row = "interview"
    /\ ei_updatedAt row = Some 1700000200000%Z.
Proof.
  exact (patch_accepts_either_form 1700000200000%Z (db store_with_rejection) 0 0 []
           "7@acme.example"
           "7@acme.example" "rejection" "interview" eq_refl (or_introl eq_refl)
           (or_intror eq_refl)).
Defined.

(** ** Accounts *)

Lemma accounts_extended_refl (owner : option string) (monitored : list string) (d : Db) :
  accounts_extended owner monitored d d.
Proof. exists []. rewrite app_nil_r. split; [reflexivity|]. split; [constructor|trivial]. Qed.

Lemma accounts_extended_same (owner : option string) (monitored : list string) (d d' : Db) :
  emailAccounts d' = emailAccounts d -> accounts_extended owner monitored d d'.
Proof.
  intros H. exists []. rewrite app_nil_r. split; [exact H|]. split; [constructor|].
  unfold unique_accounts. rewrite H. trivial.
Qed.

Lemma accounts_extended_trans (owner : option string) (monitored : list string)
    (d1 d2 d3 : Db) :
  accounts_extended owner monitored d1 d2 -> accounts_extended owner monitored d2 d3 ->
  accounts_extended owner monitored d1 d3.
Proof.
  intros (n1 & H1 & F1 & U1) (n2 & H2 & F2 & U2). exists (n1 ++ n2)%list.
  split; [rewrite H2, H1, app_assoc; reflexivity|].
  split; [apply Forall_app; split; assumption|]. intros H. apply U2, U1, H.
Qed.

Lemma upsert_extended (userId : string) (monitored : list string) (d : Db) (email : string) :
  In email monitored ->
  accounts_extended (Some userId) monitored d (emailAccount_upsert d userId email).
Proof.
  intros Hm. unfold emailAccount_upsert.
  destruct (existsb _ (emailAccounts d)) eqn:He; [apply accounts_extended_refl|].
  eexists [_]. cbn [emailAccounts]. split; [reflexivity|]. split.
  - constructor; [|constructor]. cbn. repeat split. exact Hm.
  - unfold unique_accounts. cbn [emailAccounts]. rewrite map_app. cbn [map ea_email].
    intros Hu. apply NoDup_snoc; [exact Hu|]. intros Hin.
    apply in_map_iff in Hin as (a & Ha & Hin).
    assert (existsb (fun a => String.eqb (ea_email a) email) (emailAccounts d) = true).
    { apply existsb_exists. exists a. split; [exact Hin|]. apply String.eqb_eq. exact Ha. }
    congruence.
Qed.

Lemma import_one_accounts (userId : string) (monitored : list string)
    (st : Db * SyncResult) (imp : PreClassifiedImport) :
  emailAccounts (fst (import_one userId monitored st imp)) = emailAccounts (fst st).
Proof.
  destruct st as [d result]. unfold import_one.
  destruct (emailImport_findUnique d (pi_messageId imp)); [reflexivity|].
  destruct (emailAccount_findFirst d monitored); [|reflexivity].
  destruct (emailImport_create d _) eqn:Hc; [|reflexivity].
  apply (create_rows _ _ _ Hc).
Qed.

Lemma local_one_accounts (userId : string) (monitored : list string)
    (st : ServerState * SyncResult) (item : LocalItem) :
  emailAccounts (db (fst (local_one userId monitored st item)))
  = emailAccounts (db (fst st)).
Proof.
  destruct st as [s result]. unfold local_one.
  destruct (li_parsed item) as [parsed|]; [|reflexivity].
  destruct (emailImport_findUnique _ _); [reflexivity|].
  destruct (_ || _); [reflexivity|].
  destruct (emailAccount_findFirst _ _); [|reflexivity].
  destruct (emailImport_create _ _) eqn:Hc; [|reflexivity].
  apply (create_rows _ _ _ Hc).
Qed.

Lemma ensure_accounts_extended (userId : string) (monitored emails : list string) (d : Db) :
  accounts_extended (Some userId) monitored d (ensure_accounts userId monitored emails d).
Proof.
  unfold ensure_accounts. revert d. induction emails as [|e emails IH]; intros d.
  - apply accounts_extended_refl.
  - cbn [fold_left]. eapply accounts_extended_trans; [|apply IH].
    destruct (existsb (String.eqb e) monitored) eqn:He; [|apply accounts_extended_refl].
    apply upsert_extended. apply existsb_exists in He as (m & Hm & Heq).
    apply String.eqb_eq in Heq. subst. exact Hm.
Qed.

Lemma upsert_all_extended (userId : string) (monitored emails : list string) (d : Db) :
  (forall e, In e emails -> In e monitored) ->
  accounts_extended (Some userId) monitored d
    (fold_left (fun d email => emailAccount_upsert d userId email) emails d).
Proof.
  revert d. induction emails as [|e emails IH]; intros d Hsub.
  - apply accounts_extended_refl.
  - cbn [fold_left]. eapply accounts_extended_trans.
    + apply upsert_extended. apply Hsub. left. reflexivity.
    + apply IH. intros x Hx. apply Hsub. right. exact Hx.
Qed.

(** X22.  The endpoint never removes or changes an e-mail account: after any
    request the accounts are the former ones followed by new ones, each
    active, owned by the first user and with a monitored address; and
    accounts with pairwise distinct addresses stay pairwise distinct. *)
Theorem endpoint_accounts (env : ServerEnv) (req : Request) (s : ServerState) :
  accounts_extended (firstUser env) (MONITORED_EMAILS (env_MONITORED_EMAILS env))
    (db s) (db (fst (endpoint env req s))).
Proof.
  set (monitored := MONITORED_EMAILS (env_MONITORED_EMAILS env)).
  unfold endpoint, route_exports.
  destruct (rq_method req) eqn:Hm; try apply accounts_extended_refl.
  - unfold route_POST. destruct (unauthorized env req); [apply accounts_extended_refl|].
    destruct (firstUser env) as [userId|]; [|apply accounts_extended_refl].
    fold monitored.
    assert (Hlocal : forall items,
              accounts_extended (Some userId) monitored (db s)
                (db (fst (handleLocalMode userId monitored (notmuchAvailable env) items s)))).
    { intros items. unfold handleLocalMode.
      destruct (notmuchAvailable env); cbn [negb]; [|apply accounts_extended_refl].
      set (d0 := fold_left (fun d email => emailAccount_upsert d userId email) _ (db s)).
      assert (H0 : accounts_extended (Some userId) monitored (db s) d0).
      { apply upsert_all_extended. tauto. }
      destruct items as [|item items]; [exact H0|].
      eapply accounts_extended_trans; [exact H0|]. apply accounts_extended_same.
      pose proof (fold_left_invariant (local_one userId monitored)
                    (fun st => emailAccounts (db (fst st)) = emailAccounts d0) (item :: items)
                    ({| db := d0; tagged_processed := tagged_processed s |},
                     {| processed := 0; skipped := 0; errors := [] |})) as H.
      destruct (fold_left _ (item :: items) _) as [s' result]. apply H; [|reflexivity].
      intros st i Hst. rewrite local_one_accounts. exact Hst. }
    destruct (rq_body req) as [|[|imp rest]| |]; try apply Hlocal.
    unfold handlePreClassifiedImports.
    eapply accounts_extended_trans; [apply (ensure_accounts_extended userId monitored)|].
    apply accounts_extended_same.
    pose proof (fold_left_invariant (import_one userId monitored)
                  (fun st => emailAccounts (fst st)
                             = emailAccounts (ensure_accounts userId monitored
                                                (uniqueEmails (imp :: rest)) (db s)))
                  (imp :: rest)
                  (ensure_accounts userId monitored (uniqueEmails (imp :: rest)) (db s),
                   {| processed := 0; skipped := 0; errors := [] |})) as H.
    destruct (fold_left _ (imp :: rest) _) as [d' result]. apply H; [|reflexivity].
    intros st i Hst. rewrite import_one_accounts. exact Hst.
  - pose proof (route_PATCH_relabelled env req s) as [(Ha & _) _].
    apply accounts_extended_same. exact Ha.
Qed.

(** ** Workers *)

Section RunWithConcurrencyFacts.

Context {A R E : Type}.
Variable items : list A.
Variable fn : option A -> nat -> nat -> R + E.

Lemma iter_push (j : nat) :
  j <= length items ->
  Nat.iter j (push_worker items)
    {| rc_index := 0; rc_completed := 0; rc_results := ∅; rc_workers := [] |}
  = {| rc_index := j; rc_completed := 0; rc_results := (∅ : gmap nat (R + E));
       rc_workers := Awaiting <$> seq 0 j |}.
Proof.
  induction j as [|j IH]; intros Hj; [reflexivity|].
  rewrite Nat.iter_succ, IH by lia. unfold push_worker, worker_enter. cbn [rc_index].
  destruct (Nat.ltb_spec j (length items)); [|lia].
  cbn [rc_index rc_completed rc_results rc_workers]. f_equal.
  rewrite seq_S, fmap_app. reflexivity.
Qed.

Lemma worker_count_le (concurrency : option Z) :
  worker_count items concurrency <= length items.
Proof. unfold worker_count. destruct concurrency; lia. Qed.

Lemma run_start_eq (concurrency : option Z) :
  run_start items concurrency
  = {| rc_index := worker_count items concurrency; rc_completed := 0;
       rc_results := (∅ : gmap nat (R + E));
       rc_workers := Awaiting <$> seq 0 (worker_count items concurrency) |}.
Proof. apply iter_push, worker_count_le. Qed.

Lemma run_inv_start (concurrency : option Z) :
  run_inv items fn (worker_count items concurrency) (run_start items concurrency).
Proof.
  rewrite run_start_eq. pose proof (worker_count_le concurrency) as Hle.
  set (k := worker_count items concurrency) in *.
  assert (Hl : forall w i, (Awaiting <$> seq 0 k) !! w = Some (Awaiting i) -> i = w /\ w < k).
  { intros w i. rewrite list_lookup_fmap. destruct (seq 0 k !! w) as [j|] eqn:Hs; [|discriminate].
    apply lookup_seq in Hs as [-> ?]. intros [= <-]. split; [reflexivity|assumption]. }
  split; cbn [rc_index rc_results rc_workers rc_completed].
  - exact Hle.
  - intros w i [-> ?]%Hl. split; [assumption|apply lookup_empty].
  - intros w w' i [-> ?]%Hl [-> ?]%Hl. reflexivity.
  - intros i Hi. right. exists i. rewrite list_lookup_fmap, lookup_seq_lt by exact Hi.
    reflexivity.
  - intros i v. rewrite lookup_empty. discriminate.
  - intros _ w. rewrite list_lookup_fmap. destruct (seq 0 k !! w); discriminate.
  - rewrite dom_empty_L. apply size_empty.
  - rewrite length_fmap, length_seq. reflexivity.
Qed.

Lemma run_inv_step (k : nat) (st st' : run_state) (w : nat) :
  run_inv items fn k st -> resume items fn w st = Some st' ->
  run_inv items fn k st' /\ rc_completed st' = S (rc_completed st).
Proof.
  intros Hinv. unfold resume.
  destruct (rc_workers st !! w) as [[i|]|] eqn:Hw; [|discriminate|discriminate].
  destruct (inv_await items fn k st Hinv w i Hw) as [Hi Hnone].
  pose proof (lookup_lt_Some _ _ _ Hw) as Hwlt.
  unfold worker_enter. cbn [rc_index].
  destruct (Nat.ltb_spec (rc_index st) (length items)) as [Hlt|Hge]; intros [= <-];
    (split; [|reflexivity]);
    split; cbn [rc_index rc_results rc_workers rc_completed].
  - lia.
  - intros w2 j. destruct (decide (w2 = w)) as [->|Hne].
    + rewrite list_lookup_insert_eq by exact Hwlt. intros [= <-]. split; [lia|].
      rewrite lookup_insert_ne by lia.
      destruct (rc_results st !! rc_index st) as [v|] eqn:Hr; [|reflexivity].
      apply (inv_results items fn k st Hinv) in Hr. lia.
    + rewrite list_lookup_insert_ne by congruence. intros Hw2.
      destruct (inv_await items fn k st Hinv w2 j Hw2) as [Hj Hjn]. split; [lia|].
      rewrite lookup_insert_ne; [exact Hjn|].
      intros ->. apply Hne. exact (inv_inj items fn k st Hinv w2 w j Hw2 Hw).
  - intros w1 w2 j. destruct (decide (w1 = w)) as [->|Hne1], (decide (w2 = w)) as [->|Hne2];
      [reflexivity| | |].
    + rewrite list_lookup_insert_eq by exact Hwlt.
      rewrite list_lookup_insert_ne by congruence. intros [= <-] Hw2.
      apply (inv_await items fn k st Hinv) in Hw2. lia.
    + rewrite list_lookup_insert_ne by congruence.
      rewrite list_lookup_insert_eq by exact Hwlt. intros Hw1 [= <-].
      apply (inv_await items fn k st Hinv) in Hw1. lia.
    + rewrite !list_lookup_insert_ne by congruence. apply (inv_inj items fn k st Hinv).
  - intros j Hj. destruct (decide (j = i)) as [->|Hji].
    { left. apply lookup_insert_eq. }
    rewrite lookup_insert_ne by congruence.
    destruct (decide (j = rc_index st)) as [->|Hjx].
    { right. exists w. apply list_lookup_insert_eq. exact Hwlt. }
    destruct (inv_taken items fn k st Hinv j) as [Hr|[w2 Hw2]]; [lia|left; exact Hr|].
    right. exists w2. rewrite list_lookup_insert_ne; [exact Hw2|].
    intros <-. rewrite Hw in Hw2. congruence.
  - intros j v. destruct (decide (j = i)) as [->|Hji].
    + rewrite lookup_insert_eq. intros [= <-]. split; [lia|reflexivity].
    + rewrite lookup_insert_ne by congruence. intros Hr.
      apply (inv_results items fn k st Hinv) in Hr. split; [lia|apply Hr].
  - intros Hlt' w2. destruct (decide (w2 = w)) as [->|Hne].
    + rewrite list_lookup_insert_eq by exact Hwlt. discriminate.
    + rewrite list_lookup_insert_ne by congruence. apply (inv_busy items fn k st Hinv). lia.
  - rewrite dom_insert_L, size_union, size_singleton, (inv_completed items fn k st Hinv);
      [reflexivity|].
    apply disjoint_singleton_l, not_elem_of_dom. exact Hnone.
  - rewrite length_insert. apply (inv_workers items fn k st Hinv).
  - apply (inv_index items fn k st Hinv).
  - intros w2 j. destruct (decide (w2 = w)) as [->|Hne].
    + rewrite list_lookup_insert_eq by exact Hwlt. discriminate.
    + rewrite list_lookup_insert_ne by congruence. intros Hw2.
      destruct (inv_await items fn k st Hinv w2 j Hw2) as [Hj Hjn]. split; [lia|].
      rewrite lookup_insert_ne; [exact Hjn|].
      intros ->. apply Hne. exact (inv_inj items fn k st Hinv w2 w j Hw2 Hw).
  - intros w1 w2 j. destruct (decide (w1 = w)) as [->|Hne1].
    { rewrite list_lookup_insert_eq by exact Hwlt. discriminate. }
    destruct (decide (w2 = w)) as [->|Hne2].
    { rewrite (list_lookup_insert_eq _ w) by exact Hwlt. intros _. discriminate. }
    rewrite !list_lookup_insert_ne by congruence. apply (inv_inj items fn k st Hinv).
  - intros j Hj. destruct (decide (j = i)) as [->|Hji].
    { left. apply lookup_insert_eq. }
    rewrite lookup_insert_ne by congruence.
    destruct (inv_taken items fn k st Hinv j) as [Hr|[w2 Hw2]]; [lia|left; exact Hr|].
    right. exists w2. rewrite list_lookup_insert_ne; [exact Hw2|].
    intros <-. rewrite Hw in Hw2. congruence.
  - intros j v. destruct (decide (j = i)) as [->|Hji].
    + rewrite lookup_insert_eq. intros [= <-]. split; [lia|reflexivity].
    + rewrite lookup_insert_ne by congruence. apply (inv_results items fn k st Hinv).
  - lia.
  - rewrite dom_insert_L, size_union, size_singleton, (inv_completed items fn k st Hinv);
      [reflexivity|].
    apply disjoint_singleton_l, not_elem_of_dom. exact Hnone.
  - rewrite length_insert. apply (inv_workers items fn k st Hinv).
Qed.

Lemma run_inv_steps (k n : nat) (st0 st : run_state) :
  run_inv items fn k st0 -> nsteps (run_step items fn) n st0 st ->
  run_inv items fn k st /\ rc_completed st = rc_completed st0 + n.
Proof.
  intros Hinv Hsteps. induction Hsteps as [st|n st0 st1 st2 [w Hstep] _ IH].
  - split; [exact Hinv|lia].
  - destruct (run_inv_step k st0 st1 w Hinv Hstep) as [Hinv1 Hc].
    destruct (IH Hinv1) as [Hinv2 Hc2]. split; [exact Hinv2|lia].
Qed.

Lemma run_inv_dom (k : nat) (st : run_state) :
  run_inv items fn k st -> dom (rc_results st) ⊆ (set_seq 0 (rc_index st) : gset nat).
Proof.
  intros Hinv i [v Hv]%elem_of_dom. apply elem_of_set_seq.
  apply (inv_results items fn k st Hinv) in Hv. lia.
Qed.

Lemma run_inv_completed_le (k : nat) (st : run_state) :
  run_inv items fn k st -> rc_completed st <= rc_index st.
Proof.
  intros Hinv. rewrite <- (inv_completed items fn k st Hinv).
  etransitivity; [apply subseteq_size, (run_inv_dom k st Hinv)|].
  rewrite size_set_seq. reflexivity.
Qed.

Lemma worker_cases (w : worker) : w = Returned \/ exists i, w = Awaiting i.
Proof. destruct w as [i|]; [right; exists i|left]; reflexivity. Qed.

Lemma workers_cases (l : list worker) :
  Forall (fun w => w = Returned) l \/ exists w i, l !! w = Some (Awaiting i).
Proof.
  induction l as [|x l [IH|(w & i & Hw)]].
  - left. constructor.
  - destruct (worker_cases x) as [->|[i ->]].
    + left. constructor; [reflexivity|exact IH].
    + right. exists 0, i. reflexivity.
  - right. exists (S w), i. exact Hw.
Qed.

Lemma run_inv_done (k : nat) (st : run_state) :
  run_inv items fn k st -> 1 <= k ->
  (all_returned st <-> rc_completed st = length items).
Proof.
  intros Hinv Hk. pose proof (inv_index items fn k st Hinv) as Hidx.
  pose proof (run_inv_completed_le k st Hinv) as Hle. split.
  - intros Hall.
    assert (Hnone : forall w i, rc_workers st !! w <> Some (Awaiting i)).
    { intros w i Hw. apply (proj1 (Forall_lookup _ _) Hall) in Hw. discriminate. }
    assert (Hfull : rc_index st = length items).
    { destruct (decide (rc_index st < length items)) as [Hlt|]; [|lia].
      destruct (lookup_lt_is_Some_2 (rc_workers st) 0) as [w0 Hw0].
      { rewrite (inv_workers items fn k st Hinv). lia. }
      pose proof (proj1 (Forall_lookup _ _) Hall 0 w0 Hw0) as ->.
      exfalso. exact (inv_busy items fn k st Hinv Hlt 0 Hw0). }
    assert (Hsub : (set_seq 0 (length items) : gset nat) ⊆ dom (rc_results st)).
    { intros i Hi%elem_of_set_seq. apply elem_of_dom.
      destruct (inv_taken items fn k st Hinv i) as [Hr|[w Hw]]; [lia|eauto|].
      exfalso. exact (Hnone w i Hw). }
    apply subseteq_size in Hsub. rewrite size_set_seq, (inv_completed items fn k st Hinv) in Hsub.
    lia.
  - intros Hc. apply Forall_lookup. intros w x Hw.
    destruct (worker_cases x) as [->|[i ->]]; [reflexivity|exfalso].
    destruct (inv_await items fn k st Hinv w i Hw) as [Hi Hnone].
    assert (Heq : dom (rc_results st) = (set_seq 0 (rc_index st) : gset nat)).
    { apply set_subseteq_size_eq; [apply (run_inv_dom k st Hinv)|].
      rewrite size_set_seq, (inv_completed items fn k st Hinv). lia. }
    apply not_elem_of_dom in Hnone. apply Hnone. rewrite Heq.
    apply elem_of_set_seq. lia.
Qed.

Lemma run_inv_results (k : nat) (st : run_state) (i : nat) :
  run_inv items fn k st -> rc_completed st = length items ->
  rc_results st !! i = (fun item => fn (Some item) i (length items)) <$> items !! i.
Proof.
  intros Hinv Hc. pose proof (inv_index items fn k st Hinv) as Hidx.
  pose proof (run_inv_completed_le k st Hinv) as Hle.
  assert (Heq : dom (rc_results st) = (set_seq 0 (rc_index st) : gset nat)).
  { apply set_subseteq_size_eq; [apply (run_inv_dom k st Hinv)|].
    rewrite size_set_seq, (inv_completed items fn k st Hinv). lia. }
  destruct (items !! i) as [item|] eqn:Hi.
  - assert (Hin : i ∈ dom (rc_results st)).
    { rewrite Heq. apply elem_of_set_seq. apply lookup_lt_Some in Hi. lia. }
    apply elem_of_dom in Hin as [v Hv]. rewrite Hv.
    destruct (inv_results items fn k st Hinv i v Hv) as [_ ->]. unfold outcome. rewrite Hi.
    reflexivity.
  - destruct (rc_results st !! i) as [v|] eqn:Hv; [|reflexivity].
    apply (inv_results items fn k st Hinv) in Hv. apply lookup_ge_None in Hi. lia.
Qed.

Lemma run_inv_progress (k : nat) (st : run_state) :
  run_inv items fn k st -> 1 <= k -> rc_completed st < length items ->
  exists st', run_step items fn st st'.
Proof.
  intros Hinv Hk Hlt.
  assert (Hex : exists w i, rc_workers st !! w = Some (Awaiting i)).
  { destruct (workers_cases (rc_workers st)) as [Hall|Hsome]; [|exact Hsome].
    apply (run_inv_done k st Hinv Hk) in Hall. lia. }
  destruct Hex as (w & i & Hw). unfold run_step, resume. exists
    (let st1 :=
       {| rc_index := rc_index st; rc_completed := S (rc_completed st);
          rc_results := <[i := fn (items !! i) i (length items)]> (rc_results st);
          rc_workers := rc_workers st |} in
     let '(st2, w') := worker_enter items st1 in
     {| rc_index := rc_index st2; rc_completed := rc_completed st2;
        rc_results := rc_results st2; rc_workers := <[w := w']> (rc_workers st2) |}).
  exists w. rewrite Hw. cbv zeta. destruct (worker_enter items _). reflexivity.
Qed.

(** X23.  In whatever order the awaited calls settle, after n of them
    runWithConcurrency has completed n items and n is at most the number of
    items.  With at least one worker, all workers have returned exactly when
    every item is completed, an unfinished run can always go on, and the
    finished run holds at every index the outcome of fn for the item at that
    index.  When no worker starts (a concurrency of 0 or less, NaN, or no
    items) nothing is processed and the result stays empty. *)
Theorem runWithConcurrency_every_schedule (concurrency : option Z) (n : nat)
    (st : run_state) :
  nsteps (run_step items fn) n (run_start items concurrency) st ->
  rc_completed st = n /\ n <= length items
  /\ (1 <= worker_count items concurrency ->
      (all_returned st <-> n = length items)
      /\ (n < length items -> exists st', run_step items fn st st')
      /\ (all_returned st -> forall i,
            rc_results st !! i
            = (fun item => fn (Some item) i (length items)) <$> items !! i))
  /\ (worker_count items concurrency = 0 ->
      n = 0 /\ all_returned st /\ rc_results st = ∅).
Proof.
  intros Hsteps.
  destruct (run_inv_steps _ n _ st (run_inv_start concurrency) Hsteps) as [Hinv Hc].
  rewrite run_start_eq in Hc. cbn [rc_completed] in Hc. cbn [Nat.add] in Hc.
  pose proof (run_inv_completed_le _ st Hinv) as Hle.
  pose proof (inv_index items fn _ st Hinv) as Hidx.
  split; [exact Hc|]. split; [lia|]. split.
  - intros Hk. rewrite <- Hc. split; [apply (run_inv_done _ st Hinv Hk)|]. split.
    + apply (run_inv_progress _ st Hinv Hk).
    + intros Hall i. apply (run_inv_results _ st i Hinv).
      apply (run_inv_done _ st Hinv Hk). exact Hall.
  - intros Hk. revert Hsteps. rewrite run_start_eq, Hk. cbn [seq fmap list_fmap].
    intros Hsteps. inversion Hsteps as [|m x y z [w Hstep] Hrest]; subst.
    + split; [reflexivity|]. split; [constructor|reflexivity].
    + unfold resume in Hstep. cbn [rc_workers] in Hstep. rewrite lookup_nil in Hstep.
      discriminate.
Qed.

End RunWithConcurrencyFacts.

Lemma runWithConcurrency_every_schedule_witness :
  rc_completed (run_schedule three_files name_length second_worker_first
                  (run_start three_files (Some 2%Z))) = 3
  /\ rc_results (run_schedule three_files name_length second_worker_first
                   (run_start three_files (Some 2%Z))) !! 2%nat = Some (inl 5).
Proof.
  assert (Hsteps : nsteps (run_step three_files name_length) 3
                     (run_start three_files (Some 2%Z))
                     (run_schedule three_files name_length second_worker_first
                        (run_start three_files (Some 2%Z)))).
  { eapply nsteps_l; [exists 1%nat; reflexivity|].
    eapply nsteps_l; [exists 0%nat; reflexivity|].
    eapply nsteps_l; [exists 1%nat; reflexivity|].
    apply nsteps_O. }
  pose proof (runWithConcurrency_every_schedule three_files name_length (Some 2%Z) 3 _ Hsteps)
    as (Hc & _ & Hrun & _).
  split; [exact Hc|].
  destruct (Hrun ltac:(vm_compute; lia)) as (Hdone & _ & Hres).
  exact (Hres (proj2 Hdone eq_refl) 2%nat).
Defined.

(** ** Few-shot examples *)

Lemma take_str_idem (n : nat) (s : string) : take_str n (take_str n s) = take_str n s.
Proof.
  revert s. induction n as [|n IH]; intros [|a s]; try reflexivity.
  cbn [take_str]. rewrite IH. reflexivity.
Qed.

Lemma fewShotExample_short (i : nat) (c : FewShot) :
  fewShotExample i (short_preview c) = fewShotExample i c.
Proof.
  unfold fewShotExample, short_preview, with_preview.
  cbn [fs_originalType fs_correctedType fs_subject fs_from fs_isOutbound fs_bodyPreview].
  rewrite !or_str_some. unfold substring0. rewrite take_str_idem. reflexivity.
Qed.

Lemma map_indexed_short (i : nat) (cs : list FewShot) :
  map_indexed fewShotExample i (map short_preview cs) = map_indexed fewShotExample i cs.
Proof.
  revert i. induction cs as [|c cs IH]; intros i; [reflexivity|].
  cbn [map map_indexed]. rewrite fewShotExample_short, IH. reflexivity.
Qed.

Lemma slice_from_end_map {A B} (f : A -> B) (n : nat) (xs : list A) :
  slice_from_end n (map f xs) = map f (slice_from_end n xs).
Proof.
  unfold slice_from_end. destruct n; [reflexivity|].
  rewrite length_map, skipn_map. reflexivity.
Qed.

Lemma slice_from_end_app {A} (n : nat) (old recent : list A) :
  1 <= n -> length recent = n -> slice_from_end n (old ++ recent)%list = recent.
Proof.
  intros Hn Hlen. unfold slice_from_end. destruct n; [lia|].
  rewrite length_app, Hlen.
  replace (length old + S n - S n) with (length old + 0) by lia.
  rewrite skipn_app, Nat.add_0_r, skipn_all.
  replace (length old - length old) with 0 by lia. reflexivity.
Qed.

(** X24.  For maxExamples of at least 1, buildFewShotExamples uses only the
    last maxExamples corrections and only the first 500 code units of each
    body preview; it returns the empty string for a missing or empty list
    and a non-empty text otherwise. *)
Theorem buildFewShotExamples_recent (old recent corrections : list FewShot) (n : nat) :
  1 <= n -> length recent = n ->
  buildFewShotExamples (Some (old ++ recent)%list) n = buildFewShotExamples (Some recent) n
  /\ buildFewShotExamples (Some (map short_preview corrections)) n
     = buildFewShotExamples (Some corrections) n
  /\ buildFewShotExamples None n = ""
  /\ buildFewShotExamples (Some []) n = ""
  /\ buildFewShotExamples (Some recent) n <> "".
Proof.
  intros Hn Hlen.
  assert (Hne : recent <> []) by (intros ->; cbn in Hlen; lia).
  split; [|split; [|split; [|split]]]; try reflexivity.
  - unfold buildFewShotExamples.
    destruct (old ++ recent)%list as [|c cs] eqn:Happ.
    { apply app_eq_nil in Happ as [_ ?]. contradiction. }
    rewrite <- Happ, (slice_from_end_app n old recent Hn Hlen).
    pose proof (slice_from_end_app n [] recent Hn Hlen) as Hr. cbn [app] in Hr.
    destruct recent; [contradiction|]. rewrite Hr. reflexivity.
  - unfold buildFewShotExamples. destruct corrections as [|c cs]; [reflexivity|].
    cbn [map]. change (short_preview c :: map short_preview cs)
      with (map short_preview (c :: cs)).
    rewrite slice_from_end_map, map_indexed_short. reflexivity.
  - unfold buildFewShotExamples. destruct recent; [contradiction|]. discriminate.
Qed.

Lemma buildFewShotExamples_recent_witness :
  buildFewShotExamples (Some (older_corrections ++ recent_corrections)%list)
    default_maxExamples
  = buildFewShotExamples (Some recent_corrections) default_maxExamples.
Proof.
  refine (proj1 (buildFewShotExamples_recent older_corrections recent_corrections []
                   default_maxExamples _ eq_refl)).
  unfold default_maxExamples. lia.
Defined.

(** ** The metadata backfill *)

(** X25.  updateEmailImport of the backfill script never updates anything:
    it sends `{updates: [...]}` with PATCH, and the PATCH handler, which
    expects `corrections`, answers 400 to a request with the right key.  So
    the call returns false and the store is unchanged, whatever the key, the
    server and the data. *)
Theorem updateEmailImport_always_refused (reachable : bool) (env : ServerEnv)
    (apiKey : string) (messageId : option string) (extractedData : Obj) (s : ServerState) :
  Backfill.updateEmailImport reachable env apiKey messageId extractedData s = (s, false)
  /\ (reachable = true -> authorised env
        {| rq_method := PATCH; rq_apiKey := Some apiKey; rq_messageId := None;
           rq_body := Backfill.UpdatesBody |} ->
      snd (endpoint env
             {| rq_method := PATCH; rq_apiKey := Some apiKey; rq_messageId := None;
                rq_body := Backfill.UpdatesBody |} s)
      = {| rs_status := 400;
           rs_body := ErrorBody "Invalid request body - expected { corrections: [...] }" |}).
Proof.
  split.
  - unfold Backfill.updateEmailImport. destruct (String.eqb apiKey ""); [reflexivity|].
    unfold http. destruct reachable; [|reflexivity].
    unfold endpoint, route_exports, route_PATCH, unauthorized, Backfill.UpdatesBody.
    cbn [rq_method rq_body rq_apiKey].
    destruct (truthy_str (EMAIL_SYNC_API_KEY env)); cbn [negb]; [|reflexivity].
    destruct (bool_decide _); reflexivity.
  - intros _ [Hk Heq]. cbn [rq_apiKey] in Heq.
    unfold endpoint, route_exports, route_PATCH, unauthorized, Backfill.UpdatesBody.
    cbn [rq_method rq_body rq_apiKey]. rewrite Hk. cbn [negb].
    destruct (bool_decide_reflect (Some apiKey = EMAIL_SYNC_API_KEY env)); [|contradiction].
    reflexivity.
Qed.

Lemma updateEmailImport_always_refused_witness :
  snd (endpoint test_env
         {| rq_method := PATCH; rq_apiKey := Some "secret"; rq_messageId := None;
            rq_body := Backfill.UpdatesBody |} store_with_rejection)
  = {| rs_status := 400;
       rs_body := ErrorBody "Invalid request body - expected { corrections: [...] }" |}.
Proof.
  exact (proj2 (updateEmailImport_always_refused true test_env "secret"
                  (Some "<7@acme.example>") {[ "company" := Some "Acme" ]}
                  store_with_rejection) eq_refl (conj eq_refl eq_refl)).
Defined.

(** ** Metadata of a message *)

Section ConcurrentSyncFacts.

Import ConcurrentSync.

(** X26.  In extractMetadata a field the rules found is never replaced by
    the model's value.  The result is the rule extraction itself when the
    rules found company and job title, when the fallback is off, and when
    the model call throws, is answered with an error status or cannot be
    parsed; otherwise each field is the fill-only merge of the rule value
    and the model's value.  The six keys are always present. *)
Theorem extractMetadata_rules_first (email : Email) (useLLMFallback : bool)
    (llm : extract_outcome) (key : string) :
  (truthy (extractByRules email !! key) = true ->
   extractMetadata email useLLMFallback llm !! key = extractByRules email !! key)
  /\ (isExtractionComplete (extractByRules email) = true ->
      extractMetadata email useLLMFallback llm = extractByRules email)
  /\ extractMetadata email false llm = extractByRules email
  /\ extractMetadata email useLLMFallback ExtractThrows = extractByRules email
  /\ extractMetadata email useLLMFallback ExtractNotOk = extractByRules email
  /\ extractMetadata email useLLMFallback (ExtractParsed None) = extractByRules email
  /\ (forall llmExtracted,
        isExtractionComplete (extractByRules email) = false ->
        extractMetadata email true (ExtractParsed (Some llmExtracted)) !! key
        = filled (extractByRules email) llmExtracted key)
  /\ EXTRACTED_KEYS ⊆ dom (extractMetadata email useLLMFallback llm).
Proof.
  assert (Hneeds : forall d, needsLLMFallback d = negb (isExtractionComplete d)).
  { intros d. unfold needsLLMFallback, isExtractionComplete. rewrite negb_andb. reflexivity. }
  unfold extractMetadata. rewrite Hneeds.
  split; [|split; [|split; [|split; [|split; [|split; [|split]]]]]].
  - intros Ht. destruct (useLLMFallback && _); [|reflexivity].
    destruct llm as [| |[o|]]; try reflexivity.
    rewrite mergeExtractedData_lookup. unfold filled. rewrite Ht, andb_false_r. reflexivity.
  - intros ->. rewrite andb_false_r. reflexivity.
  - reflexivity.
  - destruct (useLLMFallback && _); reflexivity.
  - destruct (useLLMFallback && _); reflexivity.
  - destruct (useLLMFallback && _); reflexivity.
  - intros o ->. cbn [negb andb]. apply mergeExtractedData_lookup.
  - pose proof (extractByRules_shape email) as [Hd _].
    destruct (useLLMFallback && _); [|rewrite Hd; reflexivity].
    destruct llm as [| |[o|]]; try (rewrite Hd; reflexivity).
    intros k Hk. apply elem_of_dom. rewrite mergeExtractedData_lookup. unfold filled.
    rewrite <- Hd in Hk. apply elem_of_dom in Hk as [v Hv].
    destruct (truthy (o !! k) && _) eqn:Hc; [|rewrite Hv; eauto].
    apply andb_true_iff in Hc as [Hc _]. destruct (o !! k); [eauto|discriminate].
Qed.

(** ** One message of the concurrent sync *)






End ConcurrentSyncFacts.

Lemma extractMetadata_rules_first_witness :
  ConcurrentSync.extractMetadata seek_mail true
    (ConcurrentSync.ExtractParsed (Some model_extraction)) !! "company"
  = Some (Some "Acme").
Proof.
  assert (H : extractByRules seek_mail !! "company" = Some (Some "Acme"))
    by (vm_compute; reflexivity).
  rewrite <- H.
  refine (proj1 (extractMetadata_rules_first seek_mail true
                   (ConcurrentSync.ExtractParsed (Some model_extraction)) "company") _).
  rewrite H. reflexivity.
Defined.


(** ** The few-shot pool *)

Lemma scan_one_pool (monitored : list string) (st : ScanState) (item : ScanItem) :
  pool (scan_one monitored st item) = (pool st ++ pool_records monitored item)%list.
Proof.
  unfold scan_one, pool_records.
  destruct (detect monitored item) as [[[[origType correctedType] emailData] bodyPreview]|];
    [|rewrite app_nil_r; reflexivity].
  cbn [pool]. destruct (isHighVarianceCorrection emailData origType correctedType);
    [reflexivity|rewrite app_nil_r; reflexivity].
Qed.

Lemma fold_scan_pool (monitored : list string) (items : list ScanItem) (st : ScanState) :
  pool (fold_left (scan_one monitored) items st)
  = (pool st ++ flat_map (pool_records monitored) items)%list.
Proof.
  revert st. induction items as [|item items IH]; intros st.
  - cbn [fold_left flat_map]. rewrite app_nil_r. reflexivity.
  - cbn [fold_left flat_map]. rewrite IH, scan_one_pool, <- app_assoc. reflexivity.
Qed.

Lemma pool_records_high_variance (monitored : list string) (items : list ScanItem) :
  Forall (fun c => fs_highVariance c = true) (flat_map (pool_records monitored) items)
  /\ length (flat_map (pool_records monitored) items) <= length items.
Proof.
  induction items as [|item items [IH1 IH2]]; [split; [constructor|reflexivity]|].
  cbn [flat_map length]. rewrite length_app. unfold pool_records at 1 3.
  destruct (detect monitored item) as [[[[origType correctedType] emailData] bodyPreview]|];
    [|split; [exact IH1|cbn [length]; lia]].
  destruct (isHighVarianceCorrection emailData origType correctedType);
    [|split; [exact IH1|cbn [length]; lia]].
  split; [|cbn [length]; lia]. constructor; [reflexivity|exact IH1].
Qed.

Lemma fold_was_tags (was : string -> option string) (types : list string)
    (corrections : list CorrectedEmail) :
  fold_left
    (fun corrections type =>
       match was type with
       | Some stdout =>
           (corrections ++ map (was_tag_entry type) (output_lines stdout))%list
       | None => corrections
       end) types corrections
  = (corrections
     ++ flat_map (fun type => match was type with
                              | Some stdout => map (was_tag_entry type) (output_lines stdout)
                              | None => []
                              end) types)%list.
Proof.
  revert corrections. induction types as [|type types IH]; intros corrections.
  - cbn [fold_left flat_map]. rewrite app_nil_r. reflexivity.
  - cbn [fold_left flat_map]. rewrite IH. destruct (was type).
    + rewrite <- app_assoc. reflexivity.
    + reflexivity.
Qed.

(** A message that carries the tag jobsync-corrected and a tag
    jobsync-was/<type> is listed once for each. *)
Lemma findCorrectedEmails_lists_twice (explicit : option string)
    (was : string -> option string) (out out' id type : string) :
  explicit = Some out -> In id (output_lines out) ->
  In type (map type_name CLASSIFICATION_TYPES) ->
  was type = Some out' -> In id (output_lines out') ->
  exists l1 l2 l3,
    findCorrectedEmails explicit was
    = (l1 ++ explicit_entry id :: l2 ++ was_tag_entry type id :: l3)%list.
Proof.
  intros -> Hid Htype Hwas Hid'. unfold findCorrectedEmails. rewrite fold_was_tags.
  apply in_split in Hid as (a & b & ->). apply in_split in Htype as (ta & tb & ->).
  apply in_split in Hid' as (a' & b' & Ho).
  rewrite flat_map_app. cbn [flat_map]. rewrite Hwas, Ho.
  rewrite !map_app. cbn [map].
  match goal with |- context [flat_map ?f ta] => set (per_type := f) end.
  exists (map explicit_entry a),
         (map explicit_entry b ++ flat_map per_type ta ++ map (was_tag_entry type) a')%list,
         (map (was_tag_entry type) b' ++ flat_map per_type tb)%list.
  repeat (rewrite <- app_assoc; cbn [app]). reflexivity.
Qed.

(** X28.  The correction scanner saves at most MAX_HIGH_VARIANCE_CORRECTIONS
    few-shot records: what it saves is the end of the list made of the
    existing records followed by the ones added in this run, the oldest
    being dropped first and none when the list fits.  Every record added is
    high-variance, and the records added are, in order, one for every entry
    of the list of findCorrectedEmails that passes the guards of the loop
    with a high-variance correction, so at most one per entry.  The list is
    not de-duplicated: a message that carries the tag jobsync-corrected and
    a tag jobsync-was/<type> is listed twice, once for each search, and
    each of the two entries is handled on its own. *)
Theorem scan_main_pool_bounded (monitored : list string) (reachable : bool)
    (env : ServerEnv) (apiKey : string) (existing : list FewShot)
    (correctedEmails : list ScanItem) (s : ServerState) :
  let '(st, saved, s') := scan_main monitored reachable env apiKey existing correctedEmails s in
  length saved <= MAX_HIGH_VARIANCE_CORRECTIONS
  /\ (exists added dropped,
       pool st = (existing ++ added)%list
       /\ (existing ++ added = dropped ++ saved)%list
       /\ Forall (fun c => fs_highVariance c = true) added
       /\ added = flat_map (pool_records monitored) correctedEmails
       /\ length added <= length correctedEmails
       /\ (length (existing ++ added) <= MAX_HIGH_VARIANCE_CORRECTIONS -> dropped = []))
  /\ (forall explicit was out out' id type,
        map entry_of correctedEmails = findCorrectedEmails explicit was ->
        explicit = Some out -> In id (output_lines out) ->
        In type (map type_name CLASSIFICATION_TYPES) ->
        was type = Some out' -> In id (output_lines out') ->
        exists before first between second after,
          correctedEmails = (before ++ first :: between ++ second :: after)%list
          /\ entry_of first = explicit_entry id
          /\ entry_of second = was_tag_entry type id
          /\ sc_messageId first = sc_messageId second).
Proof.
  unfold scan_main. cbv zeta.
  pose proof (fold_scan_pool monitored correctedEmails
                {| pool := existing; newCorrections := 0; correctionsList := [];
                   newImportsList := []; deleteList := []; cleaned := [] |}) as Hpool.
  destruct (pool_records_high_variance monitored correctedEmails) as [Hall Hlen].
  cbn [pool] in Hpool. rewrite Hpool. unfold truncate_pool, slice_last.
  set (added := flat_map (pool_records monitored) correctedEmails) in *.
  set (p := (existing ++ added)%list).
  assert (Htwice : forall explicit was out out' id type,
        map entry_of correctedEmails = findCorrectedEmails explicit was ->
        explicit = Some out -> In id (output_lines out) ->
        In type (map type_name CLASSIFICATION_TYPES) ->
        was type = Some out' -> In id (output_lines out') ->
        exists before first between second after,
          correctedEmails = (before ++ first :: between ++ second :: after)%list
          /\ entry_of first = explicit_entry id
          /\ entry_of second = was_tag_entry type id
          /\ sc_messageId first = sc_messageId second).
  { clear. intros explicit was out out' id type Hmap He Hid Htype Hwas Hid'.
    destruct (findCorrectedEmails_lists_twice explicit was out out' id type
                He Hid Htype Hwas Hid') as (l1 & l2 & l3 & Hl).
    rewrite Hl in Hmap.
    apply map_eq_app in Hmap as (before & rest & -> & _ & Hrest).
    apply map_eq_cons in Hrest as (first & rest' & -> & Hfirst & Hrest).
    apply map_eq_app in Hrest as (between & rest & -> & _ & Hrest).
    apply map_eq_cons in Hrest as (second & after & -> & Hsecond & _).
    exists before, first, between, second, after.
    split; [reflexivity|]. split; [exact Hfirst|]. split; [exact Hsecond|].
    change (ce_messageId (entry_of first) = ce_messageId (entry_of second)).
    rewrite Hfirst, Hsecond. reflexivity. }
  destruct (Nat.ltb_spec MAX_HIGH_VARIANCE_CORRECTIONS (length p)) as [Hlt|Hge].
  - split; [rewrite length_skipn; lia|]. split; [|exact Htwice].
    exists added, (firstn (length p - MAX_HIGH_VARIANCE_CORRECTIONS) p).
    split; [reflexivity|]. split; [symmetry; apply firstn_skipn|].
    split; [exact Hall|]. split; [reflexivity|]. split; [exact Hlen|].
    intros H. unfold p in Hlt. lia.
  - split; [exact Hge|]. split; [|exact Htwice].
    exists added, []. repeat split; assumption.
Qed.

Lemma scan_main_pool_bounded_witness :
  map entry_of [marked_corrected; demoted_item]
  = findCorrectedEmails (Some search_answer) was_rejection
  /\ map fs_messageId
       (pool (fst (fst (scan_main ["j@abaj.ai"] false test_env "" []
                          [marked_corrected; demoted_item] store_with_rejection))))
     = ["7@acme.example"; "7@acme.example"]
  /\ exists before first between second after,
       [marked_corrected; demoted_item]
       = (before ++ first :: between ++ second :: after)%list
       /\ entry_of first = explicit_entry "id:7@acme.example"
       /\ entry_of second = was_tag_entry "rejection" "id:7@acme.example"
       /\ sc_messageId first = sc_messageId second.
Proof.
  assert (Hlist : map entry_of [marked_corrected; demoted_item]
                  = findCorrectedEmails (Some search_answer) was_rejection)
    by (vm_compute; reflexivity).
  pose proof (scan_main_pool_bounded ["j@abaj.ai"] false test_env "" []
                [marked_corrected; demoted_item] store_with_rejection) as H.
  destruct (scan_main ["j@abaj.ai"] false test_env "" []
              [marked_corrected; demoted_item] store_with_rejection) as [[st saved] s'].
  destruct H as (_ & (added & dropped & Hpool & _ & _ & Hadded & _) & Htwice).
  split; [exact Hlist|]. split.
  - cbn [fst]. rewrite Hpool, Hadded. vm_compute. reflexivity.
  - apply (Htwice (Some search_answer) was_rejection search_answer search_answer
             "id:7@acme.example" "rejection" Hlist eq_refl).
    + vm_compute. left. reflexivity.
    + vm_compute. tauto.
    + reflexivity.
    + vm_compute. left. reflexivity.
Defined.
